(** * dxLink WebSocket client: connection engine (v3), channel, and the v2
      authorization manager.

    The TypeScript classes are embedded as state-passing programs over an
    explicit world: the engine object, the store of channel objects (channels
    are shared between the engine's table and the handles given to the user),
    the clock read by [Date.now()], and the list of observable effects
    (connector calls, listener invocations, logger calls, promise settlements).

    Listeners are caller-supplied functions; they are modelled by an identity
    and by what a call does to the caller: return normally or throw.  They are
    observers: re-entrant calls from a listener into the engine are not part
    of the model.  Numbers are integers (seconds and milliseconds). *)

From stdpp Require Import base option list gmap strings pretty.
From Stdlib Require Import ZArith Lia.

Local Open Scope Z_scope.
Local Open Scope string_scope.

Set Warnings "-register-all".

(* ===================================================================== *)
(** ** Enumerations (dxlink.ts)                                            *)
(* ===================================================================== *)

Inductive DXLinkConnectionState := NOT_CONNECTED | CONNECTING | CONNECTED.
Inductive DXLinkAuthState := UNAUTHORIZED | AUTHORIZING | AUTHORIZED.
Inductive DXLinkChannelStatus := REQUESTED | OPENED | CLOSED.

#[global] Instance DXLinkConnectionState_eq_dec : EqDecision DXLinkConnectionState.
Proof. solve_decision. Defined.
#[global] Instance DXLinkAuthState_eq_dec : EqDecision DXLinkAuthState.
Proof. solve_decision. Defined.
#[global] Instance DXLinkChannelStatus_eq_dec : EqDecision DXLinkChannelStatus.
Proof. solve_decision. Defined.

(** The name of an enum member, as it appears on the wire and in
    [DXLinkAuthState[state]]. *)
Definition auth_state_name (s : DXLinkAuthState) : string :=
  match s with
  | UNAUTHORIZED => "UNAUTHORIZED"
  | AUTHORIZING => "AUTHORIZING"
  | AUTHORIZED => "AUTHORIZED"
  end.

(* ===================================================================== *)
(** ** JavaScript values and object literals                               *)
(* ===================================================================== *)

Inductive Value :=
| VUndefined
| VNull
| VBool (b : bool)
| VNum (n : Z)
| VStr (s : string)
| VObj (o : list (string * Value))
| VArr (l : list Value).

(** An object: its own enumerable properties, in insertion order. *)
Abbreviation JsObject := (list (string * Value)) (only parsing).

Fixpoint obj_get (k : string) (o : JsObject) : option Value :=
  match o with
  | [] => None
  | (k', v) :: o' => if String.eqb k k' then Some v else obj_get k o'
  end.

(** [o[k] = v]: an existing property keeps its place, a new one goes last. *)
Fixpoint obj_set (k : string) (v : Value) (o : JsObject) : JsObject :=
  match o with
  | [] => [(k, v)]
  | (k', v') :: o' =>
      if String.eqb k k' then (k', v) :: o' else (k', v') :: obj_set k v o'
  end.

(** The rest pattern [{ k, ...rest }]: every property but [k]. *)
Definition obj_rest (k : string) (o : JsObject) : JsObject :=
  filter (fun kv => negb (String.eqb k (fst kv)) = true) o.

(** An object literal [{ k1: v1, ..., ...spread }]: the entries are assigned
    from left to right, so a later entry wins over an earlier one of the same
    name. *)
Definition obj_literal (entries : JsObject) : JsObject :=
  fold_left (fun o kv => obj_set (fst kv) (snd kv) o) entries [].

Definition opt_num (o : option Z) : Value :=
  match o with Some n => VNum n | None => VUndefined end.

(* ===================================================================== *)
(** ** Messages (messages.ts)                                              *)
(* ===================================================================== *)

(** What the engine sends: the object literal the code builds. *)
Abbreviation WireMessage := JsObject (only parsing).

(** What the engine receives: the decoded message union that
    [processMessage] switches on.  [PAYLOAD] stands for every other type
    tag. *)
Inductive Message :=
| SETUP (channel : Z) (version : string)
        (keepaliveTimeout acceptKeepaliveTimeout : option Z)
| AUTH (channel : Z) (token : string)
| AUTH_STATE (channel : Z) (state : DXLinkAuthState)
| KEEPALIVE (channel : Z)
| ERROR (channel : Z) (error message : string)
| CHANNEL_REQUEST (channel : Z) (service : string) (parameters : JsObject)
| CHANNEL_OPENED (channel : Z) (service : string) (parameters : JsObject)
| CHANNEL_CANCEL (channel : Z)
| CHANNEL_CLOSED (channel : Z)
| PAYLOAD (type : string) (channel : Z) (payload : JsObject).

Definition message_channel (m : Message) : Z :=
  match m with
  | SETUP c _ _ _ | AUTH c _ | AUTH_STATE c _ | KEEPALIVE c | ERROR c _ _
  | CHANNEL_REQUEST c _ _ | CHANNEL_OPENED c _ _ | CHANNEL_CANCEL c
  | CHANNEL_CLOSED c | PAYLOAD _ c _ => c
  end.

Definition message_type (m : Message) : string :=
  match m with
  | SETUP _ _ _ _ => "SETUP"
  | AUTH _ _ => "AUTH"
  | AUTH_STATE _ _ => "AUTH_STATE"
  | KEEPALIVE _ => "KEEPALIVE"
  | ERROR _ _ _ => "ERROR"
  | CHANNEL_REQUEST _ _ _ => "CHANNEL_REQUEST"
  | CHANNEL_OPENED _ _ _ => "CHANNEL_OPENED"
  | CHANNEL_CANCEL _ => "CHANNEL_CANCEL"
  | CHANNEL_CLOSED _ => "CHANNEL_CLOSED"
  | PAYLOAD t _ _ => t
  end.

(** Modelled from the spec: the message taxonomy of messages.ts
    ([isConnectionMessage], [isChannelMessage], [isChannelLifecycleMessage]),
    which is not among the sources.  A connection message has channel 0, a
    channel message any other channel; the lifecycle types are
    CHANNEL_REQUEST, CHANNEL_OPENED, CHANNEL_CANCEL, CHANNEL_CLOSED and
    ERROR. *)
Definition isConnectionMessage (m : Message) : bool :=
  bool_decide (message_channel m = 0).

Definition isChannelMessage (m : Message) : bool :=
  bool_decide (message_channel m ≠ 0).

Definition isChannelLifecycleMessage (m : Message) : bool :=
  match m with
  | CHANNEL_REQUEST _ _ _ | CHANNEL_OPENED _ _ _ | CHANNEL_CANCEL _
  | CHANNEL_CLOSED _ | ERROR _ _ _ => true
  | _ => false
  end.

Record DXLinkError := { err_type : string; err_message : string }.

(* ===================================================================== *)
(** ** Listeners                                                           *)
(* ===================================================================== *)

(** A thrown value. *)
Abbreviation Exn := string (only parsing).

(** A caller-supplied function: its identity (a [Set] holds a function once)
    and the outcome of a call, [None] for a normal return and [Some e] for
    [throw e].  A listener observes: while it runs it does not call back
    into the engine or a channel, so a fan-out sees the listener set it
    started with. *)
Record Listener (A : Type) := { lid : nat; lcall : A → option Exn }.
Arguments lid {A} _.
Arguments lcall {A} _ _.

Definition DXLinkChannelMessageListener := Listener Message.
Definition DXLinkChannelStatusListener :=
  Listener (DXLinkChannelStatus * DXLinkChannelStatus).
Definition DXLinkErrorListener := Listener DXLinkError.
Definition DXLinkAuthStateChangeListener :=
  Listener (DXLinkAuthState * DXLinkAuthState).

(** Connection-state listeners are either the caller's or the one-shot
    listener that [connect] registers for its promise. *)
Inductive DXLinkConnectionStateChangeListener :=
| UserListener (l : Listener (DXLinkConnectionState * DXLinkConnectionState))
| ConnectListener (promise : nat).

(** [Set.add] and [Set.delete], by identity, keeping insertion order. *)
Definition set_add {A} (same : A → A → bool) (x : A) (s : list A) : list A :=
  if existsb (same x) s then s else s ++ [x].

Definition set_delete {A} (same : A → A → bool) (x : A) (s : list A) : list A :=
  filter (fun y => negb (same x y) = true) s.

Definition same_listener {A} (a b : Listener A) : bool :=
  Nat.eqb (lid a) (lid b).

Definition same_cs_listener (a b : DXLinkConnectionStateChangeListener) : bool :=
  match a, b with
  | UserListener x, UserListener y => same_listener x y
  | ConnectListener p, ConnectListener q => Nat.eqb p q
  | _, _ => false
  end.

(* ===================================================================== *)
(** ** Method bodies: state and exceptions                                 *)
(* ===================================================================== *)

Inductive Res (A : Type) := Ok (a : A) | Throw (e : Exn).
Arguments Ok {A} _.
Arguments Throw {A} _.

(** A computation over a world [W]: it returns or throws, and hands back the
    world as it left it. *)
Definition SE (W A : Type) : Type := W → Res A * W.

#[global] Instance SE_ret {W} : MRet (SE W) := λ A a w, (Ok a, w).
#[global] Instance SE_bind {W} : MBind (SE W) := λ A B f m w,
  match m w with
  | (Ok a, w') => f a w'
  | (Throw e, w') => (Throw e, w')
  end.

Definition throw {W A} (e : Exn) : SE W A := λ w, (Throw e, w).

(** [try { body } catch (e) { handler e }] *)
Definition try_catch {W} (body : SE W unit) (handler : Exn → SE W unit)
  : SE W unit := λ w,
  match body w with
  | (Ok a, w') => (Ok a, w')
  | (Throw e, w') => handler e w'
  end.

(** [for (const x of xs) { body x }] *)
Fixpoint for_of {W A} (xs : list A) (body : A → SE W unit) : SE W unit :=
  match xs with
  | [] => mret tt
  | x :: xs' => body x;; for_of xs' body
  end.

(* ===================================================================== *)
(** ** The fields of a [Channel] object (channel.ts)                       *)
(* ===================================================================== *)

Module ChannelObject.
Record t := {
id : Z;
service : string;
parameters : JsObject;
status : DXLinkChannelStatus;
messageListeners : list DXLinkChannelMessageListener;
statusListeners : list DXLinkChannelStatusListener;
errorListeners : list DXLinkErrorListener
}.

Definition set_status (v : DXLinkChannelStatus) (this : t) : t :=
{| id := id this; service := service this; parameters := parameters this;
status := v; messageListeners := messageListeners this;
statusListeners := statusListeners this;
errorListeners := errorListeners this |}.

Definition set_messageListeners (v : list DXLinkChannelMessageListener) (this : t) : t :=
{| id := id this; service := service this; parameters := parameters this;
status := status this; messageListeners := v;
statusListeners := statusListeners this;
errorListeners := errorListeners this |}.

Definition set_statusListeners (v : list DXLinkChannelStatusListener) (this : t) : t :=
{| id := id this; service := service this; parameters := parameters this;
status := status this; messageListeners := messageListeners this;
statusListeners := v; errorListeners := errorListeners this |}.

Definition set_errorListeners (v : list DXLinkErrorListener) (this : t) : t :=
{| id := id this; service := service this; parameters := parameters this;
status := status this; messageListeners := messageListeners this;
statusListeners := statusListeners this; errorListeners := v |}.

(** [new Channel(id, service, parameters, sendMessage)]; the send function
  is the parameter of the methods below. *)
Definition new (id : Z) (service : string) (parameters : JsObject) : t :=
{| id := id; service := service; parameters := parameters;
   status := REQUESTED; messageListeners := []; statusListeners := [];
   errorListeners := [] |}.
End ChannelObject.

(* ===================================================================== *)
(** ** The state of the engine object (client.ts)                          *)
(* ===================================================================== *)

(** logger.ts is not among the sources; only the level's name is kept. *)
Inductive DXLinkLogLevel := LevelDebug | LevelInfo | LevelWarn | LevelError.

Record DXLinkWebSocketConfig := {
  keepaliveInterval : Z;
  keepaliveTimeout : Z;
  acceptKeepaliveTimeout : Z;
  actionTimeout : Z;
  logLevel : DXLinkLogLevel
}.

(** The defaults of the constructor. *)
Definition default_config : DXLinkWebSocketConfig :=
  {| keepaliveInterval := 30; keepaliveTimeout := 60;
     acceptKeepaliveTimeout := 60; actionTimeout := 10;
     logLevel := LevelWarn |}.

Definition DXLINK_WS_PROTOCOL_VERSION : string := "0.1".

Record DXLinkConnectionDetails := {
  protocolVersion : string;
  clientVersion : string;
  serverVersion : option string;
  clientKeepaliveTimeout : option Z;
  serverKeepaliveTimeout : option Z
}.

Definition DEFAULT_CONNECTION_DETAILS : DXLinkConnectionDetails :=
  {| protocolVersion := DXLINK_WS_PROTOCOL_VERSION; clientVersion := "0.0.0";
     serverVersion := None; clientKeepaliveTimeout := None;
     serverKeepaliveTimeout := None |}.

(** Modelled from the spec: the connector (connector.ts, not among the
    sources), an external collaborator with the operations [start()],
    [stop()], [send(message)] and [getUrl()].  The engine only keeps the
    object and calls it; the calls are recorded as effects and return. *)
Record WebSocketConnector := { getUrl : string }.

(** The closures handed to [setTimeout], one constructor per call site. *)
Inductive TimerCallback :=
| OnSetupTimeout
| OnAuthStateTimeout
| OnTimeoutCheck (timeoutMills : Z)
| OnKeepalive
| OnReconnect.

(** An entry of [timeoutIds]: the handle of a [setTimeout(callback, delay)].
    The handle stays in the registry after the timer has fired, until the key
    is cancelled or scheduled again; [pending] tells whether the host may
    still run the callback. *)
Record Timer := { callback : TimerCallback; delay : Z; pending : bool }.

Record DXLinkWebSocket := {
  config : DXLinkWebSocketConfig;
  connector : option WebSocketConnector;
  connectionState : DXLinkConnectionState;
  connectionDetails : DXLinkConnectionDetails;
  authState : DXLinkAuthState;
  connectionStateChangeListeners : list DXLinkConnectionStateChangeListener;
  errorListeners : list DXLinkErrorListener;
  authStateChangeListeners : list DXLinkAuthStateChangeListener;
  timeoutIds : gmap string Timer;
  isFirstAuthState : bool;
  lastSettedAuthToken : option string;
  lastReceivedMillis : Z;
  lastSentMillis : Z;
  reconnectAttempts : Z;
  globalChannelId : Z;
  channels : list Z
}.

Definition set_connector (v : option WebSocketConnector) (this : DXLinkWebSocket) : DXLinkWebSocket :=
  {| config := config this; connector := v;
  connectionState := connectionState this;
  connectionDetails := connectionDetails this; authState := authState this;
  connectionStateChangeListeners := connectionStateChangeListeners this;
  errorListeners := errorListeners this;
  authStateChangeListeners := authStateChangeListeners this;
  timeoutIds := timeoutIds this; isFirstAuthState := isFirstAuthState this;
  lastSettedAuthToken := lastSettedAuthToken this;
  lastReceivedMillis := lastReceivedMillis this;
  lastSentMillis := lastSentMillis this;
  reconnectAttempts := reconnectAttempts this;
  globalChannelId := globalChannelId this; channels := channels this |}.

Definition set_connectionState (v : DXLinkConnectionState) (this : DXLinkWebSocket) : DXLinkWebSocket :=
  {| config := config this; connector := connector this;
  connectionState := v; connectionDetails := connectionDetails this;
  authState := authState this;
  connectionStateChangeListeners := connectionStateChangeListeners this;
  errorListeners := errorListeners this;
  authStateChangeListeners := authStateChangeListeners this;
  timeoutIds := timeoutIds this; isFirstAuthState := isFirstAuthState this;
  lastSettedAuthToken := lastSettedAuthToken this;
  lastReceivedMillis := lastReceivedMillis this;
  lastSentMillis := lastSentMillis this;
  reconnectAttempts := reconnectAttempts this;
  globalChannelId := globalChannelId this; channels := channels this |}.

Definition set_connectionDetails (v : DXLinkConnectionDetails) (this : DXLinkWebSocket) : DXLinkWebSocket :=
  {| config := config this; connector := connector this;
  connectionState := connectionState this; connectionDetails := v;
  authState := authState this;
  connectionStateChangeListeners := connectionStateChangeListeners this;
  errorListeners := errorListeners this;
  authStateChangeListeners := authStateChangeListeners this;
  timeoutIds := timeoutIds this; isFirstAuthState := isFirstAuthState this;
  lastSettedAuthToken := lastSettedAuthToken this;
  lastReceivedMillis := lastReceivedMillis this;
  lastSentMillis := lastSentMillis this;
  reconnectAttempts := reconnectAttempts this;
  globalChannelId := globalChannelId this; channels := channels this |}.

Definition set_authState (v : DXLinkAuthState) (this : DXLinkWebSocket) : DXLinkWebSocket :=
  {| config := config this; connector := connector this;
  connectionState := connectionState this;
  connectionDetails := connectionDetails this; authState := v;
  connectionStateChangeListeners := connectionStateChangeListeners this;
  errorListeners := errorListeners this;
  authStateChangeListeners := authStateChangeListeners this;
  timeoutIds := timeoutIds this; isFirstAuthState := isFirstAuthState this;
  lastSettedAuthToken := lastSettedAuthToken this;
  lastReceivedMillis := lastReceivedMillis this;
  lastSentMillis := lastSentMillis this;
  reconnectAttempts := reconnectAttempts this;
  globalChannelId := globalChannelId this; channels := channels this |}.

Definition set_connectionStateChangeListeners (v : list DXLinkConnectionStateChangeListener) (this : DXLinkWebSocket) : DXLinkWebSocket :=
  {| config := config this; connector := connector this;
  connectionState := connectionState this;
  connectionDetails := connectionDetails this; authState := authState this;
  connectionStateChangeListeners := v; errorListeners := errorListeners this;
  authStateChangeListeners := authStateChangeListeners this;
  timeoutIds := timeoutIds this; isFirstAuthState := isFirstAuthState this;
  lastSettedAuthToken := lastSettedAuthToken this;
  lastReceivedMillis := lastReceivedMillis this;
  lastSentMillis := lastSentMillis this;
  reconnectAttempts := reconnectAttempts this;
  globalChannelId := globalChannelId this; channels := channels this |}.

Definition set_errorListeners (v : list DXLinkErrorListener) (this : DXLinkWebSocket) : DXLinkWebSocket :=
  {| config := config this; connector := connector this;
  connectionState := connectionState this;
  connectionDetails := connectionDetails this; authState := authState this;
  connectionStateChangeListeners := connectionStateChangeListeners this;
  errorListeners := v;
  authStateChangeListeners := authStateChangeListeners this;
  timeoutIds := timeoutIds this; isFirstAuthState := isFirstAuthState this;
  lastSettedAuthToken := lastSettedAuthToken this;
  lastReceivedMillis := lastReceivedMillis this;
  lastSentMillis := lastSentMillis this;
  reconnectAttempts := reconnectAttempts this;
  globalChannelId := globalChannelId this; channels := channels this |}.

Definition set_authStateChangeListeners (v : list DXLinkAuthStateChangeListener) (this : DXLinkWebSocket) : DXLinkWebSocket :=
  {| config := config this; connector := connector this;
  connectionState := connectionState this;
  connectionDetails := connectionDetails this; authState := authState this;
  connectionStateChangeListeners := connectionStateChangeListeners this;
  errorListeners := errorListeners this; authStateChangeListeners := v;
  timeoutIds := timeoutIds this; isFirstAuthState := isFirstAuthState this;
  lastSettedAuthToken := lastSettedAuthToken this;
  lastReceivedMillis := lastReceivedMillis this;
  lastSentMillis := lastSentMillis this;
  reconnectAttempts := reconnectAttempts this;
  globalChannelId := globalChannelId this; channels := channels this |}.

Definition set_timeoutIds (v : gmap string Timer) (this : DXLinkWebSocket) : DXLinkWebSocket :=
  {| config := config this; connector := connector this;
  connectionState := connectionState this;
  connectionDetails := connectionDetails this; authState := authState this;
  connectionStateChangeListeners := connectionStateChangeListeners this;
  errorListeners := errorListeners this;
  authStateChangeListeners := authStateChangeListeners this; timeoutIds := v;
  isFirstAuthState := isFirstAuthState this;
  lastSettedAuthToken := lastSettedAuthToken this;
  lastReceivedMillis := lastReceivedMillis this;
  lastSentMillis := lastSentMillis this;
  reconnectAttempts := reconnectAttempts this;
  globalChannelId := globalChannelId this; channels := channels this |}.

Definition set_isFirstAuthState (v : bool) (this : DXLinkWebSocket) : DXLinkWebSocket :=
  {| config := config this; connector := connector this;
  connectionState := connectionState this;
  connectionDetails := connectionDetails this; authState := authState this;
  connectionStateChangeListeners := connectionStateChangeListeners this;
  errorListeners := errorListeners this;
  authStateChangeListeners := authStateChangeListeners this;
  timeoutIds := timeoutIds this; isFirstAuthState := v;
  lastSettedAuthToken := lastSettedAuthToken this;
  lastReceivedMillis := lastReceivedMillis this;
  lastSentMillis := lastSentMillis this;
  reconnectAttempts := reconnectAttempts this;
  globalChannelId := globalChannelId this; channels := channels this |}.

Definition set_lastSettedAuthToken (v : option string) (this : DXLinkWebSocket) : DXLinkWebSocket :=
  {| config := config this; connector := connector this;
  connectionState := connectionState this;
  connectionDetails := connectionDetails this; authState := authState this;
  connectionStateChangeListeners := connectionStateChangeListeners this;
  errorListeners := errorListeners this;
  authStateChangeListeners := authStateChangeListeners this;
  timeoutIds := timeoutIds this; isFirstAuthState := isFirstAuthState this;
  lastSettedAuthToken := v; lastReceivedMillis := lastReceivedMillis this;
  lastSentMillis := lastSentMillis this;
  reconnectAttempts := reconnectAttempts this;
  globalChannelId := globalChannelId this; channels := channels this |}.

Definition set_lastReceivedMillis (v : Z) (this : DXLinkWebSocket) : DXLinkWebSocket :=
  {| config := config this; connector := connector this;
  connectionState := connectionState this;
  connectionDetails := connectionDetails this; authState := authState this;
  connectionStateChangeListeners := connectionStateChangeListeners this;
  errorListeners := errorListeners this;
  authStateChangeListeners := authStateChangeListeners this;
  timeoutIds := timeoutIds this; isFirstAuthState := isFirstAuthState this;
  lastSettedAuthToken := lastSettedAuthToken this; lastReceivedMillis := v;
  lastSentMillis := lastSentMillis this;
  reconnectAttempts := reconnectAttempts this;
  globalChannelId := globalChannelId this; channels := channels this |}.

Definition set_lastSentMillis (v : Z) (this : DXLinkWebSocket) : DXLinkWebSocket :=
  {| config := config this; connector := connector this;
  connectionState := connectionState this;
  connectionDetails := connectionDetails this; authState := authState this;
  connectionStateChangeListeners := connectionStateChangeListeners this;
  errorListeners := errorListeners this;
  authStateChangeListeners := authStateChangeListeners this;
  timeoutIds := timeoutIds this; isFirstAuthState := isFirstAuthState this;
  lastSettedAuthToken := lastSettedAuthToken this;
  lastReceivedMillis := lastReceivedMillis this; lastSentMillis := v;
  reconnectAttempts := reconnectAttempts this;
  globalChannelId := globalChannelId this; channels := channels this |}.

Definition set_reconnectAttempts (v : Z) (this : DXLinkWebSocket) : DXLinkWebSocket :=
  {| config := config this; connector := connector this;
  connectionState := connectionState this;
  connectionDetails := connectionDetails this; authState := authState this;
  connectionStateChangeListeners := connectionStateChangeListeners this;
  errorListeners := errorListeners this;
  authStateChangeListeners := authStateChangeListeners this;
  timeoutIds := timeoutIds this; isFirstAuthState := isFirstAuthState this;
  lastSettedAuthToken := lastSettedAuthToken this;
  lastReceivedMillis := lastReceivedMillis this;
  lastSentMillis := lastSentMillis this; reconnectAttempts := v;
  globalChannelId := globalChannelId this; channels := channels this |}.

Definition set_globalChannelId (v : Z) (this : DXLinkWebSocket) : DXLinkWebSocket :=
  {| config := config this; connector := connector this;
  connectionState := connectionState this;
  connectionDetails := connectionDetails this; authState := authState this;
  connectionStateChangeListeners := connectionStateChangeListeners this;
  errorListeners := errorListeners this;
  authStateChangeListeners := authStateChangeListeners this;
  timeoutIds := timeoutIds this; isFirstAuthState := isFirstAuthState this;
  lastSettedAuthToken := lastSettedAuthToken this;
  lastReceivedMillis := lastReceivedMillis this;
  lastSentMillis := lastSentMillis this;
  reconnectAttempts := reconnectAttempts this; globalChannelId := v;
  channels := channels this |}.

Definition set_channels (v : list Z) (this : DXLinkWebSocket) : DXLinkWebSocket :=
  {| config := config this; connector := connector this;
  connectionState := connectionState this;
  connectionDetails := connectionDetails this; authState := authState this;
  connectionStateChangeListeners := connectionStateChangeListeners this;
  errorListeners := errorListeners this;
  authStateChangeListeners := authStateChangeListeners this;
  timeoutIds := timeoutIds this; isFirstAuthState := isFirstAuthState this;
  lastSettedAuthToken := lastSettedAuthToken this;
  lastReceivedMillis := lastReceivedMillis this;
  lastSentMillis := lastSentMillis this;
  reconnectAttempts := reconnectAttempts this;
  globalChannelId := globalChannelId this; channels := v |}.

(* ===================================================================== *)
(** ** The world and the monad of the embedding                            *)
(* ===================================================================== *)

Inductive Effect :=
| ConnectorCreated (url : string)
| ConnectorStart
| ConnectorStop
| ConnectorSend (m : WireMessage)
| ConnectionListenerCalled (l : nat) (new prev : DXLinkConnectionState)
| AuthListenerCalled (l : nat) (new prev : DXLinkAuthState)
| ErrorListenerCalled (l : nat) (e : DXLinkError)
| ChannelMessageListenerCalled (channel : Z) (l : nat) (m : Message)
| ChannelStatusListenerCalled (channel : Z) (l : nat)
    (new prev : DXLinkChannelStatus)
| ChannelErrorListenerCalled (channel : Z) (l : nat) (e : DXLinkError)
| LoggerError (text : string) (detail : string)
| LoggerWarn (text : string) (detail : string)
| ConsoleError (text : string) (detail : string)
| PromiseResolved (p : nat)
| PromiseRejected (p : nat) (reason : string).

(** [heap] holds every channel object ever created, under its id; the
    engine's [channels] table holds the keys it still maps, in insertion
    order, each key [k] mapping to the object of id [k]. *)
Record World := {
  ws : DXLinkWebSocket;
  heap : gmap Z ChannelObject.t;
  clock : Z;
  trace : list Effect;
  promises : nat
}.

Definition set_ws (v : DXLinkWebSocket) (this : World) : World :=
  {| ws := v; heap := heap this; clock := clock this; trace := trace this;
  promises := promises this |}.

Definition set_heap (v : gmap Z ChannelObject.t) (this : World) : World :=
  {| ws := ws this; heap := v; clock := clock this; trace := trace this;
  promises := promises this |}.

Definition set_clock (v : Z) (this : World) : World :=
  {| ws := ws this; heap := heap this; clock := v; trace := trace this;
  promises := promises this |}.

Definition set_trace (v : list Effect) (this : World) : World :=
  {| ws := ws this; heap := heap this; clock := clock this; trace := v;
  promises := promises this |}.

Definition set_promises (v : nat) (this : World) : World :=
  {| ws := ws this; heap := heap this; clock := clock this;
  trace := trace this; promises := v |}.

(** A method body: it runs on the world and either returns or throws; what
    it did before a throw stays done. *)
Abbreviation M := (SE World).

Definition get_this : M DXLinkWebSocket := λ w, (Ok (ws w), w).
Definition update (f : DXLinkWebSocket → DXLinkWebSocket) : M unit :=
  λ w, (Ok tt, set_ws (f (ws w)) w).
Definition emit (e : Effect) : M unit :=
  λ w, (Ok tt, set_trace (trace w ++ [e]) w).
Definition Date_now : M Z := λ w, (Ok (clock w), w).

(** Reading and writing a channel object through its reference. *)
Definition get_channel (ref : Z) : M ChannelObject.t := λ w,
  match heap w !! ref with
  | Some c => (Ok c, w)
  | None => (Throw "TypeError: no such object", w)
  end.
Definition allocate (ref : Z) (c : ChannelObject.t) : M unit :=
  λ w, (Ok tt, set_heap (<[ref := c]> (heap w)) w).
Definition update_channel (ref : Z)
    (f : ChannelObject.t → ChannelObject.t) : M unit :=
  λ w, (Ok tt, set_heap (alter f ref (heap w)) w).

(** Calling a caller-supplied function. *)
Definition call {A} (l : Listener A) (args : A) (e : Effect) : M unit :=
  emit e;;
  match lcall l args with
  | None => mret tt
  | Some exn => throw exn
  end.

(* ===================================================================== *)
(** ** class Channel (channel.ts)                                          *)
(* ===================================================================== *)

Module Channel.
Import ChannelObject.

Section methods.
(** [private readonly sendMessage: (message: Message) => void], given to
  the constructor. *)
Variable sendMessage : WireMessage → M unit.

Definition console_error_prefix (self : t) (what : string) : string :=
"Error in channel#" ++ pretty (id self) ++ " " ++ what ++ ": ".

Definition clear (this : Z) : M unit :=
update_channel this (set_messageListeners []);;
update_channel this (set_statusListeners []);;
update_channel this (set_errorListeners []).

Definition setStatus (this : Z) (newStatus : DXLinkChannelStatus) : M unit :=
self ← get_channel this;
if decide (status self = newStatus) then mret tt else
let prev := status self in
update_channel this (set_status newStatus);;
for_of (statusListeners self) (λ listener,
  try_catch
    (call listener (newStatus, prev)
       (ChannelStatusListenerCalled (id self) (lid listener) newStatus prev))
    (λ e, emit (ConsoleError (console_error_prefix self "status listener") e))).

Definition send (this : Z) (message : JsObject) : M unit :=
self ← get_channel this;
if decide (status self ≠ OPENED) then throw "Error: Channel is not ready" else
let type := default VUndefined (obj_get "type" message) in
let payload := obj_rest "type" message in
sendMessage
  (obj_literal ([("type", type); ("channel", VNum (id self))] ++ payload)).

Definition addMessageListener (this : Z) (listener : DXLinkChannelMessageListener)
: M unit :=
update_channel this
  (λ self, set_messageListeners
             (set_add same_listener listener (messageListeners self)) self).
Definition removeMessageListener (this : Z)
  (listener : DXLinkChannelMessageListener) : M unit :=
update_channel this
  (λ self, set_messageListeners
             (set_delete same_listener listener (messageListeners self)) self).

Definition getStatus (this : Z) : M DXLinkChannelStatus :=
self ← get_channel this; mret (status self).
Definition addStatusListener (this : Z) (listener : DXLinkChannelStatusListener)
: M unit :=
update_channel this
  (λ self, set_statusListeners
             (set_add same_listener listener (statusListeners self)) self).
Definition removeStatusListener (this : Z)
  (listener : DXLinkChannelStatusListener) : M unit :=
update_channel this
  (λ self, set_statusListeners
             (set_delete same_listener listener (statusListeners self)) self).

Definition addErrorListener (this : Z) (listener : DXLinkErrorListener) : M unit :=
update_channel this
  (λ self, set_errorListeners
             (set_add same_listener listener (errorListeners self)) self).
Definition removeErrorListener (this : Z) (listener : DXLinkErrorListener)
: M unit :=
update_channel this
  (λ self, set_errorListeners
             (set_delete same_listener listener (errorListeners self)) self).

Definition error (this : Z) (e : DXLinkError) : M unit :=
send this [("type", VStr "ERROR"); ("error", VStr (err_type e));
           ("message", VStr (err_message e))].

Definition close (this : Z) : M unit :=
send this [("type", VStr "CHANNEL_CANCEL")];;
clear this;;
(* After sending CHANNEL_CANCEL we can think that channel is closed already *)
setStatus this CLOSED.

Definition processPayloadMessage (this : Z) (message : Message) : M unit :=
self ← get_channel this;
for_of (messageListeners self) (λ listener,
  call listener message
    (ChannelMessageListenerCalled (id self) (lid listener) message)).

Definition processStatusOpened (this : Z) : M unit := setStatus this OPENED.

Definition processStatusRequested (this : Z) : M unit := setStatus this REQUESTED.

Definition processStatusClosed (this : Z) : M unit :=
setStatus this CLOSED;;
clear this.

Definition processError (this : Z) (e : DXLinkError) : M unit :=
self ← get_channel this;
if decide (length (errorListeners self) = 0%nat) then
  emit (ConsoleError ("Unhandled error in channel#" ++ pretty (id self) ++ ": ")
          (err_message e))
else
  for_of (errorListeners self) (λ listener,
    try_catch
      (call listener e (ChannelErrorListenerCalled (id self) (lid listener) e))
      (λ exn, emit (ConsoleError (console_error_prefix self "error listener") exn))).
End methods.
End Channel.

(* ===================================================================== *)
(** ** class DXLinkWebSocket (client.ts)                                   *)
(* ===================================================================== *)

Definition cancelSchedule (key : string) : M unit :=
  this ← get_this;
  if decide (timeoutIds this !! key ≠ None) then
    (* clearTimeout(this.timeoutIds[key]); delete this.timeoutIds[key] *)
    update (λ this, set_timeoutIds (delete key (timeoutIds this)) this)
  else mret tt.

Definition schedule (key : string) (callback : TimerCallback) (timeout : Z)
  : M unit :=
  cancelSchedule key;;
  update (λ this,
    set_timeoutIds
      (<[key := {| callback := callback; delay := timeout; pending := true |}]>
         (timeoutIds this)) this).

Definition scheduleKeepalive : M unit :=
  this ← get_this;
  schedule "KEEPALIVE" OnKeepalive (keepaliveInterval (config this) * 1000).

Definition sendMessage (message : WireMessage) : M unit :=
  this ← get_this;
  (* this.connector?.sendMessage(message) *)
  match connector this with
  | Some _ => emit (ConnectorSend message)
  | None => mret tt
  end;;
  scheduleKeepalive;;
  now ← Date_now;
  update (set_lastSentMillis now).

Definition addConnectionStateChangeListener
    (listener : DXLinkConnectionStateChangeListener) : M unit :=
  update (λ this,
    set_connectionStateChangeListeners
      (set_add same_cs_listener listener (connectionStateChangeListeners this))
      this).
Definition removeConnectionStateChangeListener
    (listener : DXLinkConnectionStateChangeListener) : M unit :=
  update (λ this,
    set_connectionStateChangeListeners
      (set_delete same_cs_listener listener (connectionStateChangeListeners this))
      this).

Definition addAuthStateChangeListener (listener : DXLinkAuthStateChangeListener)
  : M unit :=
  update (λ this,
    set_authStateChangeListeners
      (set_add same_listener listener (authStateChangeListeners this)) this).
Definition removeAuthStateChangeListener (listener : DXLinkAuthStateChangeListener)
  : M unit :=
  update (λ this,
    set_authStateChangeListeners
      (set_delete same_listener listener (authStateChangeListeners this)) this).

Definition addErrorListener (listener : DXLinkErrorListener) : M unit :=
  update (λ this,
    set_errorListeners (set_add same_listener listener (errorListeners this)) this).
Definition removeErrorListener (listener : DXLinkErrorListener) : M unit :=
  update (λ this,
    set_errorListeners (set_delete same_listener listener (errorListeners this))
      this).

(** Calling a connection-state listener.  The listener of [connect] removes
    itself and settles the promise. *)
Definition call_connection_listener
    (listener : DXLinkConnectionStateChangeListener)
    (newStatus prev : DXLinkConnectionState) : M unit :=
  match listener with
  | UserListener l =>
      call l (newStatus, prev) (ConnectionListenerCalled (lid l) newStatus prev)
  | ConnectListener p =>
      removeConnectionStateChangeListener listener;;
      match newStatus with
      | CONNECTED => emit (PromiseResolved p)
      | NOT_CONNECTED => emit (PromiseRejected p "Error: Connection failed")
      | CONNECTING => mret tt
      end
  end.

Definition setConnectionState (newStatus : DXLinkConnectionState) : M unit :=
  this ← get_this;
  let prev := connectionState this in
  if decide (prev = newStatus) then mret tt else
  update (set_connectionState newStatus);;
  for_of (connectionStateChangeListeners this) (λ listener,
    call_connection_listener listener newStatus prev).

Definition setAuthState (newState : DXLinkAuthState) : M unit :=
  this ← get_this;
  let prev := authState this in
  update (set_authState newState);;
  for_of (authStateChangeListeners this) (λ listener,
    try_catch
      (call listener (newState, prev)
         (AuthListenerCalled (lid listener) newState prev))
      (λ e, emit (LoggerError "Auth state listener error" e))).

Definition sendAuthMessage (token : string) : M unit :=
  setAuthState AUTHORIZING;;
  sendMessage [("type", VStr "AUTH"); ("channel", VNum 0); ("token", VStr token)].

Definition publishError (error : DXLinkError) : M unit :=
  this ← get_this;
  if decide (length (errorListeners this) = 0%nat) then
    emit (LoggerError "Unhandled dxLink error" (err_message error))
  else
    for_of (errorListeners this) (λ listener,
      try_catch
        (call listener error (ErrorListenerCalled (lid listener) error))
        (λ e, emit (LoggerError "Error listener error" e))).

(** [for (const key of Object.keys(this.timeoutIds)) this.cancelSchedule(key)] *)
Definition cancelAllSchedules : M unit :=
  this ← get_this;
  for_of (map fst (map_to_list (timeoutIds this))) cancelSchedule.

Definition reconnect : M unit :=
  this ← get_this;
  if decide (connectionState this = NOT_CONNECTED ∨ connector this = None)
  then mret tt else
  emit ConnectorStop;;
  cancelAllSchedules;;
  update (set_connectionDetails DEFAULT_CONNECTION_DETAILS);;
  update (set_lastReceivedMillis 0);;
  update (set_lastSentMillis 0);;
  update (set_isFirstAuthState true);;
  update (λ this, set_reconnectAttempts (reconnectAttempts this + 1) this);;
  setConnectionState CONNECTING;;
  this ← get_this;
  schedule "RECONNECT" OnReconnect (reconnectAttempts this * 1000).

Definition disconnect : M unit :=
  this ← get_this;
  if decide (connectionState this = NOT_CONNECTED) then mret tt else
  match connector this with
  | Some _ => emit ConnectorStop
  | None => mret tt
  end;;
  update (set_connector None);;
  cancelAllSchedules;;
  update (set_connectionDetails DEFAULT_CONNECTION_DETAILS);;
  update (set_lastReceivedMillis 0);;
  update (set_lastSentMillis 0);;
  update (set_isFirstAuthState true);;
  update (set_reconnectAttempts 0);;
  setConnectionState NOT_CONNECTED;;
  setAuthState UNAUTHORIZED.

(** [connect] is an async function: it returns a promise, and an exception
    of its body rejects that promise. *)
Definition new_promise : M nat := λ w,
  (Ok (promises w), set_promises (S (promises w)) w).

Definition connect (url : string) : M nat :=
  p ← new_promise;
  try_catch
    (this ← get_this;
     if decide (getUrl <$> connector this = Some url) then emit (PromiseResolved p)
     else
       disconnect;;
       setConnectionState CONNECTING;;
       emit (ConnectorCreated url);;
       update (set_connector (Some {| getUrl := url |}));;
       emit ConnectorStart;;
       addConnectionStateChangeListener (ConnectListener p))
    (λ e, emit (PromiseRejected p e));;
  mret p.

Definition setAuthToken (token : string) : M unit :=
  update (set_lastSettedAuthToken (Some token));;
  this ← get_this;
  if decide (connectionState this = CONNECTED) then sendAuthMessage token
  else mret tt.

Definition requestChannel (channel : Z) : M unit :=
  self ← get_channel channel;
  sendMessage [("type", VStr "CHANNEL_REQUEST");
               ("channel", VNum (ChannelObject.id self));
               ("service", VStr (ChannelObject.service self));
               ("parameters", VObj (ChannelObject.parameters self))];;
  Channel.processStatusRequested channel.

Definition openChannel (service : string) (parameters : JsObject) : M Z :=
  this ← get_this;
  let channelId := globalChannelId this in
  update (set_globalChannelId (channelId + 2));;
  (* new Channel(channelId, service, parameters, this.sendMessage) *)
  allocate channelId (ChannelObject.new channelId service parameters);;
  (* this.channels.set(channelId, channel) *)
  update (λ this,
    set_channels (if bool_decide (channelId ∈ channels this) then channels this
                  else channels this ++ [channelId]) this);;
  this ← get_this;
  (if decide (connectionState this = CONNECTED ∧ authState this = AUTHORIZED)
   then requestChannel channelId else mret tt);;
  mret channelId.

Definition processSetupMessage (version : string) (keepaliveTimeout' : option Z)
  : M unit :=
  (* Clear setup timeout check from connect method *)
  cancelSchedule "SETUP_TIMEOUT";;
  this ← get_this;
  (* Mark connection as connected after first setup message and subsequent ones *)
  (if decide (connectionState this = CONNECTING ∨ connectionState this = CONNECTED)
   then
     update (λ this,
       set_connectionDetails
         {| protocolVersion := protocolVersion (connectionDetails this);
            clientVersion := clientVersion (connectionDetails this);
            serverVersion := Some version;
            clientKeepaliveTimeout := Some (keepaliveTimeout (config this));
            serverKeepaliveTimeout := keepaliveTimeout' |} this);;
     (* Reset reconnect attempts counter after successful connection *)
     update (set_reconnectAttempts 0);;
     this ← get_this;
     if decide (lastSettedAuthToken this = None)
     then setConnectionState CONNECTED else mret tt
   else mret tt);;
  (* Connection maintance: Setup keepalive timeout check *)
  let timeoutMills := default 60 keepaliveTimeout' * 1000 in
  schedule "TIMEOUT" (OnTimeoutCheck timeoutMills) timeoutMills.

Definition requestActiveChannels : M unit :=
  this ← get_this;
  for_of (channels this) (λ ref,
    channel ← get_channel ref;
    if decide (ChannelObject.status channel = CLOSED) then
      (* this.channels.delete(channel.id) *)
      update (λ this,
        set_channels
          (filter (λ k, k ≠ ChannelObject.id channel) (channels this)) this)
    else requestChannel ref).

Definition processAuthStateMessage (state : DXLinkAuthState) : M unit :=
  (* Clear auth state timeout check *)
  cancelSchedule "AUTH_STATE_TIMEOUT";;
  this ← get_this;
  (* Ignore first auth state message because it is sent during connection setup *)
  (if isFirstAuthState this then update (set_isFirstAuthState false)
   else
     (* Reset auth token if server rejected it *)
     if decide (state = UNAUTHORIZED) then update (set_lastSettedAuthToken None)
     else mret tt);;
  (* Request active channels if connection is authorized *)
  (if decide (state = AUTHORIZED) then
     setConnectionState CONNECTED;;
     requestActiveChannels
   else mret tt);;
  setAuthState state.

Definition timeout_error_message (what : string) (this : DXLinkWebSocket) : string :=
  "No " ++ what ++ " message received for " ++ pretty (actionTimeout (config this))
  ++ "s".

Definition error_message (error message : string) : WireMessage :=
  [("type", VStr "ERROR"); ("channel", VNum 0); ("error", VStr error);
   ("message", VStr message)].

Definition keepalive_message : WireMessage :=
  [("type", VStr "KEEPALIVE"); ("channel", VNum 0)].

Definition processTransportOpen : M unit :=
  this ← get_this;
  let setupMessage : WireMessage :=
    [("type", VStr "SETUP"); ("channel", VNum 0);
     ("version", VStr (protocolVersion (connectionDetails this) ++ "-"
                       ++ clientVersion (connectionDetails this)));
     ("keepaliveTimeout", VNum (keepaliveTimeout (config this)));
     ("acceptKeepaliveTimeout", VNum (acceptKeepaliveTimeout (config this)))] in
  (* Setup timeout check *)
  schedule "SETUP_TIMEOUT" OnSetupTimeout (actionTimeout (config this) * 1000);;
  sendMessage setupMessage;;
  schedule "AUTH_STATE_TIMEOUT" OnAuthStateTimeout
    (actionTimeout (config this) * 1000);;
  this ← get_this;
  match lastSettedAuthToken this with
  | Some token => sendAuthMessage token
  | None => mret tt
  end.

Definition processTransportClose : M unit :=
  this ← get_this;
  if decide (authState this = UNAUTHORIZED) then
    update (set_lastSettedAuthToken None);;
    disconnect
  else reconnect.

Definition timeoutCheck (timeoutMills : Z) : M unit :=
  now ← Date_now;
  this ← get_this;
  let noKeepaliveDuration := now - lastReceivedMillis this in
  if noKeepaliveDuration >=? timeoutMills then
    sendMessage
      (error_message "TIMEOUT"
         ("No keepalive received for " ++ pretty noKeepaliveDuration ++ "ms"));;
    reconnect
  else
    let nextTimeout := Z.max 200 (timeoutMills - noKeepaliveDuration) in
    schedule "TIMEOUT" (OnTimeoutCheck timeoutMills) nextTimeout.

Definition processMessage (message : Message) : M unit :=
  now ← Date_now;
  update (set_lastReceivedMillis now);;
  this ← get_this;
  (* Send keepalive message if no messages sent for a while (keepaliveInterval) *)
  (if lastReceivedMillis this - lastSentMillis this
      >=? keepaliveInterval (config this) * 1000
   then sendMessage keepalive_message else mret tt);;
  if isConnectionMessage message then
    match message with
    | SETUP _ version keepaliveTimeout' _ =>
        processSetupMessage version keepaliveTimeout'
    | AUTH_STATE _ state => processAuthStateMessage state
    | ERROR _ error message' =>
        publishError {| err_type := error; err_message := message' |}
    | KEEPALIVE _ =>
        (* Ignore keepalive messages coz they are used only to maintain connection *)
        mret tt
    | _ => emit (LoggerWarn "Unhandeled message: " (message_type message))
    end
  else if isChannelMessage message then
    this ← get_this;
    if bool_decide (message_channel message ∈ channels this) then
      let channel := message_channel message in
      if isChannelLifecycleMessage message then
        match message with
        | CHANNEL_OPENED _ _ _ => Channel.processStatusOpened channel
        | CHANNEL_CLOSED _ => Channel.processStatusClosed channel
        | ERROR _ error message' =>
            Channel.processError channel
              {| err_type := error; err_message := message' |}
        | _ => mret tt
        end
      else Channel.processPayloadMessage channel message
    else
      emit (LoggerWarn "Received lifecycle message for unknown channel"
              (message_type message))
  else emit (LoggerWarn "Unhandeled message: " (message_type message)).

(** The bodies of the timer closures. *)
Definition timeout_callback (what : string) : M unit :=
  this ← get_this;
  let message := timeout_error_message what this in
  sendMessage (error_message "TIMEOUT" message);;
  publishError {| err_type := "TIMEOUT"; err_message := message ++ " from server" |};;
  disconnect.

Definition run_callback (cb : TimerCallback) : M unit :=
  match cb with
  | OnSetupTimeout => timeout_callback "setup"
  | OnAuthStateTimeout => timeout_callback "auth state"
  | OnTimeoutCheck timeoutMills => timeoutCheck timeoutMills
  | OnKeepalive => sendMessage keepalive_message;; scheduleKeepalive
  | OnReconnect =>
      this ← get_this;
      match connector this with
      | None => mret tt
      | Some _ => (* Start new connection attempt *) emit ConnectorStart
      end
  end.

(* ===================================================================== *)
(** ** Runs of the engine                                                  *)
(* ===================================================================== *)

(** What can happen to an engine: a call of the public surface (of the
    engine or of a channel handle), a callback of the connector, or a timer
    of the registry firing. *)
Inductive Event :=
| Connect (url : string)
| Reconnect
| Disconnect
| SetAuthToken (token : string)
| OpenChannel (service : string) (parameters : JsObject)
| AddConnectionStateChangeListener (l : DXLinkConnectionStateChangeListener)
| RemoveConnectionStateChangeListener (l : DXLinkConnectionStateChangeListener)
| AddAuthStateChangeListener (l : DXLinkAuthStateChangeListener)
| RemoveAuthStateChangeListener (l : DXLinkAuthStateChangeListener)
| AddErrorListener (l : DXLinkErrorListener)
| RemoveErrorListener (l : DXLinkErrorListener)
| ChannelSend (channel : Z) (message : JsObject)
| ChannelError (channel : Z) (e : DXLinkError)
| ChannelClose (channel : Z)
| ChannelAddMessageListener (channel : Z) (l : DXLinkChannelMessageListener)
| ChannelRemoveMessageListener (channel : Z) (l : DXLinkChannelMessageListener)
| ChannelAddStatusListener (channel : Z) (l : DXLinkChannelStatusListener)
| ChannelRemoveStatusListener (channel : Z) (l : DXLinkChannelStatusListener)
| ChannelAddErrorListener (channel : Z) (l : DXLinkErrorListener)
| ChannelRemoveErrorListener (channel : Z) (l : DXLinkErrorListener)
| TransportOpen
| TransportMessage (message : Message)
| TransportClose
| TimerFired (key : string).

(** The host runs the callback of a pending timer, once. *)
Definition fire (key : string) : M unit :=
  this ← get_this;
  match timeoutIds this !! key with
  | Some t =>
      if pending t then
        update (λ this,
          set_timeoutIds
            (<[key := {| callback := callback t; delay := delay t;
                         pending := false |}]> (timeoutIds this)) this);;
        run_callback (callback t)
      else mret tt
  | None => mret tt
  end.

Definition handle (ev : Event) : M unit :=
  match ev with
  | Connect url => connect url;; mret tt
  | Reconnect => reconnect
  | Disconnect => disconnect
  | SetAuthToken token => setAuthToken token
  | OpenChannel service parameters => openChannel service parameters;; mret tt
  | AddConnectionStateChangeListener l => addConnectionStateChangeListener l
  | RemoveConnectionStateChangeListener l => removeConnectionStateChangeListener l
  | AddAuthStateChangeListener l => addAuthStateChangeListener l
  | RemoveAuthStateChangeListener l => removeAuthStateChangeListener l
  | AddErrorListener l => addErrorListener l
  | RemoveErrorListener l => removeErrorListener l
  | ChannelSend c message => Channel.send sendMessage c message
  | ChannelError c e => Channel.error sendMessage c e
  | ChannelClose c => Channel.close sendMessage c
  | ChannelAddMessageListener c l => Channel.addMessageListener c l
  | ChannelRemoveMessageListener c l => Channel.removeMessageListener c l
  | ChannelAddStatusListener c l => Channel.addStatusListener c l
  | ChannelRemoveStatusListener c l => Channel.removeStatusListener c l
  | ChannelAddErrorListener c l => Channel.addErrorListener c l
  | ChannelRemoveErrorListener c l => Channel.removeErrorListener c l
  | TransportOpen => processTransportOpen
  | TransportMessage message => processMessage message
  | TransportClose => processTransportClose
  | TimerFired key => fire key
  end.

(** One event, happening at time [now].  An exception that leaves the engine
    goes to the caller or to the host; the world keeps what was done. *)
Definition step (w : World) (ev : Z * Event) : World :=
  snd (handle (snd ev) (set_clock (fst ev) w)).

Definition run (w : World) (evs : list (Z * Event)) : World :=
  fold_left step evs w.

(** [new DXLinkWebSocket(config)] in an empty world. *)
Definition new_DXLinkWebSocket (config : DXLinkWebSocketConfig) : DXLinkWebSocket :=
  {| config := config; connector := None; connectionState := NOT_CONNECTED;
     connectionDetails := DEFAULT_CONNECTION_DETAILS; authState := UNAUTHORIZED;
     connectionStateChangeListeners := []; errorListeners := [];
     authStateChangeListeners := []; timeoutIds := ∅; isFirstAuthState := true;
     lastSettedAuthToken := None; lastReceivedMillis := 0; lastSentMillis := 0;
     reconnectAttempts := 0; globalChannelId := 1; channels := [] |}.

Definition initial (config : DXLinkWebSocketConfig) : World :=
  {| ws := new_DXLinkWebSocket config; heap := ∅; clock := 0; trace := [];
     promises := 0%nat |}.

(* ===================================================================== *)
(** ** class AuthManager of the version-2 client (v2/auth.ts)              *)
(* ===================================================================== *)

Module V2.

(** A promise settles once: [resolve] and [reject] act on a pending promise
and do nothing on a settled one.  [reject()] carries no reason. *)
Inductive PromiseState := Pending | Fulfilled | Rejected (reason : option string).

(** The members of [handlers]: the closures made by [auth] and [whenReady],
each around the [resolve] and [reject] of its promise, and the functions
given to [addHandler]. *)
Inductive AuthStateHandler :=
| AuthHandler (p : nat)
| ReadyHandler (p : nat)
| ExternalHandler (h : Listener DXLinkAuthState).

Definition same_handler (a b : AuthStateHandler) : bool :=
match a, b with
| AuthHandler p, AuthHandler q | ReadyHandler p, ReadyHandler q => Nat.eqb p q
| ExternalHandler x, ExternalHandler y => same_listener x y
| _, _ => false
end.

Record AuthManager := {
handlers : list AuthStateHandler;
timeoutId : option nat;
currentState : option DXLinkAuthState
}.

Inductive Effect :=
| ConnectionSend (m : WireMessage)
| ResolveCalled (p : nat)
| RejectCalled (p : nat) (reason : option string)
| HandlerCalled (h : nat) (state : DXLinkAuthState).

(** [timers] are the host's pending [setTimeout]s of [whenReady], each with
the promise its callback rejects. *)
Record World := {
manager : AuthManager;
promises : list PromiseState;
timers : gmap nat nat;
next_timer : nat;
log : list Effect
}.

Definition set_manager (v : AuthManager) (w : World) : World :=
{| manager := v; promises := promises w; timers := timers w;
 next_timer := next_timer w; log := log w |}.
Definition set_promises (v : list PromiseState) (w : World) : World :=
{| manager := manager w; promises := v; timers := timers w;
 next_timer := next_timer w; log := log w |}.
Definition set_timers (v : gmap nat nat) (w : World) : World :=
{| manager := manager w; promises := promises w; timers := v;
 next_timer := next_timer w; log := log w |}.
Definition set_next_timer (v : nat) (w : World) : World :=
{| manager := manager w; promises := promises w; timers := timers w;
 next_timer := v; log := log w |}.
Definition set_log (v : list Effect) (w : World) : World :=
{| manager := manager w; promises := promises w; timers := timers w;
 next_timer := next_timer w; log := v |}.

Definition set_handlers (v : list AuthStateHandler) (this : AuthManager) :=
{| handlers := v; timeoutId := timeoutId this; currentState := currentState this |}.
Definition set_timeoutId (v : option nat) (this : AuthManager) :=
{| handlers := handlers this; timeoutId := v; currentState := currentState this |}.
Definition set_currentState (v : option DXLinkAuthState) (this : AuthManager) :=
{| handlers := handlers this; timeoutId := timeoutId this; currentState := v |}.

Abbreviation M := (SE World).

Definition get_this : M AuthManager := λ w, (Ok (manager w), w).
Definition update (f : AuthManager → AuthManager) : M unit :=
λ w, (Ok tt, set_manager (f (manager w)) w).
Definition emit (e : Effect) : M unit := λ w, (Ok tt, set_log (log w ++ [e]) w).

(** [new Promise(...)]: a fresh pending promise. *)
Definition new_promise : M nat := λ w,
(Ok (length (promises w)), set_promises (promises w ++ [Pending]) w).

Definition settle (p : nat) (outcome : PromiseState) : M unit := λ w,
match promises w !! p with
| Some Pending => (Ok tt, set_promises (<[p := outcome]> (promises w)) w)
| _ => (Ok tt, w)
end.

Definition resolve (p : nat) : M unit :=
emit (ResolveCalled p);; settle p Fulfilled.
Definition reject (p : nat) (reason : option string) : M unit :=
emit (RejectCalled p reason);; settle p (Rejected reason).

Definition setTimeout (p : nat) : M nat := λ w,
(Ok (next_timer w),
 set_next_timer (S (next_timer w)) (set_timers (<[next_timer w := p]> (timers w)) w)).
Definition clearTimeout (t : nat) : M unit := λ w,
(Ok tt, set_timers (delete t (timers w)) w).

Definition clear_timeoutId : M unit :=
this ← get_this;
match timeoutId this with
| Some t => clearTimeout t;; update (set_timeoutId None)
| None => mret tt
end.

Definition removeHandler (handler : AuthStateHandler) : M unit :=
update (λ this, set_handlers (set_delete same_handler handler (handlers this)) this).
Definition addHandler (handler : AuthStateHandler) : M unit :=
update (λ this, set_handlers (set_add same_handler handler (handlers this)) this).

(** Calling a member of [handlers] with the state. *)
Definition call_handler (handler : AuthStateHandler) (state : DXLinkAuthState)
: M unit :=
match handler with
| AuthHandler p =>
  resolve p;;
  this ← get_this;
  match currentState this with
  | Some _ => if decide (state = AUTHORIZED) then resolve p else reject p None
  | None => mret tt
  end;;
  removeHandler handler
| ReadyHandler p =>
  resolve p;;
  removeHandler handler;;
  clear_timeoutId
| ExternalHandler h =>
  emit (HandlerCalled (lid h) state);;
  match lcall h state with
  | None => mret tt
  | Some exn => throw exn
  end
end.

Definition handleAuthState (state : DXLinkAuthState) : M unit :=
this ← get_this;
for_of (handlers this) (λ handler, call_handler handler state);;
update (set_currentState (Some state)).

Definition handleClose : M unit :=
update (set_handlers []);;
clear_timeoutId.

Definition whenReady : M nat :=
p ← new_promise;
addHandler (ReadyHandler p);;
t ← setTimeout p;
update (set_timeoutId (Some t));;
mret p.

(** The callback of the timer of [whenReady]. *)
Definition ready_timeout (t : nat) : M unit := λ w,
match timers w !! t with
| Some p =>
  (clearTimeout t;;
   clear_timeoutId;;
   reject p (Some "Error: Timeout waiting for server auth state message")) w
| None => (Ok tt, w)
end.

Definition auth (token : string) : M nat :=
emit (ConnectionSend
      [("type", VStr "AUTH"); ("channel", VNum 0); ("token", VStr token)]);;
p ← new_promise;
addHandler (AuthHandler p);;
mret p.

Definition new_AuthManager : World :=
{| manager := {| handlers := []; timeoutId := None; currentState := None |};
 promises := []; timers := ∅; next_timer := 0%nat; log := [] |}.

End V2.

(* ===================================================================== *)
(** ** Vocabulary of the properties                                        *)
(* ===================================================================== *)

(** ** Properties of the engine object kept by a method body

    [preserves P m]: if [P] holds of the engine object before [m], it holds
    after it, whether [m] returns or throws. *)

Definition preserves {A} (P : DXLinkWebSocket → Prop) (m : M A) : Prop :=
  ∀ w, P (ws w) → P (ws (snd (m w))).

(** [Frame P]: [P] looks at none of the fields that the helpers of the
    engine assign (timers, time stamps, listener sets, details, auth state,
    channel table). *)
Class Frame (P : DXLinkWebSocket → Prop) : Prop := {
  frame_timeoutIds v this : P this → P (set_timeoutIds v this);
  frame_lastSentMillis v this : P this → P (set_lastSentMillis v this);
  frame_lastReceivedMillis v this : P this → P (set_lastReceivedMillis v this);
  frame_connectionDetails v this : P this → P (set_connectionDetails v this);
  frame_authState v this : P this → P (set_authState v this);
  frame_connectionStateChangeListeners v this :
    P this → P (set_connectionStateChangeListeners v this);
  frame_authStateChangeListeners v this :
    P this → P (set_authStateChangeListeners v this);
  frame_errorListeners v this : P this → P (set_errorListeners v this);
  frame_globalChannelId v this : P this → P (set_globalChannelId v this);
  frame_channels v this : P this → P (set_channels v this)
}.


(** What a fan-out with one [try]/[catch] per listener leaves in the trace:
    each listener is called, and the exception of one that throws is
    logged. *)
Definition isolated_calls {A} (args : A) (called : nat → Effect)
    (logged : Exn → Effect) (ls : list (Listener A)) : list Effect :=
  flat_map (λ l, called (lid l) ::
                 match lcall l args with Some e => [logged e] | None => [] end) ls.

(** The timer that [schedule] registers. *)
Definition scheduled (cb : TimerCallback) (timeout : Z) : Timer :=
  {| callback := cb; delay := timeout; pending := true |}.

(** The messages handed to the connector, in order. *)
Definition sent (tr : list Effect) : list WireMessage :=
  omap (λ e, match e with ConnectorSend m => Some m | _ => None end) tr.

(* ===================================================================== *)
(** ** Sample listeners and sample runs                                    *)
(* ===================================================================== *)

(** A listener that returns, and one that throws. *)
Definition quiet {A} (n : nat) : Listener A := {| lid := n; lcall := λ _, None |}.
Definition thrower {A} (n : nat) (e : Exn) : Listener A :=
  {| lid := n; lcall := λ _, Some e |}.

(** Scenario 3 of the specification, up to the opened channel: no token,
    the server answers SETUP and AUTH_STATE AUTHORIZED, channel 1 is requested
    and opened. *)
Definition sample_session : list (Z * Event) :=
  [(0, Connect "wss://x");
   (10, TransportOpen);
   (20, TransportMessage (SETUP 0 "1.0" (Some 60) None));
   (21, TransportMessage (AUTH_STATE 0 AUTHORIZED));
   (30, OpenChannel "FEED" [("contract", VStr "AUTO")]);
   (40, TransportMessage (CHANNEL_OPENED 1 "FEED" [("contract", VStr "AUTO")]))].

Definition sample_world : World := run (initial default_config) sample_session.

Definition sample_channel (s : DXLinkChannelStatus) : ChannelObject.t :=
  ChannelObject.set_status s
    (ChannelObject.new 1 "FEED" [("contract", VStr "AUTO")]).

(** Channel 1 with two message listeners, the first of which throws. *)
Definition payload_listeners_world : World :=
  run sample_world
    [(41, ChannelAddMessageListener 1 (thrower 1 "boom"));
     (42, ChannelAddMessageListener 1 (quiet 2))].

(** An engine with two connection-state listeners, the first of which
    throws, waiting for the server's SETUP. *)
Definition connection_listeners_world : World :=
  run (initial default_config)
    [(0, Connect "wss://x");
     (1, AddConnectionStateChangeListener (UserListener (thrower 1 "boom")));
     (2, AddConnectionStateChangeListener (UserListener (quiet 2)));
     (10, TransportOpen)].

(** An engine that has sent its SETUP and waits for the server's, with no
    listener registered but the one of [connect]. *)
Definition awaiting_setup_world : World :=
  run (initial default_config) [(0, Connect "wss://x"); (10, TransportOpen)].

(** [Invariant P]: [P] also survives what [connect], [reconnect],
    [disconnect], [setAuthToken] and the handling of a server SETUP assign to
    the remaining fields. *)
Class Invariant (P : DXLinkWebSocket → Prop) : Prop := {
  inv_frame :: Frame P;
  inv_connector v this : P this → P (set_connector v this);
  inv_token v this : P this → P (set_lastSettedAuthToken v this);
  inv_connecting this : P this → P (set_connectionState CONNECTING this);
  inv_reconnect this :
    connectionState this ≠ NOT_CONNECTED → P this →
    P (set_reconnectAttempts (reconnectAttempts this + 1)
         (set_isFirstAuthState true this));
  inv_disconnect this :
    P this →
    P (set_connectionState NOT_CONNECTED
         (set_reconnectAttempts 0 (set_isFirstAuthState true this)));
  inv_setup this : P this → P (set_reconnectAttempts 0 this)
}.

(** The engine expects the first AUTH_STATE of a session. *)
Definition awaits_first_auth_state (this : DXLinkWebSocket) : Prop :=
  isFirstAuthState this = true.

(** The connection state is not CONNECTED. *)
Definition not_yet_connected (this : DXLinkWebSocket) : Prop :=
  connectionState this ≠ CONNECTED.

(** A disconnected engine has no reconnect attempt on its counter. *)
Definition attempts_cleared_when_disconnected (this : DXLinkWebSocket) : Prop :=
  connectionState this = NOT_CONNECTED → reconnectAttempts this = 0.

(** The values of the remembered token and of the first-auth-state flag, and
    of the reconnect counter. *)
Definition token_flag_is (t : option string) (b : bool)
    (this : DXLinkWebSocket) : Prop :=
  lastSettedAuthToken this = t ∧ isFirstAuthState this = b.

Definition attempts_is (n : Z) (this : DXLinkWebSocket) : Prop :=
  reconnectAttempts this = n.

Definition connection_state_is (s : DXLinkConnectionState)
    (this : DXLinkWebSocket) : Prop :=
  connectionState this = s.

(** The world after the bookkeeping that [processMessage] does for every
    message before it looks at it: the time of receipt, and a KEEPALIVE of
    the engine's own when none of its messages went out for
    [keepaliveInterval]. *)
Definition received (w : World) : World :=
  let w0 := set_ws (set_lastReceivedMillis (clock w) (ws w)) w in
  if clock w - lastSentMillis (ws w) >=? keepaliveInterval (config (ws w)) * 1000
  then snd (sendMessage keepalive_message w0)
  else w0.

(** A server SETUP among the events. *)
Definition is_server_setup (ev : Z * Event) : bool :=
  match snd ev with
  | TransportMessage (SETUP _ _ _ _) => true
  | _ => false
  end.


(** The CHANNEL_REQUEST that [requestChannel] builds for a channel. *)
Definition channel_request (c : ChannelObject.t) : WireMessage :=
  [("type", VStr "CHANNEL_REQUEST");
   ("channel", VNum (ChannelObject.id c));
   ("service", VStr (ChannelObject.service c));
   ("parameters", VObj (ChannelObject.parameters c))].


(** The table maps each of its keys once, to the object of that id. *)
Definition table_ok (w : World) : Prop :=
  NoDup (channels (ws w))
  ∧ ∀ k, k ∈ channels (ws w) →
         ∃ c, heap w !! k = Some c ∧ ChannelObject.id c = k.


(** A channel object after its end: status CLOSED and the three listener
    sets empty. *)
Definition closed_and_cleared (c : ChannelObject.t) : ChannelObject.t :=
  {| ChannelObject.id := ChannelObject.id c;
     ChannelObject.service := ChannelObject.service c;
     ChannelObject.parameters := ChannelObject.parameters c;
     ChannelObject.status := CLOSED;
     ChannelObject.messageListeners := [];
     ChannelObject.statusListeners := [];
     ChannelObject.errorListeners := [] |}.

(** The CHANNEL_CANCEL that [close] sends for a channel. *)
Definition channel_cancel (c : ChannelObject.t) : WireMessage :=
  [("type", VStr "CHANNEL_CANCEL"); ("channel", VNum (ChannelObject.id c))].

(** The SETUP that [processTransportOpen] builds and the AUTH that
    [sendAuthMessage] builds. *)
Definition setup_message (this : DXLinkWebSocket) : WireMessage :=
  [("type", VStr "SETUP"); ("channel", VNum 0);
   ("version", VStr (protocolVersion (connectionDetails this) ++ "-"
                     ++ clientVersion (connectionDetails this)));
   ("keepaliveTimeout", VNum (keepaliveTimeout (config this)));
   ("acceptKeepaliveTimeout", VNum (acceptKeepaliveTimeout (config this)))].

Definition auth_message (token : string) : WireMessage :=
  [("type", VStr "AUTH"); ("channel", VNum 0); ("token", VStr token)].

(** What the connector is handed, when there is one. *)
Definition to_connector (this : DXLinkWebSocket) (ms : list WireMessage)
  : list WireMessage :=
  match connector this with Some _ => ms | None => [] end.

(** What one connection-state listener does when it is told the change to
    [s] from [prev] and returns: a listener of the caller is called, the
    listener of [connect] settles its promise. *)
Definition listener_effects (s prev : DXLinkConnectionState)
    (listener : DXLinkConnectionStateChangeListener) : list Effect :=
  match listener with
  | UserListener l => [ConnectionListenerCalled (lid l) s prev]
  | ConnectListener p =>
      match s with
      | CONNECTED => [PromiseResolved p]
      | NOT_CONNECTED => [PromiseRejected p "Error: Connection failed"]
      | CONNECTING => []
      end
  end.

Definition is_user_listener (listener : DXLinkConnectionStateChangeListener)
  : bool :=
  match listener with UserListener _ => true | ConnectListener _ => false end.

(** ** Vocabulary for the version-2 AuthManager *)

Module V2_props.
Import V2.

(** The promise [p] is still pending and the manager's last known state is
[cs]. *)
Definition awaits_auth_state (p : nat) (cs : option DXLinkAuthState)
  (v : World) : Prop :=
promises v !! p = Some Pending ∧ currentState (manager v) = cs.

(** The closures among [hs] were made for promises created before the
[n]-th: each call of [auth] and [whenReady] makes its closure for the
promise it has just created. *)
Definition registered_before (n : nat) (hs : list AuthStateHandler) : Prop :=
∀ h, h ∈ hs →
     match h with
     | AuthHandler q | ReadyHandler q => (q < n)%nat
     | ExternalHandler _ => True
     end.

Definition well_registered (v : World) : Prop :=
registered_before (length (promises v)) (handlers (manager v)).

(** [keeps I m]: what holds of the world before [m] holds after it, whether
[m] returns or throws. *)
Definition keeps {A} (I : World → Prop) (m : M A) : Prop :=
∀ v, I v → I (snd (m v)).

(** [returns m]: [m] does not throw. *)
Definition returns {A} (m : M A) : Prop := ∀ v, ∃ a, fst (m v) = Ok a.

End V2_props.

(** An AUTH_STATE AUTHORIZED among the events. *)
Definition is_server_authorized (ev : Z * Event) : bool :=
  match snd ev with
  | TransportMessage (AUTH_STATE _ AUTHORIZED) => true
  | _ => false
  end.

(** A session in which the server turns the token down twice and closes
    the transport, after which the caller connects again. *)
Definition rejected_token_session : list (Z * Event) :=
  [(0, SetAuthToken "T");
   (1, Connect "wss://x");
   (10, TransportOpen);
   (20, TransportMessage (SETUP 0 "1.0" (Some 60) None));
   (21, TransportMessage (AUTH_STATE 0 UNAUTHORIZED));
   (22, TransportMessage (AUTH_STATE 0 UNAUTHORIZED));
   (30, TransportClose);
   (40, Connect "wss://x");
   (50, TransportOpen);
   (60, TransportMessage (SETUP 0 "1.0" (Some 60) None))].

(** The engine of [sample_world], connected and authorized, with a
    connection-state listener that throws. *)
Definition throwing_listener_world : World :=
  run sample_world
    [(50, AddConnectionStateChangeListener (UserListener (thrower 1 "boom")))].

(** ** The channel table in every run *)

(** The keys of the table are distinct and each has its object; every
    object is stored under its own id. *)
Definition table_inv (w : World) : Prop :=
  NoDup (channels (ws w))
  ∧ (∀ k, k ∈ channels (ws w) → is_Some (heap w !! k))
  ∧ (∀ k c, heap w !! k = Some c → ChannelObject.id c = k).

(** [maintains I m]: what holds of the world before [m] holds after it,
    whether [m] returns or throws. *)
Definition maintains {A} (I : World → Prop) (m : M A) : Prop :=
  ∀ w, I w → I (snd (m w)).
(* ===================================================================== *)
(** * Properties                                                           *)
(* ===================================================================== *)

(** From here on [++] is the append of lists. *)
Local Open Scope list_scope.

(** The methods are unfolded by name, one at a time. *)
#[global] Arguments cancelSchedule : simpl never.
#[global] Arguments schedule : simpl never.
#[global] Arguments scheduleKeepalive : simpl never.
#[global] Arguments sendMessage : simpl never.
#[global] Arguments setConnectionState : simpl never.
#[global] Arguments setAuthState : simpl never.
#[global] Arguments sendAuthMessage : simpl never.
#[global] Arguments publishError : simpl never.
#[global] Arguments cancelAllSchedules : simpl never.
#[global] Arguments reconnect : simpl never.
#[global] Arguments disconnect : simpl never.
#[global] Arguments connect : simpl never.
#[global] Arguments setAuthToken : simpl never.
#[global] Arguments requestChannel : simpl never.
#[global] Arguments openChannel : simpl never.
#[global] Arguments processSetupMessage : simpl never.
#[global] Arguments requestActiveChannels : simpl never.
#[global] Arguments processAuthStateMessage : simpl never.
#[global] Arguments processTransportOpen : simpl never.
#[global] Arguments processTransportClose : simpl never.
#[global] Arguments timeoutCheck : simpl never.
#[global] Arguments processMessage : simpl never.
#[global] Arguments timeout_callback : simpl never.
#[global] Arguments run_callback : simpl never.
#[global] Arguments fire : simpl never.
#[global] Arguments call_connection_listener : simpl never.
#[global] Arguments Channel.clear : simpl never.
#[global] Arguments Channel.setStatus : simpl never.
#[global] Arguments Channel.send : simpl never.
#[global] Arguments Channel.close : simpl never.
#[global] Arguments Channel.error : simpl never.
#[global] Arguments Channel.processPayloadMessage : simpl never.
#[global] Arguments Channel.processStatusOpened : simpl never.
#[global] Arguments Channel.processStatusRequested : simpl never.
#[global] Arguments Channel.processStatusClosed : simpl never.
#[global] Arguments Channel.processError : simpl never.

(** ** Running a method body *)

Lemma run_bind {W A B} (m : SE W A) (f : A → SE W B) (w : W) :
  (m ≫= f) w
  = match m w with (Ok a, w') => f a w' | (Throw e, w') => (Throw e, w') end.
Proof. reflexivity. Qed.

Lemma run_bind_ok {W A B} (m : SE W A) (f : A → SE W B) (w w' : W) (a : A) :
  m w = (Ok a, w') → (m ≫= f) w = f a w'.
Proof. intros H. rewrite run_bind, H. reflexivity. Qed.

Lemma run_bind_throw {W A B} (m : SE W A) (f : A → SE W B) (w w' : W) (e : Exn) :
  m w = (Throw e, w') → (m ≫= f) w = (Throw e, w').
Proof. intros H. rewrite run_bind, H. reflexivity. Qed.

(** Running the primitive steps at the head of a method body. *)
Ltac exec :=
  repeat (rewrite run_bind;
          cbn [Date_now update get_this emit mret SE_ret throw new_promise
               allocate update_channel]).

(** ** Preservation: structural rules *)

Section preserves.
Context (P : DXLinkWebSocket → Prop).

Lemma preserves_ret {A} (a : A) : preserves P (mret a).
Proof. intros w H. exact H. Qed.

Lemma preserves_throw {A} (e : Exn) : preserves P (throw e : M A).
Proof. intros w H. exact H. Qed.

Lemma preserves_bind {A B} (m : M A) (f : A → M B) :
preserves P m → (∀ a, preserves P (f a)) → preserves P (m ≫= f).
Proof.
intros Hm Hf w H. rewrite run_bind. specialize (Hm w H).
destruct (m w) as [[a | e] w']; simpl in *; [apply Hf |]; assumption.
Qed.

Lemma preserves_try_catch (body : M unit) (handler : Exn → M unit) :
preserves P body → (∀ e, preserves P (handler e)) →
preserves P (try_catch body handler).
Proof.
intros Hm Hf w H. unfold try_catch. specialize (Hm w H).
destruct (body w) as [[a | e] w']; simpl in *; [| apply Hf]; assumption.
Qed.

Lemma preserves_for_of {A} (xs : list A) (body : A → M unit) :
(∀ x, preserves P (body x)) → preserves P (for_of xs body).
Proof.
intros Hb. induction xs as [| x xs IH]; simpl.
- apply preserves_ret.
- apply preserves_bind; [apply Hb | intros _; exact IH].
Qed.

Lemma preserves_get_this : preserves P get_this.
Proof. intros w H. exact H. Qed.

Lemma preserves_Date_now : preserves P Date_now.
Proof. intros w H. exact H. Qed.

Lemma preserves_emit (e : Effect) : preserves P (emit e).
Proof. intros w H. exact H. Qed.

Lemma preserves_new_promise : preserves P new_promise.
Proof. intros w H. exact H. Qed.

Lemma preserves_get_channel (ref : Z) : preserves P (get_channel ref).
Proof. intros w H. unfold get_channel. destruct (heap w !! ref); exact H. Qed.

Lemma preserves_update_channel (ref : Z) f : preserves P (update_channel ref f).
Proof. intros w H. exact H. Qed.

Lemma preserves_allocate (ref : Z) c : preserves P (allocate ref c).
Proof. intros w H. exact H. Qed.

Lemma preserves_update (f : DXLinkWebSocket → DXLinkWebSocket) :
(∀ this, P this → P (f this)) → preserves P (update f).
Proof. intros Hf w H. apply Hf, H. Qed.

Lemma preserves_call {A} (l : Listener A) (args : A) (e : Effect) :
preserves P (call l args e).
Proof.
unfold call. apply preserves_bind; [apply preserves_emit | intros _].
destruct (lcall l args); [apply preserves_throw | apply preserves_ret].
Qed.
End preserves.

(** The structural steps of a preservation proof; what is left are the
    assignments to fields of the engine object. *)
Ltac preserves_step :=
  first
    [ apply preserves_ret | apply preserves_throw | apply preserves_get_this
    | apply preserves_Date_now | apply preserves_emit
    | apply preserves_new_promise | apply preserves_get_channel
    | apply preserves_update_channel | apply preserves_allocate
    | apply preserves_call
    | apply preserves_bind; [| intros ?]
    | apply preserves_try_catch; [| intros ?]
    | apply preserves_for_of; intros ?
    | match goal with
      | |- preserves _ (if ?c then _ else _) => destruct c
      | |- preserves _ (match ?x with _ => _ end) => destruct x
      end ].

Create HintDb frame discriminated.

Ltac frame_instance := split; intros; simpl; assumption.

(** An assignment to a framed field. *)
Ltac frame_field :=
  intros; cbv beta;
  first
    [ assumption
    | apply frame_timeoutIds | apply frame_lastSentMillis
    | apply frame_lastReceivedMillis | apply frame_connectionDetails
    | apply frame_authState | apply frame_connectionStateChangeListeners
    | apply frame_authStateChangeListeners | apply frame_errorListeners
    | apply frame_globalChannelId | apply frame_channels ];
  assumption.

Ltac preserves_auto :=
  repeat first
    [ preserves_step
    | solve [eauto with frame]
    | apply preserves_update; solve [frame_field | eauto with frame] ].

Section helpers_preserve.
Context (P : DXLinkWebSocket → Prop) `{!Frame P}.

Lemma preserves_cancelSchedule key : preserves P (cancelSchedule key).
Proof. unfold cancelSchedule. preserves_auto. Qed.
Hint Resolve preserves_cancelSchedule : frame.

Lemma preserves_schedule key cb t : preserves P (schedule key cb t).
Proof. unfold schedule. preserves_auto. Qed.
Hint Resolve preserves_schedule : frame.

Lemma preserves_scheduleKeepalive : preserves P scheduleKeepalive.
Proof. unfold scheduleKeepalive. preserves_auto. Qed.
Hint Resolve preserves_scheduleKeepalive : frame.

Lemma preserves_sendMessage m : preserves P (sendMessage m).
Proof. unfold sendMessage. preserves_auto. Qed.
Hint Resolve preserves_sendMessage : frame.

Lemma preserves_cancelAllSchedules : preserves P cancelAllSchedules.
Proof. unfold cancelAllSchedules. preserves_auto. Qed.
Hint Resolve preserves_cancelAllSchedules : frame.

Lemma preserves_listener_sets :
(∀ l, preserves P (addConnectionStateChangeListener l)) ∧
(∀ l, preserves P (removeConnectionStateChangeListener l)) ∧
(∀ l, preserves P (addAuthStateChangeListener l)) ∧
(∀ l, preserves P (removeAuthStateChangeListener l)) ∧
(∀ l, preserves P (addErrorListener l)) ∧
(∀ l, preserves P (removeErrorListener l)).
Proof. repeat split; intros l; apply preserves_update; frame_field. Qed.

Lemma preserves_call_connection_listener l new prev :
preserves P (call_connection_listener l new prev).
Proof.
unfold call_connection_listener. destruct l.
- apply preserves_call.
- apply preserves_bind; [apply preserves_listener_sets | intros _].
  destruct new; preserves_auto.
Qed.
Hint Resolve preserves_call_connection_listener : frame.

(** [setConnectionState] assigns only [connectionState], and only when it
  changes. *)
Lemma preserves_setConnectionState s :
(∀ this, P this → P (set_connectionState s this)) →
preserves P (setConnectionState s).
Proof. intros Hs. unfold setConnectionState. preserves_auto. Qed.

Lemma preserves_setAuthState s : preserves P (setAuthState s).
Proof. unfold setAuthState. preserves_auto. Qed.
Hint Resolve preserves_setAuthState : frame.

Lemma preserves_sendAuthMessage token : preserves P (sendAuthMessage token).
Proof. unfold sendAuthMessage. preserves_auto. Qed.
Hint Resolve preserves_sendAuthMessage : frame.

Lemma preserves_publishError e : preserves P (publishError e).
Proof. unfold publishError. preserves_auto. Qed.
Hint Resolve preserves_publishError : frame.

Lemma preserves_Channel_clear c : preserves P (Channel.clear c).
Proof. unfold Channel.clear. preserves_auto. Qed.
Hint Resolve preserves_Channel_clear : frame.

Lemma preserves_Channel_setStatus c s : preserves P (Channel.setStatus c s).
Proof. unfold Channel.setStatus. preserves_auto. Qed.
Hint Resolve preserves_Channel_setStatus : frame.

Lemma preserves_Channel_send c m : preserves P (Channel.send sendMessage c m).
Proof. unfold Channel.send. preserves_auto. Qed.
Hint Resolve preserves_Channel_send : frame.

Lemma preserves_Channel_close c : preserves P (Channel.close sendMessage c).
Proof. unfold Channel.close. preserves_auto. Qed.

Lemma preserves_Channel_error c e : preserves P (Channel.error sendMessage c e).
Proof. unfold Channel.error. preserves_auto. Qed.

Lemma preserves_Channel_processPayloadMessage c m :
preserves P (Channel.processPayloadMessage c m).
Proof. unfold Channel.processPayloadMessage. preserves_auto. Qed.

Lemma preserves_Channel_processStatus c :
preserves P (Channel.processStatusOpened c) ∧
preserves P (Channel.processStatusRequested c) ∧
preserves P (Channel.processStatusClosed c).
Proof.
unfold Channel.processStatusOpened, Channel.processStatusRequested,
  Channel.processStatusClosed.
repeat split; preserves_auto.
Qed.

Lemma preserves_Channel_processError c e :
preserves P (Channel.processError c e).
Proof. unfold Channel.processError. preserves_auto. Qed.

Lemma preserves_Channel_listener_sets c :
(∀ l, preserves P (Channel.addMessageListener c l)) ∧
(∀ l, preserves P (Channel.removeMessageListener c l)) ∧
(∀ l, preserves P (Channel.addStatusListener c l)) ∧
(∀ l, preserves P (Channel.removeStatusListener c l)) ∧
(∀ l, preserves P (Channel.addErrorListener c l)) ∧
(∀ l, preserves P (Channel.removeErrorListener c l)).
Proof. repeat split; intros l; apply preserves_update_channel. Qed.

Lemma preserves_requestChannel c : preserves P (requestChannel c).
Proof. unfold requestChannel. preserves_auto. Qed.
Hint Resolve preserves_requestChannel : frame.

Lemma preserves_requestActiveChannels : preserves P requestActiveChannels.
Proof. unfold requestActiveChannels. preserves_auto. Qed.

Lemma preserves_openChannel service parameters :
preserves P (openChannel service parameters).
Proof. unfold openChannel. preserves_auto. Qed.

Lemma preserves_processTransportOpen : preserves P processTransportOpen.
Proof. unfold processTransportOpen. preserves_auto. Qed.
End helpers_preserve.

(** ** What the helpers compute *)

Lemma set_ws_id w : set_ws (ws w) w = w.
Proof. destruct w; reflexivity. Qed.

Lemma set_timeoutIds_id this : set_timeoutIds (timeoutIds this) this = this.
Proof. destruct this; reflexivity. Qed.

Lemma cancelSchedule_run key w :
  cancelSchedule key w
  = (Ok tt, set_ws (set_timeoutIds (delete key (timeoutIds (ws w))) (ws w)) w).
Proof.
  unfold cancelSchedule. rewrite run_bind. simpl.
  destruct (decide (timeoutIds (ws w) !! key ≠ None)) as [H | H]; [reflexivity |].
  assert (timeoutIds (ws w) !! key = None) as Hn
    by (destruct (timeoutIds (ws w) !! key); [exfalso; apply H |]; done).
  rewrite (delete_id _ _ Hn), set_timeoutIds_id, set_ws_id. reflexivity.
Qed.

Lemma schedule_run key cb t w :
  schedule key cb t w
  = (Ok tt,
     set_ws (set_timeoutIds (<[key := scheduled cb t]> (timeoutIds (ws w))) (ws w)) w).
Proof.
  unfold schedule. rewrite (run_bind_ok _ _ _ _ _ (cancelSchedule_run key w)).
  unfold update. simpl. rewrite insert_delete_eq. reflexivity.
Qed.

Lemma sendMessage_run m w :
  sendMessage m w
  = (Ok tt,
     set_ws
       (set_lastSentMillis (clock w)
          (set_timeoutIds
             (<["KEEPALIVE" :=
                  scheduled OnKeepalive (keepaliveInterval (config (ws w)) * 1000)]>
                (timeoutIds (ws w))) (ws w)))
       (set_trace
          (trace w ++ match connector (ws w) with
                      | Some _ => [ConnectorSend m]
                      | None => []
                      end) w)).
Proof.
  unfold sendMessage, scheduleKeepalive. rewrite run_bind. simpl.
  destruct (connector (ws w)); rewrite !run_bind; simpl;
    rewrite !run_bind; simpl; rewrite schedule_run; simpl; [reflexivity |].
  rewrite app_nil_r. destruct w; reflexivity.
Qed.

Lemma for_of_isolated {A} (args : A) called logged (ls : list (Listener A)) w :
  for_of ls (λ l, try_catch (call l args (called (lid l)))
                    (λ e, emit (logged e))) w
  = (Ok tt, set_trace (trace w ++ isolated_calls args called logged ls) w).
Proof.
  revert w. induction ls as [| l ls IH]; intros w; simpl.
  - rewrite app_nil_r. destruct w; reflexivity.
  - rewrite run_bind. unfold try_catch at 1. unfold call. rewrite run_bind. simpl.
    destruct (lcall l args) as [e |]; simpl; rewrite IH; simpl;
      rewrite <- ?app_assoc; reflexivity.
Qed.

Lemma setAuthState_run s w :
  setAuthState s w
  = (Ok tt,
     set_trace
       (trace w ++
        isolated_calls (s, authState (ws w))
          (λ l, AuthListenerCalled l s (authState (ws w)))
          (LoggerError "Auth state listener error")
          (authStateChangeListeners (ws w)))
       (set_ws (set_authState s (ws w)) w)).
Proof.
  unfold setAuthState. rewrite run_bind. simpl. rewrite run_bind. simpl.
  rewrite (for_of_isolated (s, authState (ws w))
             (λ l, AuthListenerCalled l s (authState (ws w)))).
  reflexivity.
Qed.

Lemma setConnectionState_same w :
  setConnectionState (connectionState (ws w)) w = (Ok tt, w).
Proof.
  unfold setConnectionState. rewrite run_bind. simpl.
  destruct (decide _); [reflexivity | congruence].
Qed.

Lemma Channel_setStatus_same this c w :
  heap w !! this = Some c →
  Channel.setStatus this (ChannelObject.status c) w = (Ok tt, w).
Proof.
  intros H. unfold Channel.setStatus, get_channel. rewrite run_bind, H.
  destruct (decide _); [reflexivity | congruence].
Qed.

(* ===================================================================== *)
(** ** Auth-state notifications are not suppressed (C10)                   *)
(* ===================================================================== *)

(** C10. [setAuthState] calls every auth-state listener on every call, with
    the new and the previous state, also when the two are equal: the trace
    grows by one call per listener (and one log entry per listener that
    throws).  [setConnectionState] and [Channel.setStatus], called with the
    current value, do nothing at all. *)
Theorem auth_state_change_not_suppressed
    (w : World) (s : DXLinkAuthState) (this : Z) (c : ChannelObject.t)
    (Hc : heap w !! this = Some c) :
  setAuthState s w
  = (Ok tt,
     set_trace
       (trace w ++
        isolated_calls (s, authState (ws w))
          (λ l, AuthListenerCalled l s (authState (ws w)))
          (LoggerError "Auth state listener error")
          (authStateChangeListeners (ws w)))
       (set_ws (set_authState s (ws w)) w))
  ∧ (∀ l, l ∈ authStateChangeListeners (ws w) →
       AuthListenerCalled (lid l) (authState (ws w)) (authState (ws w))
       ∈ drop (length (trace w)) (trace (snd (setAuthState (authState (ws w)) w))))
  ∧ setConnectionState (connectionState (ws w)) w = (Ok tt, w)
  ∧ Channel.setStatus this (ChannelObject.status c) w = (Ok tt, w).
Proof.
  split; [apply setAuthState_run |].
  split; [| split; [apply setConnectionState_same
                   | apply Channel_setStatus_same, Hc]].
  intros l Hl. rewrite setAuthState_run. simpl.
  rewrite drop_app_length. unfold isolated_calls.
  apply list_elem_of_In, in_flat_map. exists l.
  split; [apply list_elem_of_In, Hl | left; reflexivity].
Qed.

Lemma auth_state_change_not_suppressed_witness :
  heap sample_world !! 1 = Some (sample_channel OPENED)
  ∧ Channel.setStatus 1 OPENED sample_world = (Ok tt, sample_world).
Proof.
  split; [vm_compute; reflexivity |].
  apply (auth_state_change_not_suppressed sample_world AUTHORIZED 1
           (sample_channel OPENED)).
  vm_compute; reflexivity.
Defined.

(* ===================================================================== *)
(** ** Channel.send and Channel.close (C3, C6)                             *)
(* ===================================================================== *)

Section channel_send.
Variable send : WireMessage → M unit.

(** [send] on a channel that is not OPENED throws before anything else
  happens: the world is as it was. *)
Lemma Channel_send_not_opened this c message w :
heap w !! this = Some c → ChannelObject.status c ≠ OPENED →
Channel.send send this message w = (Throw "Error: Channel is not ready", w).
Proof.
intros Hc Hs. unfold Channel.send, get_channel. rewrite run_bind, Hc.
destruct (decide _) as [_ | H]; [reflexivity | contradiction].
Qed.

(** On an OPENED channel [send] hands over the object literal
  [{ type, channel: this.id, ...payload }]. *)
Lemma Channel_send_opened this c message w :
heap w !! this = Some c → ChannelObject.status c = OPENED →
Channel.send send this message w
= send (obj_literal
          ([("type", default VUndefined (obj_get "type" message));
            ("channel", VNum (ChannelObject.id c))]
           ++ obj_rest "type" message)) w.
Proof.
intros Hc Hs. unfold Channel.send, get_channel. rewrite run_bind, Hc.
destruct (decide _) as [H | _]; [contradiction | reflexivity].
Qed.

Lemma Channel_close_not_opened this c w :
heap w !! this = Some c → ChannelObject.status c ≠ OPENED →
Channel.close send this w = (Throw "Error: Channel is not ready", w).
Proof.
intros Hc Hs. unfold Channel.close.
rewrite (run_bind_throw _ _ _ _ _ (Channel_send_not_opened _ _ _ _ Hc Hs)).
reflexivity.
Qed.
End channel_send.

(** Reading a property of an object literal. *)
Lemma obj_get_obj_set k k' v o :
  obj_get k (obj_set k' v o)
  = if String.eqb k k' then Some v else obj_get k o.
Proof.
  induction o as [| [k0 v0] o IH]; simpl.
  - destruct (String.eqb k k'); reflexivity.
  - destruct (String.eqb k' k0) eqn:E0; simpl.
    + apply String.eqb_eq in E0. subst k0.
      destruct (String.eqb k k'); reflexivity.
    + destruct (String.eqb k k0) eqn:E1.
      * apply String.eqb_eq in E1. subst k0.
        rewrite String.eqb_sym, E0. reflexivity.
      * exact IH.
Qed.

Lemma obj_get_assign k entries o :
  obj_get k entries = None →
  obj_get k (fold_left (λ o kv, obj_set (fst kv) (snd kv) o) entries o)
  = obj_get k o.
Proof.
  revert o. induction entries as [| [k0 v0] entries IH]; intros o H; simpl in *.
  - reflexivity.
  - destruct (String.eqb k k0) eqn:E; [discriminate |].
    rewrite (IH _ H), obj_get_obj_set, E. reflexivity.
Qed.

Lemma obj_get_obj_rest k k' o :
  obj_get k (obj_rest k' o) = if String.eqb k' k then None else obj_get k o.
Proof.
  unfold obj_rest. induction o as [| [k0 v0] o IH]; simpl.
  - destruct (String.eqb k' k); reflexivity.
  - rewrite filter_cons. simpl.
    destruct (String.eqb k' k0) eqn:E0; simpl.
    + destruct (decide (false = true)); [discriminate |].
      rewrite IH. apply String.eqb_eq in E0. subst k0.
      rewrite (String.eqb_sym k k'). destruct (String.eqb k' k); reflexivity.
    + destruct (decide (true = true)); [| congruence]. simpl.
      rewrite IH. destruct (String.eqb k k0) eqn:E1; [| reflexivity].
      apply String.eqb_eq in E1. subst k0. rewrite E0. reflexivity.
Qed.

(** The message that [send] builds carries the channel's id, provided the
    caller's message has no [channel] property of its own. *)
Lemma Channel_send_literal_channel (id : Z) (message : JsObject) :
  obj_get "channel" message = None →
  obj_get "channel"
    (obj_literal ([("type", default VUndefined (obj_get "type" message));
                   ("channel", VNum id)] ++ obj_rest "type" message))
  = Some (VNum id).
Proof.
  intros H. unfold obj_literal. simpl.
  rewrite obj_get_assign; [reflexivity |].
  rewrite obj_get_obj_rest. simpl. exact H.
Qed.

(** C3 (as amended). A second [close()], on a channel whose status is
    already CLOSED, is not a no-op for the caller: it throws "Channel is not
    ready" from the guard of [send]; nothing is sent and neither the channel
    nor the engine changes, whatever send function the channel was given. *)
Theorem Channel_close_when_closed_throws
    (send : WireMessage → M unit) (this : Z) (c : ChannelObject.t) (w : World)
    (Hc : heap w !! this = Some c) (Hs : ChannelObject.status c = CLOSED) :
  Channel.close send this w = (Throw "Error: Channel is not ready", w).
Proof.
  apply (Channel_close_not_opened send this c w Hc). rewrite Hs. discriminate.
Qed.

Lemma Channel_close_when_closed_throws_witness :
  heap (step sample_world (50, ChannelClose 1)) !! 1 = Some (sample_channel CLOSED)
  ∧ Channel.close sendMessage 1 (step sample_world (50, ChannelClose 1))
    = (Throw "Error: Channel is not ready", step sample_world (50, ChannelClose 1)).
Proof.
  split; [vm_compute; reflexivity |].
  apply (Channel_close_when_closed_throws sendMessage 1 (sample_channel CLOSED));
    vm_compute; reflexivity.
Defined.

(** C3 as stated fails: after a first [close()] the status is CLOSED, and the
    second [close()] throws. *)
Lemma Channel_close_twice_throws :
  (ChannelObject.status <$> heap (step sample_world (50, ChannelClose 1)) !! 1)
  = Some CLOSED
  ∧ fst (Channel.close sendMessage 1
           (set_clock 60 (step sample_world (50, ChannelClose 1))))
    = Throw "Error: Channel is not ready".
Proof. vm_compute. split; reflexivity. Qed.

(** C6 (the code at the failing input). On the OPENED channel 1,
    [send({ type: "X", channel: 7 })] forwards a message whose [channel] is 7,
    not the channel's id: the spread of the payload comes after
    [channel: this.id] in the object literal and overrides it. *)
Theorem Channel_send_channel_overridden :
  (ChannelObject.status <$> heap sample_world !! 1) = Some OPENED
  ∧ Channel.send sendMessage 1 [("type", VStr "X"); ("channel", VNum 7)]
      (set_clock 50 sample_world)
    = sendMessage [("type", VStr "X"); ("channel", VNum 7)]
        (set_clock 50 sample_world)
  ∧ last (sent (trace (step sample_world
                         (50, ChannelSend 1 [("type", VStr "X");
                                             ("channel", VNum 7)]))))
    = Some [("type", VStr "X"); ("channel", VNum 7)].
Proof.
  split; [vm_compute; reflexivity |]. split.
  - rewrite (Channel_send_opened sendMessage 1 (sample_channel OPENED));
      [reflexivity | vm_compute; reflexivity | reflexivity].
  - vm_compute. reflexivity.
Qed.

(* ===================================================================== *)
(** ** Listener fan-out (C4)                                               *)
(* ===================================================================== *)

(** Four of the six fan-outs wrap each call in [try]/[catch]: they return
    normally whatever the listeners do, call every listener, and log what
    was thrown. *)
Lemma publishError_isolated e w :
  errorListeners (ws w) ≠ [] →
  publishError e w
  = (Ok tt,
     set_trace (trace w ++
                isolated_calls e (λ l, ErrorListenerCalled l e)
                  (LoggerError "Error listener error") (errorListeners (ws w))) w).
Proof.
  intros H. unfold publishError. rewrite run_bind. simpl.
  destruct (decide _) as [E | _].
  - destruct (errorListeners (ws w)); [congruence | discriminate].
  - apply (for_of_isolated e (λ l, ErrorListenerCalled l e)).
Qed.

Lemma Channel_processError_isolated this c e w :
  heap w !! this = Some c → ChannelObject.errorListeners c ≠ [] →
  Channel.processError this e w
  = (Ok tt,
     set_trace (trace w ++
                isolated_calls e
                  (λ l, ChannelErrorListenerCalled (ChannelObject.id c) l e)
                  (ConsoleError (Channel.console_error_prefix c "error listener"))
                  (ChannelObject.errorListeners c)) w).
Proof.
  intros Hc H. unfold Channel.processError, get_channel. rewrite run_bind, Hc.
  destruct (decide _) as [E | _].
  - destruct (ChannelObject.errorListeners c); [congruence | discriminate].
  - apply (for_of_isolated e
             (λ l, ChannelErrorListenerCalled (ChannelObject.id c) l e)).
Qed.

Lemma Channel_setStatus_isolated this c s w :
  heap w !! this = Some c → ChannelObject.status c ≠ s →
  Channel.setStatus this s w
  = (Ok tt,
     set_trace (trace w ++
                isolated_calls (s, ChannelObject.status c)
                  (λ l, ChannelStatusListenerCalled (ChannelObject.id c) l s
                          (ChannelObject.status c))
                  (ConsoleError (Channel.console_error_prefix c "status listener"))
                  (ChannelObject.statusListeners c))
       (set_heap (alter (ChannelObject.set_status s) this (heap w)) w)).
Proof.
  intros Hc H. unfold Channel.setStatus, get_channel. rewrite run_bind, Hc.
  destruct (decide _) as [E | _]; [contradiction |].
  rewrite run_bind. simpl.
  rewrite (for_of_isolated (s, ChannelObject.status c)
             (λ l, ChannelStatusListenerCalled (ChannelObject.id c) l s
                     (ChannelObject.status c))).
  reflexivity.
Qed.

(** The two others do not.  A message listener that throws ends
    [processPayloadMessage]: the exception leaves the method and the
    listeners after it are not called. *)
Lemma Channel_processPayloadMessage_aborts this c l ls message e w :
  heap w !! this = Some c →
  ChannelObject.messageListeners c = l :: ls →
  lcall l message = Some e →
  Channel.processPayloadMessage this message w
  = (Throw e,
     set_trace (trace w ++
                [ChannelMessageListenerCalled (ChannelObject.id c) (lid l) message])
       w).
Proof.
  intros Hc Hl He. unfold Channel.processPayloadMessage, get_channel.
  rewrite run_bind, Hc, Hl. simpl. rewrite run_bind. unfold call.
  rewrite run_bind. simpl. rewrite He. reflexivity.
Qed.

(** So does a connection-state listener that throws. *)
Lemma setConnectionState_aborts s l ls e w :
  connectionState (ws w) ≠ s →
  connectionStateChangeListeners (ws w) = UserListener l :: ls →
  lcall l (s, connectionState (ws w)) = Some e →
  setConnectionState s w
  = (Throw e,
     set_trace (trace w ++
                [ConnectionListenerCalled (lid l) s (connectionState (ws w))])
       (set_ws (set_connectionState s (ws w)) w)).
Proof.
  intros Hs Hl He. unfold setConnectionState. rewrite run_bind. simpl.
  destruct (decide _) as [E | _]; [contradiction |].
  rewrite run_bind. simpl. rewrite Hl. simpl. rewrite run_bind.
  unfold call_connection_listener, call. rewrite run_bind. simpl. rewrite He.
  reflexivity.
Qed.

(** C4 (the code at the failing inputs).  With message listeners 1 (throws
    "boom") and 2 on channel 1, a payload message calls listener 1 only:
    [processMessage] throws "boom", listener 2 is not called and nothing is
    logged.  With connection-state listeners 1 (throws "boom") and 2, the
    server's SETUP makes [setConnectionState(CONNECTED)] settle the promise
    of [connect] and call listener 1, not listener 2; the exception leaves
    [processSetupMessage] before the TIMEOUT timer is scheduled. *)
Theorem listener_exception_aborts_fan_out :
  processMessage (PAYLOAD "FEED_DATA" 1 []) (set_clock 50 payload_listeners_world)
  = (Throw "boom",
     set_ws (set_lastReceivedMillis 50 (ws payload_listeners_world))
       (set_trace
          (trace payload_listeners_world ++
           [ChannelMessageListenerCalled 1 1 (PAYLOAD "FEED_DATA" 1 [])])
          (set_clock 50 payload_listeners_world)))
  ∧ fst (processMessage (SETUP 0 "1.0" (Some 60) None)
           (set_clock 20 connection_listeners_world)) = Throw "boom"
  ∧ drop (length (trace connection_listeners_world))
      (trace (step connection_listeners_world
                (20, TransportMessage (SETUP 0 "1.0" (Some 60) None))))
    = [PromiseResolved 0; ConnectionListenerCalled 1 CONNECTED CONNECTING]
  ∧ timeoutIds (ws (step connection_listeners_world
                      (20, TransportMessage (SETUP 0 "1.0" (Some 60) None))))
    !! "TIMEOUT" = None.
Proof. vm_compute. repeat split; reflexivity. Qed.

(* ===================================================================== *)
(** ** The completion of auth(token) in the version-2 AuthManager (C9)     *)
(* ===================================================================== *)

Module V2_facts.
Import V2.

Lemma lookup_new_promise (ps : list PromiseState) :
(ps ++ [Pending])%list !! length ps = Some Pending.
Proof. rewrite lookup_app_r, Nat.sub_diag by lia. reflexivity. Qed.

(** A call of [resolve] on a pending promise fulfils it; calls of [resolve]
and [reject] on a fulfilled promise are recorded and change nothing. *)
Lemma resolve_pending p w :
promises w !! p = Some Pending →
resolve p w
= (Ok tt, set_promises (<[p := Fulfilled]> (promises w))
            (set_log (log w ++ [ResolveCalled p]) w)).
Proof.
intros Hp. unfold resolve. rewrite run_bind. cbn [emit]. unfold settle.
cbn [promises set_log]. rewrite Hp. reflexivity.
Qed.

Lemma resolve_fulfilled p w :
promises w !! p = Some Fulfilled →
resolve p w = (Ok tt, set_log (log w ++ [ResolveCalled p]) w).
Proof.
intros Hp. unfold resolve. rewrite run_bind. cbn [emit]. unfold settle.
cbn [promises set_log]. rewrite Hp. reflexivity.
Qed.

Lemma reject_fulfilled p reason w :
promises w !! p = Some Fulfilled →
reject p reason w = (Ok tt, set_log (log w ++ [RejectCalled p reason]) w).
Proof.
intros Hp. unfold reject. rewrite run_bind. cbn [emit]. unfold settle.
cbn [promises set_log]. rewrite Hp. reflexivity.
Qed.

(** *** What the other handlers leave alone *)

Section keeps.
Import V2_props.
Context (p : nat) (cs : option DXLinkAuthState).

Lemma keeps_ret {A} (I : World → Prop) (a : A) : keeps I (mret a : M A).
Proof. intros v Hv. exact Hv. Qed.

Lemma keeps_bind {A B} (I : World → Prop) (m : M A) (f : A → M B) :
keeps I m → (∀ a, keeps I (f a)) → keeps I (m ≫= f).
Proof.
intros Hm Hf v Hv. rewrite run_bind. specialize (Hm v Hv).
destruct (m v) as [[a | e] v']; [apply Hf, Hm | exact Hm].
Qed.

Lemma keeps_for_of {X} (I : World → Prop) (xs : list X) (body : X → M unit) :
(∀ x, x ∈ xs → keeps I (body x)) → keeps I (for_of xs body).
Proof.
induction xs as [| x xs IH]; intros Hb; [apply keeps_ret |].
cbn [for_of]. apply keeps_bind; [apply Hb; left |].
intros _. apply IH. intros y Hy. apply Hb. right. exact Hy.
Qed.

Lemma keeps_emit e : keeps (awaits_auth_state p cs) (emit e).
Proof. intros v Hv. exact Hv. Qed.

Lemma keeps_update f :
(∀ this, currentState (f this) = currentState this) →
keeps (awaits_auth_state p cs) (update f).
Proof.
intros Hf v [Hp Hc]. split; [exact Hp |]. cbn. rewrite Hf. exact Hc.
Qed.

Lemma keeps_settle q outcome :
q ≠ p → keeps (awaits_auth_state p cs) (settle q outcome).
Proof.
intros Hq v [Hp Hc]. unfold settle.
destruct (promises v !! q) as [[] |]; try (split; assumption).
split; [| exact Hc]. cbn. rewrite list_lookup_insert_ne by exact Hq. exact Hp.
Qed.

Lemma keeps_clear_timeoutId : keeps (awaits_auth_state p cs) clear_timeoutId.
Proof.
intros v Hv. unfold clear_timeoutId. rewrite run_bind. cbn [get_this].
destruct (timeoutId (manager v)); exact Hv.
Qed.

(** A handler made for another promise, and a handler of the caller, settle
nothing for [p] and do not touch the last known state. *)
Lemma keeps_call_handler h state :
match h with
| AuthHandler q | ReadyHandler q => q ≠ p
| ExternalHandler _ => True
end →
keeps (awaits_auth_state p cs) (call_handler h state).
Proof.
intros Hh. destruct h as [q | q | h]; unfold call_handler, resolve, reject,
  removeHandler.
- repeat first
    [ apply keeps_bind; [| intros ?]
    | apply keeps_emit
    | apply keeps_settle; exact Hh
    | apply keeps_update; reflexivity
    | apply keeps_ret
    | intros v Hv; exact Hv
    | match goal with |- keeps _ (match ?x with _ => _ end) => destruct x end ].
- repeat first
    [ apply keeps_clear_timeoutId
    | apply keeps_emit
    | apply keeps_settle; exact Hh
    | apply keeps_update; reflexivity
    | apply keeps_bind; [| intros ?] ].
- apply keeps_bind; [apply keeps_emit | intros _].
  destruct (lcall h state); intros v Hv; exact Hv.
Qed.

Lemma keeps_earlier_handlers hs state :
registered_before p hs →
keeps (awaits_auth_state p cs) (for_of hs (λ h, call_handler h state)).
Proof.
intros Hwf. apply keeps_for_of. intros h Hh. apply keeps_call_handler.
specialize (Hwf h Hh). destruct h; [lia | lia | exact I].
Qed.

End keeps.

Lemma for_of_app {W X} (xs ys : list X) (body : X → SE W unit) (w : W) :
for_of (xs ++ ys) body w
= match for_of xs body w with
  | (Ok _, w') => for_of ys body w'
  | (Throw e, w') => (Throw e, w')
  end.
Proof.
revert w. induction xs as [| x xs IH]; intros w; [reflexivity |].
cbn [app for_of]. rewrite !run_bind.
destruct (body x w) as [[[] | e] w']; [apply IH | reflexivity].
Qed.

Lemma returns_bind {A B} (m : M A) (f : A → M B) :
V2_props.returns m → (∀ a, V2_props.returns (f a)) → V2_props.returns (m ≫= f).
Proof.
intros Hm Hf v. rewrite run_bind. destruct (Hm v) as [a Ha].
destruct (m v) as [[a' | e] v']; [apply Hf | discriminate].
Qed.

Lemma returns_settle q outcome : V2_props.returns (settle q outcome).
Proof.
intros v. unfold settle. destruct (promises v !! q) as [[] |];
  eexists; reflexivity.
Qed.

Lemma returns_clear_timeoutId : V2_props.returns clear_timeoutId.
Proof.
intros v. unfold clear_timeoutId. rewrite run_bind. cbn [get_this].
destruct (timeoutId (manager v)); eexists; reflexivity.
Qed.

(** The closures of [auth] and [whenReady] do not throw; a handler of the
caller does what it does. *)
Lemma returns_call_handler h state :
match h with
| ExternalHandler h => lcall h state = None
| _ => True
end →
V2_props.returns (call_handler h state).
Proof.
intros Hh.
assert (∀ e, V2_props.returns (emit e)) as Hemit
  by (intros e v; eexists; reflexivity).
assert (∀ f, V2_props.returns (update f)) as Hupdate
  by (intros f v; eexists; reflexivity).
assert (V2_props.returns get_this) as Hthis
  by (intros v; eexists; reflexivity).
assert (∀ a : unit, V2_props.returns (mret a : M unit)) as Hret
  by (intros a v; eexists; reflexivity).
destruct h as [q | q | h]; unfold call_handler, resolve, reject, removeHandler.
- repeat first
    [ apply Hemit | apply Hupdate | apply Hthis | apply Hret
    | apply returns_settle
    | match goal with
      | |- V2_props.returns (match ?x with _ => _ end) => destruct x
      end
    | apply returns_bind; [| intros ?] ].
- repeat first
    [ apply Hemit | apply Hupdate | apply returns_clear_timeoutId
    | apply returns_settle
    | apply returns_bind; [| intros ?] ].
- apply returns_bind; [apply Hemit | intros _]. rewrite Hh. apply Hret.
Qed.

(** With handlers of the caller that return, the handlers run to the end. *)
Lemma earlier_handlers_return hs state w :
(∀ h, ExternalHandler h ∈ hs → lcall h state = None) →
fst (for_of hs (λ h, call_handler h state) w) = Ok tt.
Proof.
revert w. induction hs as [| h hs IH]; intros w Hret; [reflexivity |].
cbn [for_of]. rewrite run_bind.
destruct (returns_call_handler h state) with (v := w) as [[] Hh].
{ destruct h as [q | q | h]; [exact I | exact I |]. apply Hret. left. }
destruct (call_handler h state w) as [[[] | e] w']; [| discriminate].
apply IH. intros h' Hh'. apply Hret. right. exact Hh'.
Qed.

Lemma not_registered p hs :
V2_props.registered_before p hs →
existsb (same_handler (AuthHandler p)) hs = false.
Proof.
intros Hwf. apply not_true_iff_false. intros H.
apply existsb_exists in H as (h & Hh & Hsame).
apply list_elem_of_In in Hh. specialize (Hwf h Hh).
destruct h as [q | q | h]; try discriminate.
cbn in Hsame. apply Nat.eqb_eq in Hsame. lia.
Qed.

(** [auth] on a manager whose closures were registered for earlier
promises. *)
Lemma auth_run token w :
V2_props.well_registered w →
auth token w
= (Ok (length (promises w)),
   set_manager
     (set_handlers (handlers (manager w) ++ [AuthHandler (length (promises w))])
        (manager w))
     (set_promises (promises w ++ [Pending])
        (set_log
           (log w ++ [ConnectionSend [("type", VStr "AUTH"); ("channel", VNum 0);
                                      ("token", VStr token)]]) w))).
Proof.
intros Hwf. unfold auth, addHandler, set_add. rewrite run_bind. cbn [emit].
rewrite run_bind. unfold new_promise at 1. rewrite run_bind. unfold update at 1.
cbn [manager promises set_promises set_log set_manager handlers].
rewrite (not_registered _ _ Hwf). reflexivity.
Qed.

(** *** Every manager is well registered

A new manager is, and every method keeps it so. *)

Lemma registered_before_le n m hs :
(n ≤ m)%nat → V2_props.registered_before n hs → V2_props.registered_before m hs.
Proof.
intros Hle Hwf h Hh. specialize (Hwf h Hh).
destruct h; [lia | lia | exact I].
Qed.

Lemma registered_before_delete n h hs :
V2_props.registered_before n hs →
V2_props.registered_before n (set_delete same_handler h hs).
Proof.
intros Hwf x Hx. apply Hwf. unfold set_delete in Hx.
apply list_elem_of_filter in Hx as [_ Hx]. exact Hx.
Qed.

Lemma registered_before_add n h hs :
match h with
| AuthHandler q | ReadyHandler q => (q < n)%nat
| ExternalHandler _ => True
end →
V2_props.registered_before n hs →
V2_props.registered_before n (set_add same_handler h hs).
Proof.
intros Hh Hwf x Hx. unfold set_add in Hx.
destruct (existsb _ hs); [apply Hwf, Hx |].
apply elem_of_app in Hx as [Hx | Hx]; [apply Hwf, Hx |].
apply list_elem_of_singleton in Hx as ->. exact Hh.
Qed.

Lemma well_registered_emit e : V2_props.keeps V2_props.well_registered (emit e).
Proof. intros v Hv. exact Hv. Qed.

Lemma well_registered_settle q outcome :
V2_props.keeps V2_props.well_registered (settle q outcome).
Proof.
intros v Hv. unfold settle. destruct (promises v !! q) as [[] |]; try exact Hv.
unfold V2_props.well_registered. cbn. rewrite length_insert. exact Hv.
Qed.

Lemma well_registered_removeHandler h :
V2_props.keeps V2_props.well_registered (removeHandler h).
Proof. intros v Hv. apply registered_before_delete, Hv. Qed.

Lemma well_registered_clear_timeoutId :
V2_props.keeps V2_props.well_registered clear_timeoutId.
Proof.
intros v Hv. unfold clear_timeoutId. rewrite run_bind. cbn [get_this].
destruct (timeoutId (manager v)); exact Hv.
Qed.

Lemma well_registered_call_handler h state :
V2_props.keeps V2_props.well_registered (call_handler h state).
Proof.
destruct h as [q | q | h]; unfold call_handler, resolve, reject.
- repeat first
    [ apply well_registered_emit
    | apply well_registered_settle
    | apply well_registered_removeHandler
    | apply keeps_ret
    | intros v Hv; exact Hv
    | match goal with
      | |- V2_props.keeps _ (match ?x with _ => _ end) => destruct x
      end
    | apply keeps_bind; [| intros ?] ].
- repeat first
    [ apply well_registered_emit
    | apply well_registered_settle
    | apply well_registered_removeHandler
    | apply well_registered_clear_timeoutId
    | apply keeps_bind; [| intros ?] ].
- apply keeps_bind; [apply well_registered_emit | intros _].
  destruct (lcall h state); intros v Hv; exact Hv.
Qed.

Lemma well_registered_kept :
V2_props.well_registered new_AuthManager
∧ (∀ token, V2_props.keeps V2_props.well_registered (auth token))
∧ V2_props.keeps V2_props.well_registered whenReady
∧ (∀ h, V2_props.keeps V2_props.well_registered (addHandler (ExternalHandler h)))
∧ (∀ h, V2_props.keeps V2_props.well_registered (removeHandler h))
∧ (∀ state, V2_props.keeps V2_props.well_registered (handleAuthState state))
∧ V2_props.keeps V2_props.well_registered handleClose
∧ (∀ t, V2_props.keeps V2_props.well_registered (ready_timeout t)).
Proof.
refine (conj _ (conj _ (conj _ (conj _ (conj _ (conj _ (conj _ _))))))).
- intros h Hh. inversion Hh.
- intros token v Hv. rewrite (auth_run token v Hv). cbn [snd].
  unfold V2_props.well_registered. cbn. rewrite length_app. cbn.
  intros h Hh. apply elem_of_app in Hh as [Hh | Hh].
  + apply (registered_before_le (length (promises v))
             (length (promises v) + 1) _ ltac:(lia) Hv h Hh).
  + apply list_elem_of_singleton in Hh as ->. lia.
- intros v Hv. unfold whenReady, new_promise, addHandler, setTimeout.
  rewrite !run_bind. cbn. rewrite !run_bind. cbn.
  unfold V2_props.well_registered. cbn. rewrite length_app. cbn.
  apply registered_before_add; [lia |].
  apply (registered_before_le (length (promises v))); [lia | exact Hv].
- intros h v Hv. apply registered_before_add; [exact I | exact Hv].
- apply well_registered_removeHandler.
- intros state. unfold handleAuthState.
  apply keeps_bind; [intros v Hv; exact Hv | intros this].
  apply keeps_bind; [| intros _; intros v Hv; exact Hv].
  apply keeps_for_of. intros h _. apply well_registered_call_handler.
- unfold handleClose. apply keeps_bind; [| intros _; apply well_registered_clear_timeoutId].
  intros v _ h Hh. inversion Hh.
- intros t v Hv. unfold ready_timeout. destruct (timers v !! t); [| exact Hv].
  revert v Hv. unfold reject, clearTimeout.
  repeat first
    [ apply well_registered_emit
    | apply well_registered_settle
    | apply well_registered_clear_timeoutId
    | apply keeps_bind; [| intros ?]
    | intros v Hv; exact Hv ].
Qed.

(** C9 (as amended). [auth(token)] sends AUTH and registers its handler
behind the handlers registered before, for a fresh pending promise.  When
the next auth state arrives, [handleAuthState] calls those handlers first;
none of them settles the promise.  If one of them throws, [handleAuthState]
throws (it has no [try]): the handler of [auth] is not called and the
promise stays pending.  Otherwise (and so whenever the handlers of the
caller return) the handler of [auth] is called, and these are the last
calls of [handleAuthState]: [resolve], whatever the state; then, if a
previous state was known, [resolve] again when the state is AUTHORIZED and
[reject()] with no error value otherwise, and no second call if no
previous state was known.  The first call fulfils the promise, so the
second has no effect; the handler is removed. *)
Theorem auth_completion (w : World) (token : string) (state : DXLinkAuthState)
(Hwf : V2_props.well_registered w) :
let p := length (promises w) in
let w1 := snd (auth token w) in
let earlier := for_of (handlers (manager w)) (λ h, call_handler h state) w1 in
fst (auth token w) = Ok p
∧ promises w1 !! p = Some Pending
∧ promises (snd earlier) !! p = Some Pending
∧ ((∀ h, ExternalHandler h ∈ handlers (manager w) → lcall h state = None) →
   fst earlier = Ok tt)
∧ match fst earlier with
  | Throw e => handleAuthState state w1 = (Throw e, snd earlier)
  | Ok _ =>
      handleAuthState state w1
      = (Ok tt,
         set_manager
           {| handlers := set_delete same_handler (AuthHandler p)
                            (handlers (manager (snd earlier)));
              timeoutId := timeoutId (manager (snd earlier));
              currentState := Some state |}
           (set_promises (<[p := Fulfilled]> (promises (snd earlier)))
              (set_log
                 (log (snd earlier) ++
                  ResolveCalled p
                  :: match currentState (manager w) with
                     | None => []
                     | Some _ =>
                         if decide (state = AUTHORIZED)
                         then [ResolveCalled p]
                         else [RejectCalled p None]
                     end) (snd earlier))))
      ∧ <[p := Fulfilled]> (promises (snd earlier)) !! p = Some Fulfilled
      ∧ AuthHandler p
        ∉ set_delete same_handler (AuthHandler p)
            (handlers (manager (snd earlier)))
  end.
Proof.
intros p w1 earlier. subst w1 earlier. rewrite (auth_run token w Hwf).
cbn [fst snd]. fold p.
set (w1 := set_manager _ _).
assert (V2_props.awaits_auth_state p (currentState (manager w)) w1) as Hw1.
{ split; [apply lookup_new_promise | reflexivity]. }
pose proof (keeps_earlier_handlers p (currentState (manager w))
              (handlers (manager w)) state Hwf w1 Hw1) as [Hp2 Hc2].
refine (conj eq_refl (conj (proj1 Hw1) (conj Hp2 (conj _ _)))).
{ apply earlier_handlers_return. }
unfold handleAuthState. rewrite run_bind. cbn [get_this].
change (handlers (manager w1)) with (handlers (manager w) ++ [AuthHandler p]).
rewrite run_bind, for_of_app.
destruct (for_of (handlers (manager w)) _ w1) as [[[] | e] w2] eqn:E;
  cbn [fst snd] in *; [| reflexivity].
assert (<[p := Fulfilled]> (promises w2) !! p = Some Fulfilled) as Hful.
{ apply list_lookup_insert_eq. apply lookup_lt_Some in Hp2. exact Hp2. }
split; [| split; [exact Hful |]].
- cbn [for_of]. rewrite run_bind. unfold call_handler. rewrite run_bind.
  rewrite (resolve_pending p w2 Hp2). rewrite run_bind. cbn [get_this].
  cbn [manager set_promises set_log]. rewrite Hc2, run_bind.
  unfold removeHandler.
  destruct (currentState (manager w)) as [prev |].
  + destruct (decide (state = AUTHORIZED)) as [-> | Hs].
    * rewrite resolve_fulfilled by exact Hful.
      cbn. rewrite <- !app_assoc. reflexivity.
    * rewrite reject_fulfilled by exact Hful.
      cbn. rewrite <- !app_assoc. reflexivity.
  + cbn. reflexivity.
- unfold set_delete. intros Hin. apply list_elem_of_filter in Hin as [Hneg _].
  cbn in Hneg. rewrite Nat.eqb_refl in Hneg. discriminate.
Qed.

Lemma auth_completion_witness :
let w := snd (whenReady
                (snd (addHandler (ExternalHandler (quiet 7)) new_AuthManager))) in
V2_props.well_registered w
∧ promises (snd (handleAuthState AUTHORIZED (snd (auth "T" w)))) !! 1%nat
  = Some Fulfilled.
Proof.
intros w.
assert (V2_props.well_registered w) as Hwf.
{ intros h Hh.
  change (h ∈ [ExternalHandler (quiet 7); ReadyHandler 0]) in Hh.
  apply elem_of_cons in Hh as [-> | Hh]; [exact I |].
  apply list_elem_of_singleton in Hh as ->. change (0 < 1)%nat. lia. }
split; [exact Hwf |].
pose proof (auth_completion w "T" AUTHORIZED Hwf) as H.
cbv zeta in H. destruct H as (_ & _ & _ & Hret & H).
rewrite Hret in H.
- destruct H as (-> & Hful & _). exact Hful.
- intros h Hh.
  change (ExternalHandler h ∈ [ExternalHandler (quiet 7); ReadyHandler 0]) in Hh.
  apply elem_of_cons in Hh as [[= ->] | Hh]; [reflexivity |].
  apply list_elem_of_singleton in Hh. discriminate.
Defined.

(** C9 as stated fails: on a manager that has seen no auth state yet,
[auth("T")] followed by UNAUTHORIZED resolves the completion and makes no
call of [reject]. *)
Lemma auth_unauthorized_first_state_resolves :
log (snd (handleAuthState UNAUTHORIZED (snd (auth "T" new_AuthManager))))
= [ConnectionSend [("type", VStr "AUTH"); ("channel", VNum 0);
                 ("token", VStr "T")];
 ResolveCalled 0]
∧ promises (snd (handleAuthState UNAUTHORIZED (snd (auth "T" new_AuthManager))))
= [Fulfilled].
Proof. vm_compute. split; reflexivity. Qed.

End V2_facts.

(* ===================================================================== *)
(** ** The delay of the peer-liveness timer (C5)                           *)
(* ===================================================================== *)

Lemma then_schedule_ok {A} (m : M A) key cb t w :
  fst ((m ≫= λ _, schedule key cb t) w) = Ok tt →
  timeoutIds (ws (snd ((m ≫= λ _, schedule key cb t) w))) !! key
  = Some (scheduled cb t).
Proof.
  rewrite run_bind. destruct (m w) as [[a | e] w']; [| discriminate].
  intros _. rewrite schedule_run. simpl. apply lookup_insert_eq.
Qed.

Lemma processSetupMessage_schedules version kt w :
  fst (processSetupMessage version kt w) = Ok tt →
  timeoutIds (ws (snd (processSetupMessage version kt w))) !! "TIMEOUT"
  = Some (scheduled (OnTimeoutCheck (default 60 kt * 1000)) (default 60 kt * 1000)).
Proof.
  unfold processSetupMessage.
  rewrite (run_bind_ok _ _ _ _ _ (cancelSchedule_run "SETUP_TIMEOUT" w)).
  rewrite run_bind. cbn [get_this].
  apply then_schedule_ok.
Qed.

Lemma timeoutCheck_reschedules t w :
  clock w - lastReceivedMillis (ws w) < t →
  timeoutCheck t w
  = (Ok tt,
     set_ws
       (set_timeoutIds
          (<["TIMEOUT" :=
               scheduled (OnTimeoutCheck t)
                 (Z.max 200 (t - (clock w - lastReceivedMillis (ws w))))]>
             (timeoutIds (ws w))) (ws w)) w).
Proof.
  intros H. unfold timeoutCheck. rewrite run_bind. simpl. rewrite run_bind. simpl.
  destruct (Z.geb_spec (clock w - lastReceivedMillis (ws w)) t) as [Hge | _];
    [lia |].
  apply schedule_run.
Qed.

(** C5 (as amended). When [processSetupMessage] returns, the TIMEOUT timer
    is scheduled at exactly [serverKeepaliveTimeout_s * 1000] ms, 60 s
    standing for a missing value, with no floor of 200 ms.  Every reschedule
    from [timeoutCheck] uses [max(200, timeoutMills - (now - lastReceived))],
    which is at least 200 ms, and carries the same [timeoutMills] on. *)
Theorem timeout_timer_delay
    (w : World) (version : string) (kt : option Z) (t : Z)
    (Hok : fst (processSetupMessage version kt w) = Ok tt)
    (Hlive : clock w - lastReceivedMillis (ws w) < t) :
  timeoutIds (ws (snd (processSetupMessage version kt w))) !! "TIMEOUT"
  = Some (scheduled (OnTimeoutCheck (default 60 kt * 1000)) (default 60 kt * 1000))
  ∧ fst (timeoutCheck t w) = Ok tt
  ∧ timeoutIds (ws (snd (timeoutCheck t w))) !! "TIMEOUT"
    = Some (scheduled (OnTimeoutCheck t)
              (Z.max 200 (t - (clock w - lastReceivedMillis (ws w)))))
  ∧ (200 ≤ Z.max 200 (t - (clock w - lastReceivedMillis (ws w))))%Z.
Proof.
  split; [apply processSetupMessage_schedules, Hok |].
  rewrite (timeoutCheck_reschedules t w Hlive). simpl.
  split; [reflexivity |]. split; [apply lookup_insert_eq | lia].
Qed.

Lemma timeout_timer_delay_witness :
  fst (processSetupMessage "1.0" (Some 45) (set_clock 20 awaiting_setup_world))
  = Ok tt
  ∧ clock (set_clock 20 awaiting_setup_world)
    - lastReceivedMillis (ws (set_clock 20 awaiting_setup_world)) < 45000
  ∧ timeoutIds
      (ws (snd (processSetupMessage "1.0" (Some 45)
                  (set_clock 20 awaiting_setup_world)))) !! "TIMEOUT"
    = Some (scheduled (OnTimeoutCheck 45000) 45000).
Proof.
  split; [vm_compute; reflexivity |]. split; [vm_compute; reflexivity |].
  apply (timeout_timer_delay (set_clock 20 awaiting_setup_world) "1.0" (Some 45)
           45000); vm_compute; reflexivity.
Defined.

(** C5 as stated fails: a server SETUP with [keepaliveTimeout: 0] schedules
    the TIMEOUT timer at 0 ms, not at [max(200, 0 * 1000)] = 200 ms. *)
Lemma setup_schedules_timeout_below_200 :
  (delay <$> timeoutIds
               (ws (step awaiting_setup_world
                      (20, TransportMessage (SETUP 0 "1.0" (Some 0) None))))
             !! "TIMEOUT") = Some 0
  ∧ Z.max 200 (0 * 1000) = 200.
Proof. vm_compute. split; reflexivity. Qed.

(* ===================================================================== *)
(** ** reconnect, disconnect and what every event preserves                *)
(* ===================================================================== *)

Lemma lookup_delete_all (ks : list string) (m : gmap string Timer) (i : string) :
  foldl (λ m k, delete k m) m ks !! i
  = if decide (i ∈ ks) then None else m !! i.
Proof.
  revert m. induction ks as [| k ks IH]; intros m; simpl.
  - reflexivity.
  - rewrite IH. destruct (decide (i = k)) as [-> | Hne].
    + rewrite lookup_delete_eq.
      destruct (decide (k ∈ k :: ks)) as [_ | Hn];
        [destruct (decide (k ∈ ks)); reflexivity | exfalso; apply Hn; left].
    + rewrite lookup_delete_ne by congruence.
      destruct (decide (i ∈ ks)) as [Hin | Hnin],
               (decide (i ∈ k :: ks)) as [Hin' | Hnin']; try reflexivity.
      * exfalso. apply Hnin'. right. exact Hin.
      * exfalso. apply elem_of_cons in Hin' as [-> | Hin']; [congruence | auto].
Qed.

Lemma for_of_cancelSchedule ks w :
  for_of ks cancelSchedule w
  = (Ok tt,
     set_ws (set_timeoutIds (foldl (λ m k, delete k m) (timeoutIds (ws w)) ks)
               (ws w)) w).
Proof.
  revert w. induction ks as [| k ks IH]; intros w; simpl.
  - rewrite set_timeoutIds_id, set_ws_id. reflexivity.
  - rewrite (run_bind_ok _ _ _ _ _ (cancelSchedule_run k w)), IH. reflexivity.
Qed.

(** Cancelling every key of the registry empties it. *)
Lemma cancelAllSchedules_run w :
  cancelAllSchedules w = (Ok tt, set_ws (set_timeoutIds ∅ (ws w)) w).
Proof.
  unfold cancelAllSchedules. rewrite run_bind. simpl.
  rewrite for_of_cancelSchedule. do 3 f_equal.
  apply map_eq. intros i. rewrite lookup_delete_all, lookup_empty.
  destruct (decide _) as [| Hn]; [reflexivity |].
  destruct (timeoutIds (ws w) !! i) as [t |] eqn:E; [| reflexivity].
  exfalso. apply Hn. apply list_elem_of_fmap. exists (i, t).
  split; [reflexivity | apply elem_of_map_to_list, E].
Qed.

(** The fields as [reconnect] leaves them before it announces CONNECTING. *)
Lemma reconnect_run w :
  connectionState (ws w) ≠ NOT_CONNECTED → connector (ws w) ≠ None →
  reconnect w
  = (setConnectionState CONNECTING ≫= λ _,
     get_this ≫= λ this,
     schedule "RECONNECT" OnReconnect (reconnectAttempts this * 1000))
      (set_ws
         (set_reconnectAttempts (reconnectAttempts (ws w) + 1)
            (set_isFirstAuthState true
               (set_lastSentMillis 0
                  (set_lastReceivedMillis 0
                     (set_connectionDetails DEFAULT_CONNECTION_DETAILS
                        (set_timeoutIds ∅ (ws w)))))))
         (set_trace (trace w ++ [ConnectorStop]) w)).
Proof.
  intros Hs Hc. unfold reconnect. rewrite run_bind. cbn [get_this].
  destruct (decide _) as [[H | H] | _]; [contradiction | contradiction |].
  rewrite run_bind. cbn [emit]. rewrite run_bind, cancelAllSchedules_run.
  reflexivity.
Qed.

Lemma reconnect_noop w :
  connectionState (ws w) = NOT_CONNECTED ∨ connector (ws w) = None →
  reconnect w = (Ok tt, w).
Proof.
  intros H. unfold reconnect. rewrite run_bind. cbn [get_this].
  destruct (decide _) as [_ | Hn]; [reflexivity | contradiction].
Qed.

(** The fields as [disconnect] leaves them before it announces
    NOT_CONNECTED. *)
Lemma disconnect_run w :
  connectionState (ws w) ≠ NOT_CONNECTED →
  disconnect w
  = (setConnectionState NOT_CONNECTED ≫= λ _, setAuthState UNAUTHORIZED)
      (set_ws
         (set_reconnectAttempts 0
            (set_isFirstAuthState true
               (set_lastSentMillis 0
                  (set_lastReceivedMillis 0
                     (set_connectionDetails DEFAULT_CONNECTION_DETAILS
                        (set_timeoutIds ∅ (set_connector None (ws w))))))))
         (set_trace
            (trace w ++ match connector (ws w) with
                        | Some _ => [ConnectorStop]
                        | None => []
                        end) w)).
Proof.
  intros Hs. unfold disconnect. rewrite run_bind. cbn [get_this].
  destruct (decide _) as [H | _]; [contradiction |].
  rewrite run_bind.
  destruct (connector (ws w)) eqn:Hc; cbn [emit mret SE_ret];
    rewrite run_bind; cbn [update]; rewrite run_bind, cancelAllSchedules_run;
    [reflexivity |].
  rewrite app_nil_r. destruct w; reflexivity.
Qed.

Lemma disconnect_noop w :
  connectionState (ws w) = NOT_CONNECTED → disconnect w = (Ok tt, w).
Proof.
  intros H. unfold disconnect. rewrite run_bind. cbn [get_this].
  destruct (decide _) as [_ | Hn]; [reflexivity | contradiction].
Qed.

Ltac invariant_instance :=
  split; [frame_instance | ..];
  unfold awaits_first_auth_state, not_yet_connected,
    attempts_cleared_when_disconnected;
  intros; simpl in *; solve [assumption | reflexivity | discriminate | lia].

#[global] Instance awaits_first_auth_state_invariant :
  Invariant awaits_first_auth_state.
Proof. invariant_instance. Qed.

#[global] Instance not_yet_connected_invariant : Invariant not_yet_connected.
Proof. invariant_instance. Qed.

#[global] Instance attempts_cleared_invariant :
  Invariant attempts_cleared_when_disconnected.
Proof.
  split; [frame_instance | ..]; unfold attempts_cleared_when_disconnected;
    intros; simpl in *; solve [auto | discriminate | contradiction].
Qed.

#[global] Instance token_flag_is_frame t b : Frame (token_flag_is t b).
Proof. frame_instance. Qed.

#[global] Instance attempts_is_frame n : Frame (attempts_is n).
Proof. frame_instance. Qed.

#[global] Instance connection_state_is_frame s : Frame (connection_state_is s).
Proof. frame_instance. Qed.

Lemma set_connectionState_id this :
  set_connectionState (connectionState this) this = this.
Proof. destruct this; reflexivity. Qed.

(** What holds of the engine after the assignment of [setConnectionState]
    holds when the method is left, normally or by a listener's exception. *)
Lemma setConnectionState_establishes (P : DXLinkWebSocket → Prop) `{!Frame P} s w :
  P (set_connectionState s (ws w)) → P (ws (snd (setConnectionState s w))).
Proof.
  intros H. unfold setConnectionState. rewrite run_bind. cbn [get_this].
  destruct (decide _) as [E | _].
  - rewrite <- E, set_connectionState_id in H. exact H.
  - rewrite run_bind. cbn [update].
    apply (preserves_for_of P); [| exact H].
    intros l. apply preserves_call_connection_listener; assumption.
Qed.

Lemma setConnectionState_state s w :
  connectionState (ws (snd (setConnectionState s w))) = s.
Proof.
  apply (setConnectionState_establishes (connection_state_is s)). reflexivity.
Qed.

Section invariant_preserved.
Context (P : DXLinkWebSocket → Prop) `{!Invariant P}.

Lemma preserves_reconnect : preserves P reconnect.
Proof.
  intros w H.
  destruct (decide (connectionState (ws w) = NOT_CONNECTED
                    ∨ connector (ws w) = None)) as [Hn | Hn].
  - rewrite (reconnect_noop w Hn). exact H.
  - rewrite reconnect_run by tauto.
    match goal with
    | |- P (ws (snd (?m ?w1))) =>
        cut (preserves P m); [intros Hp; apply Hp |]
    end.
    + cbn [ws set_ws].
      match goal with
      | |- P (set_reconnectAttempts _ (set_isFirstAuthState true ?X)) =>
          apply (inv_reconnect X)
      end.
      * cbn. tauto.
      * do 4 (first [apply frame_lastSentMillis | apply frame_lastReceivedMillis
                    | apply frame_connectionDetails | apply frame_timeoutIds]).
        exact H.
    + apply preserves_bind.
      * apply preserves_setConnectionState; [apply inv_frame | apply inv_connecting].
      * intros _. apply preserves_bind; [apply preserves_get_this |].
        intros this. apply preserves_schedule, inv_frame.
Qed.

Lemma preserves_disconnect : preserves P disconnect.
Proof.
  intros w H.
  destruct (decide (connectionState (ws w) = NOT_CONNECTED)) as [Hn | Hn].
  - rewrite (disconnect_noop w Hn). exact H.
  - rewrite (disconnect_run w Hn). rewrite run_bind.
    match goal with
    | |- context [setConnectionState NOT_CONNECTED ?w1] =>
        pose proof (setConnectionState_establishes P NOT_CONNECTED w1) as Hs;
        destruct (setConnectionState NOT_CONNECTED w1) as [[[] | e] w2]
    end.
    + apply preserves_setAuthState; [apply inv_frame |].
      apply Hs. cbn [ws set_ws]. apply inv_disconnect.
      do 4 (first [apply frame_lastSentMillis | apply frame_lastReceivedMillis
                  | apply frame_connectionDetails | apply frame_timeoutIds]).
      apply inv_connector, H.
    + apply Hs. cbn [ws set_ws]. apply inv_disconnect.
      do 4 (first [apply frame_lastSentMillis | apply frame_lastReceivedMillis
                  | apply frame_connectionDetails | apply frame_timeoutIds]).
      apply inv_connector, H.
Qed.

Hint Resolve preserves_reconnect preserves_disconnect : frame.
Hint Resolve preserves_cancelSchedule preserves_schedule
  preserves_scheduleKeepalive preserves_sendMessage preserves_setAuthState
  preserves_sendAuthMessage preserves_publishError preserves_requestChannel
  preserves_requestActiveChannels preserves_openChannel
  preserves_processTransportOpen preserves_Channel_send preserves_Channel_close
  preserves_Channel_error preserves_Channel_processPayloadMessage
  preserves_Channel_processError preserves_Channel_setStatus
  preserves_Channel_clear : frame.
Hint Resolve inv_frame : frame.

Ltac invariant_auto :=
  repeat first
    [ solve [eauto with frame]
    | apply preserves_setConnectionState;
      [apply inv_frame | solve [apply inv_connecting | assumption]]
    | apply preserves_update;
      solve [frame_field | apply inv_connector; assumption
            | apply inv_token; assumption | apply inv_setup; assumption]
    | apply preserves_listener_sets; apply inv_frame
    | preserves_step ].

Lemma preserves_connect url : preserves P (connect url).
Proof. unfold connect. invariant_auto. Qed.

Lemma preserves_setAuthToken token : preserves P (setAuthToken token).
Proof. unfold setAuthToken. invariant_auto. Qed.

Lemma preserves_processTransportClose : preserves P processTransportClose.
Proof. unfold processTransportClose. invariant_auto. Qed.

Lemma preserves_timeout_callback what : preserves P (timeout_callback what).
Proof. unfold timeout_callback. invariant_auto. Qed.

Lemma preserves_timeoutCheck t : preserves P (timeoutCheck t).
Proof. unfold timeoutCheck. invariant_auto. Qed.

Lemma preserves_run_callback cb : preserves P (run_callback cb).
Proof.
  destruct cb; cbn [run_callback];
    first [apply preserves_timeout_callback | apply preserves_timeoutCheck
          | invariant_auto].
Qed.

Lemma preserves_fire key : preserves P (fire key).
Proof.
  unfold fire. invariant_auto. apply preserves_run_callback.
Qed.

(** A server SETUP, for a [P] that survives the assignment of CONNECTED. *)
Lemma preserves_processSetupMessage version kt :
  (∀ this, P this → P (set_connectionState CONNECTED this)) →
  preserves P (processSetupMessage version kt).
Proof. intros Hc. unfold processSetupMessage. invariant_auto. Qed.

(** A message, given what the SETUP and AUTH_STATE handlers do to [P]. *)
Lemma preserves_processMessage message :
  (∀ version kt akt, message = SETUP 0 version kt akt →
     preserves P (processSetupMessage version kt)) →
  (∀ state, message = AUTH_STATE 0 state →
     preserves P (processAuthStateMessage state)) →
  preserves P (processMessage message).
Proof.
  intros Hsetup Hauth. unfold processMessage.
  apply preserves_bind; [apply preserves_Date_now | intros now].
  apply preserves_bind; [apply preserves_update; frame_field | intros _].
  apply preserves_bind; [apply preserves_get_this | intros this].
  apply preserves_bind; [invariant_auto | intros _].
  unfold isConnectionMessage.
  destruct (bool_decide_reflect (message_channel message = 0)) as [Hz | _].
  - destruct message; simpl in Hz; subst; invariant_auto;
      first [eapply Hsetup | eapply Hauth]; reflexivity.
  - destruct (isChannelMessage message); [| invariant_auto].
    apply preserves_bind; [apply preserves_get_this | intros this'].
    destruct (bool_decide _); [| invariant_auto].
    destruct (isChannelLifecycleMessage message);
      [| apply preserves_Channel_processPayloadMessage].
    destruct message; invariant_auto;
      apply preserves_Channel_processStatus.
Qed.

Lemma preserves_handle ev :
  (∀ version kt akt, ev = TransportMessage (SETUP 0 version kt akt) →
     preserves P (processSetupMessage version kt)) →
  (∀ state, ev = TransportMessage (AUTH_STATE 0 state) →
     preserves P (processAuthStateMessage state)) →
  preserves P (handle ev).
Proof.
  intros Hsetup Hauth. destruct ev; cbn [handle];
    first
      [ apply preserves_bind;
        [first [apply preserves_connect | apply preserves_openChannel]
        | intros; apply preserves_ret]
      | apply preserves_reconnect | apply preserves_disconnect
      | apply preserves_setAuthToken
      | apply preserves_listener_sets | apply preserves_Channel_listener_sets
      | apply preserves_Channel_send | apply preserves_Channel_error
      | apply preserves_Channel_close | apply preserves_processTransportOpen
      | apply preserves_processTransportClose | apply preserves_fire
      | apply preserves_processMessage;
        [ intros; subst; eapply Hsetup; reflexivity
        | intros; subst; eapply Hauth; reflexivity ] ];
    try apply inv_frame.
Qed.

(** An event happens at some time; the clock is not a field of the engine. *)
Lemma preserves_step w now ev :
  preserves P (handle ev) → P (ws w) → P (ws (step w (now, ev))).
Proof. intros Hp H. unfold step. apply Hp. exact H. Qed.
End invariant_preserved.

(* ===================================================================== *)
(** ** Messages of the connection                                          *)
(* ===================================================================== *)

Lemma processMessage_prefix message w :
  processMessage message w
  = (if isConnectionMessage message then
       match message with
       | SETUP _ version keepaliveTimeout' _ =>
           processSetupMessage version keepaliveTimeout'
       | AUTH_STATE _ state => processAuthStateMessage state
       | ERROR _ error message' =>
           publishError {| err_type := error; err_message := message' |}
       | KEEPALIVE _ => mret tt
       | _ => emit (LoggerWarn "Unhandeled message: " (message_type message))
       end
     else if isChannelMessage message then
       get_this ≫= λ this,
       if bool_decide (message_channel message ∈ channels this) then
         let channel := message_channel message in
         if isChannelLifecycleMessage message then
           match message with
           | CHANNEL_OPENED _ _ _ => Channel.processStatusOpened channel
           | CHANNEL_CLOSED _ => Channel.processStatusClosed channel
           | ERROR _ error message' =>
               Channel.processError channel
                 {| err_type := error; err_message := message' |}
           | _ => mret tt
           end
         else Channel.processPayloadMessage channel message
       else
         emit (LoggerWarn "Received lifecycle message for unknown channel"
                 (message_type message))
     else emit (LoggerWarn "Unhandeled message: " (message_type message)))
      (received w).
Proof.
  unfold processMessage, received. exec.
  cbn [ws set_ws lastReceivedMillis set_lastReceivedMillis lastSentMillis config].
  destruct (_ >=? _).
  - rewrite sendMessage_run. reflexivity.
  - reflexivity.
Qed.

Lemma processMessage_SETUP version kt akt w :
  processMessage (SETUP 0 version kt akt) w
  = processSetupMessage version kt (received w).
Proof. apply processMessage_prefix. Qed.


(** The bookkeeping assigns framed fields only. *)
Lemma received_frame (P : DXLinkWebSocket → Prop) `{!Frame P} w :
  P (ws w) → P (ws (received w)).
Proof.
  intros H. unfold received. cbv zeta. destruct (_ >=? _).
  - apply preserves_sendMessage; [assumption |]. apply frame_lastReceivedMillis, H.
  - apply frame_lastReceivedMillis, H.
Qed.

Lemma received_fields w :
  lastSettedAuthToken (ws (received w)) = lastSettedAuthToken (ws w)
  ∧ isFirstAuthState (ws (received w)) = isFirstAuthState (ws w)
  ∧ connectionState (ws (received w)) = connectionState (ws w)
  ∧ reconnectAttempts (ws (received w)) = reconnectAttempts (ws w).
Proof.
  pose proof (received_frame (token_flag_is (lastSettedAuthToken (ws w))
                                (isFirstAuthState (ws w))) w (conj eq_refl eq_refl))
    as [Ht Hf].
  pose proof (received_frame (connection_state_is (connectionState (ws w))) w
                eq_refl) as Hc.
  pose proof (received_frame (attempts_is (reconnectAttempts (ws w))) w eq_refl)
    as Ha.
  auto.
Qed.



(* ===================================================================== *)
(** ** The first AUTH_STATE of a session (C2)                              *)
(* ===================================================================== *)







(* ===================================================================== *)
(** ** Entering CONNECTED (C1)                                             *)
(* ===================================================================== *)

#[export] Hint Extern 0 (Frame _) => solve [apply _] : frame.
#[export] Hint Extern 0 (Invariant _) => solve [apply _] : frame.
#[export] Hint Resolve preserves_reconnect preserves_disconnect
  preserves_cancelSchedule preserves_schedule preserves_scheduleKeepalive
  preserves_sendMessage preserves_setAuthState preserves_sendAuthMessage
  preserves_publishError preserves_requestChannel
  preserves_requestActiveChannels : frame.

Ltac engine_auto :=
  repeat first
    [ solve [eauto with frame]
    | apply preserves_setConnectionState;
      [apply _ | solve [apply inv_connecting | intros ? ?; assumption]]
    | apply preserves_update;
      solve [frame_field | apply inv_connector | apply inv_token
            | apply inv_setup | intros ? ?; assumption]
    | preserves_step ].

(** An AUTH_STATE other than AUTHORIZED does not connect. *)
Lemma processAuthStateMessage_not_connecting state :
  state ≠ AUTHORIZED →
  preserves not_yet_connected (processAuthStateMessage state).
Proof.
  intros Hs. unfold processAuthStateMessage.
  apply preserves_bind; [apply preserves_cancelSchedule, _ | intros _].
  apply preserves_bind; [apply preserves_get_this | intros this].
  apply preserves_bind; [engine_auto | intros _].
  apply preserves_bind; [| intros _; apply preserves_setAuthState, _].
  destruct (decide (state = AUTHORIZED)); [contradiction | apply preserves_ret].
Qed.

(** A server SETUP connects only an engine that is CONNECTING and remembers
    no token. *)
Lemma processSetupMessage_connects version kt w :
  connectionState (ws w) ≠ CONNECTED →
  connectionState (ws (snd (processSetupMessage version kt w))) = CONNECTED →
  connectionState (ws w) = CONNECTING ∧ lastSettedAuthToken (ws w) = None.
Proof.
  intros Hb. unfold processSetupMessage.
  rewrite (run_bind_ok _ _ _ _ _ (cancelSchedule_run "SETUP_TIMEOUT" w)).
  rewrite run_bind. cbn [get_this].
  cbn [ws set_ws connectionState set_timeoutIds].
  destruct (decide _) as [Hg | Hg].
  - assert (connectionState (ws w) = CONNECTING) as Hc by tauto.
    exec. cbn [ws set_ws lastSettedAuthToken set_reconnectAttempts
               set_connectionDetails set_timeoutIds].
    destruct (decide (lastSettedAuthToken (ws w) = None)) as [Ht | Ht];
      [intros _; split; assumption |].
    cbn [mret SE_ret]. rewrite schedule_run. cbn. congruence.
  - exec. rewrite schedule_run. cbn. intros E. congruence.
Qed.

Lemma event_cases (ev : Event) :
  (∃ version kt akt, ev = TransportMessage (SETUP 0 version kt akt))
  ∨ ev = TransportMessage (AUTH_STATE 0 AUTHORIZED)
  ∨ ((∀ version kt akt, ev ≠ TransportMessage (SETUP 0 version kt akt))
     ∧ (∀ state, ev = TransportMessage (AUTH_STATE 0 state) → state ≠ AUTHORIZED)).
Proof.
  destruct ev as [ | | | | | | | | | | | | | | | | | | | | | m | | ];
    try (right; right; split; intros; discriminate).
  destruct m as [c v kt akt | | c st | | | | | | | ];
    try (right; right; split; intros; discriminate).
  - destruct (decide (c = 0)) as [-> | Hc].
    + left. eauto.
    + right; right. split; intros; congruence.
  - destruct (decide (c = 0)) as [-> | Hc].
    + destruct st; [right; right; split; intros; congruence ..|].
      right; left. reflexivity.
    + right; right. split; intros; congruence.
Qed.

(** C1 (as amended). The connection state becomes CONNECTED only while the
    engine processes either a server SETUP, received in state CONNECTING
    when no auth token is remembered at that moment, or an AUTH_STATE with
    state AUTHORIZED, whether or not a SETUP was observed before it.  No
    other event (call, callback or timer) makes an engine CONNECTED. *)
Theorem connected_only_by_setup_or_authorized
    (w : World) (now : Z) (ev : Event)
    (Hbefore : connectionState (ws w) ≠ CONNECTED)
    (Hafter : connectionState (ws (step w (now, ev))) = CONNECTED) :
  (∃ version kt akt,
     ev = TransportMessage (SETUP 0 version kt akt)
     ∧ connectionState (ws w) = CONNECTING
     ∧ lastSettedAuthToken (ws w) = None)
  ∨ ev = TransportMessage (AUTH_STATE 0 AUTHORIZED).
Proof.
  destruct (event_cases ev) as [(version & kt & akt & ->) | [-> | [Hs Ha]]].
  - left. exists version, kt, akt. split; [reflexivity |].
    unfold step in Hafter. cbn [fst snd handle] in Hafter.
    rewrite processMessage_SETUP in Hafter.
    destruct (received_fields (set_clock now w)) as (Ht & _ & Hc & _).
    cbn [ws set_clock] in Ht, Hc.
    rewrite <- Ht, <- Hc. apply (processSetupMessage_connects version kt).
    + rewrite Hc. exact Hbefore.
    + exact Hafter.
  - right. reflexivity.
  - exfalso.
    apply (preserves_step not_yet_connected w now ev); [| exact Hbefore | exact Hafter].
    apply preserves_handle; [apply _ | |].
    + intros version kt akt E. destruct (Hs _ _ _ E).
    + intros state E. apply processAuthStateMessage_not_connecting, Ha, E.
Qed.

Lemma connected_only_by_setup_or_authorized_witness :
  connectionState (ws awaiting_setup_world) ≠ CONNECTED
  ∧ connectionState
      (ws (step awaiting_setup_world
             (20, TransportMessage (SETUP 0 "1.0" (Some 60) None)))) = CONNECTED
  ∧ ((∃ version kt akt,
        TransportMessage (SETUP 0 "1.0" (Some 60) None)
        = TransportMessage (SETUP 0 version kt akt)
        ∧ connectionState (ws awaiting_setup_world) = CONNECTING
        ∧ lastSettedAuthToken (ws awaiting_setup_world) = None)
     ∨ TransportMessage (SETUP 0 "1.0" (Some 60) None)
       = TransportMessage (AUTH_STATE 0 AUTHORIZED)).
Proof.
  split; [vm_compute; discriminate |]. split; [vm_compute; reflexivity |].
  apply (connected_only_by_setup_or_authorized awaiting_setup_world 20
           (TransportMessage (SETUP 0 "1.0" (Some 60) None)));
    vm_compute; [discriminate | reflexivity].
Defined.

(** C1 as stated fails, in both parts.  After [connect] and the opening of
    the transport, an AUTH_STATE AUTHORIZED that arrives before any SETUP
    takes the engine from CONNECTING to CONNECTED; no server SETUP was
    observed.  And in [rejected_token_session] a token was set, the server
    never signalled AUTHORIZED, and the engine is CONNECTED at the end: the
    token was forgotten when the server turned it down, and the SETUP of the
    next session found none. *)
Lemma connected_without_setup :
  connectionState
    (ws (run (initial default_config)
           [(0, Connect "wss://x"); (10, TransportOpen)])) = CONNECTING
  ∧ connectionState
      (ws (run (initial default_config)
             [(0, Connect "wss://x"); (10, TransportOpen);
              (20, TransportMessage (AUTH_STATE 0 AUTHORIZED))])) = CONNECTED
  ∧ existsb is_server_setup
      [(0, Connect "wss://x"); (10, TransportOpen);
       (20, TransportMessage (AUTH_STATE 0 AUTHORIZED))] = false
  ∧ lastSettedAuthToken
      (ws (run (initial default_config) (take 1 rejected_token_session)))
    = Some "T"
  ∧ connectionState
      (ws (run (initial default_config) (take 9 rejected_token_session)))
    = CONNECTING
  ∧ connectionState
      (ws (run (initial default_config) rejected_token_session)) = CONNECTED
  ∧ existsb is_server_authorized rejected_token_session = false.
Proof. vm_compute. repeat split; reflexivity. Qed.

(* ===================================================================== *)
(** ** The reconnect counter and the RECONNECT timer (C8)                  *)
(* ===================================================================== *)

(** With listeners that return, [setConnectionState] returns. *)
Lemma for_of_connection_listeners_returns ls s prev w :
  (∀ l, UserListener l ∈ ls → lcall l (s, prev) = None) →
  fst (for_of ls (λ listener, call_connection_listener listener s prev) w) = Ok tt.
Proof.
  revert w. induction ls as [| l ls IH]; intros w Hq; [reflexivity |].
  cbn [for_of]. rewrite run_bind.
  assert (∃ w', call_connection_listener l s prev w = (Ok tt, w')) as [w' ->].
  { destruct l as [u | p]; unfold call_connection_listener.
    - unfold call. exec. rewrite (Hq u) by left. eauto.
    - unfold removeConnectionStateChangeListener. exec. destruct s; eauto. }
  apply IH. intros u Hu. apply Hq. right. exact Hu.
Qed.

Lemma setConnectionState_returns s w :
  (∀ l, UserListener l ∈ connectionStateChangeListeners (ws w) →
        lcall l (s, connectionState (ws w)) = None) →
  fst (setConnectionState s w) = Ok tt.
Proof.
  intros Hq. unfold setConnectionState. rewrite run_bind. cbn [get_this].
  destruct (decide _); [reflexivity |].
  exec. apply for_of_connection_listeners_returns, Hq.
Qed.

(** Every run keeps the counter at 0 while the engine is disconnected. *)
Lemma attempts_cleared_handle ev :
  preserves attempts_cleared_when_disconnected (handle ev).
Proof.
  apply preserves_handle; [apply _ | |].
  - intros version kt akt _. apply preserves_processSetupMessage; [apply _ |].
    unfold attempts_cleared_when_disconnected. intros this _. discriminate.
  - intros state _. unfold processAuthStateMessage.
    apply preserves_bind; [apply preserves_cancelSchedule, _ | intros _].
    apply preserves_bind; [apply preserves_get_this | intros this].
    apply preserves_bind.
    { destruct (isFirstAuthState this); [| destruct (decide _)];
        first [apply preserves_ret
              | apply preserves_update; intros this' H; exact H]. }
    intros _.
    apply preserves_bind; [| intros _; apply preserves_setAuthState, _].
    destruct (decide _); [| apply preserves_ret].
    apply preserves_bind; [| intros _; apply preserves_requestActiveChannels, _].
    apply preserves_setConnectionState; [apply _ |].
    unfold attempts_cleared_when_disconnected. intros this' _. discriminate.
Qed.

Lemma attempts_cleared_run config evs :
  attempts_cleared_when_disconnected (ws (run (initial config) evs)).
Proof.
  induction evs as [| [now ev] evs IH] using rev_ind.
  - intros _. reflexivity.
  - unfold run. rewrite fold_left_app. cbn [fold_left].
    apply (preserves_step _ _ now ev);
      [apply attempts_cleared_handle | exact IH].
Qed.

Lemma post_bind {A B} (Q : DXLinkWebSocket → Prop) (m : M A) (f : A → M B) w :
  Q (ws (snd (m w))) → (∀ a, preserves Q (f a)) → Q (ws (snd ((m ≫= f) w))).
Proof.
  intros Hm Hf. rewrite run_bind.
  destruct (m w) as [[a | e] w']; [apply Hf |]; exact Hm.
Qed.

Lemma processSetupMessage_resets_attempts version kt w :
  attempts_cleared_when_disconnected (ws w) →
  reconnectAttempts (ws (snd (processSetupMessage version kt w))) = 0.
Proof.
  intros Hinv. unfold processSetupMessage.
  rewrite (run_bind_ok _ _ _ _ _ (cancelSchedule_run "SETUP_TIMEOUT" w)).
  rewrite run_bind. cbn [get_this].
  cbn [ws set_ws connectionState set_timeoutIds].
  apply (post_bind (attempts_is 0)); [| intros _; apply preserves_schedule, _].
  destruct (decide _) as [Hg | Hg].
  - exec. cbn [ws set_ws lastSettedAuthToken set_reconnectAttempts
               set_connectionDetails set_timeoutIds].
    destruct (decide _); [| reflexivity].
    apply preserves_setConnectionState;
      [apply _ | intros this H; exact H | reflexivity].
  - cbn. apply Hinv. destruct (connectionState (ws w)); tauto.
Qed.

(** X20. A [reconnect()] that is not a no-op increments the reconnect
    counter, and when it returns the RECONNECT timer is scheduled at exactly
    the new count times 1000 ms, whatever the count (no cap); it returns
    whenever no connection-state listener throws.  In every run of the
    engine, the counter is 0 after a server SETUP has been processed. *)
Theorem reconnect_backoff
    (w : World) (Hs : connectionState (ws w) ≠ NOT_CONNECTED)
    (Hc : connector (ws w) ≠ None)
    (config : DXLinkWebSocketConfig) (evs : list (Z * Event)) (now : Z)
    (version : string) (kt akt : option Z) :
  reconnectAttempts (ws (snd (reconnect w))) = reconnectAttempts (ws w) + 1
  ∧ (fst (reconnect w) = Ok tt →
     timeoutIds (ws (snd (reconnect w))) !! "RECONNECT"
     = Some (scheduled OnReconnect ((reconnectAttempts (ws w) + 1) * 1000)))
  ∧ ((∀ l, UserListener l ∈ connectionStateChangeListeners (ws w) →
           lcall l (CONNECTING, connectionState (ws w)) = None) →
     fst (reconnect w) = Ok tt)
  ∧ reconnectAttempts
      (ws (step (run (initial config) evs)
             (now, TransportMessage (SETUP 0 version kt akt)))) = 0.
Proof.
  rewrite (reconnect_run w Hs Hc).
  set (w1 := set_ws _ _).
  assert (attempts_is (reconnectAttempts (ws w) + 1)
            (ws (snd (setConnectionState CONNECTING w1)))) as Ha.
  { apply preserves_setConnectionState;
      [apply _ | intros this H; exact H | reflexivity]. }
  refine (conj _ (conj _ (conj _ _))).
  - rewrite run_bind.
    destruct (setConnectionState CONNECTING w1) as [[[] | e] w2]; [| exact Ha].
    exec. rewrite schedule_run. exact Ha.
  - rewrite run_bind.
    destruct (setConnectionState CONNECTING w1) as [[[] | e] w2];
      [| discriminate].
    intros _. exec. rewrite schedule_run. cbn [snd ws set_ws timeoutIds set_timeoutIds].
    rewrite lookup_insert_eq. cbn [snd] in Ha. rewrite Ha. reflexivity.
  - intros Hq. rewrite run_bind.
    pose proof (setConnectionState_returns CONNECTING w1 Hq) as Hr.
    destruct (setConnectionState CONNECTING w1) as [[[] | e] w2];
      [| discriminate].
    exec. rewrite schedule_run. reflexivity.
  - unfold step. cbn [fst snd handle]. rewrite processMessage_SETUP.
    apply processSetupMessage_resets_attempts.
    apply (received_frame attempts_cleared_when_disconnected).
    apply attempts_cleared_run.
Qed.

Lemma reconnect_backoff_witness :
  connectionState (ws sample_world) ≠ NOT_CONNECTED
  ∧ connector (ws sample_world) ≠ None
  ∧ reconnectAttempts (ws (snd (reconnect sample_world)))
    = reconnectAttempts (ws sample_world) + 1.
Proof.
  split; [vm_compute; discriminate |]. split; [vm_compute; discriminate |].
  refine (proj1 (reconnect_backoff sample_world _ _ default_config [] 0 "1.0"
                   None None));
    vm_compute; discriminate.
Defined.

(** C8 (the code at the failing input).  The engine is CONNECTED and
    AUTHORIZED with a connector, and one of its connection-state listeners
    throws.  When the transport closes, [processTransportClose] calls
    [reconnect()], which is not a no-op: it stops the connector, counts the
    attempt and sets the state to CONNECTING; the listener's exception then
    leaves [reconnect] before the RECONNECT timer is scheduled.  No timer is
    left, so the connector is never started again. *)
Theorem reconnect_listener_exception_skips_timer :
  connectionState (ws throwing_listener_world) = CONNECTED
  ∧ authState (ws throwing_listener_world) = AUTHORIZED
  ∧ connector (ws throwing_listener_world) = Some {| getUrl := "wss://x" |}
  ∧ reconnectAttempts (ws throwing_listener_world) = 0
  ∧ fst (handle TransportClose (set_clock 60 throwing_listener_world))
    = Throw "boom"
  ∧ connectionState (ws (step throwing_listener_world (60, TransportClose)))
    = CONNECTING
  ∧ reconnectAttempts (ws (step throwing_listener_world (60, TransportClose)))
    = 1
  ∧ timeoutIds (ws (step throwing_listener_world (60, TransportClose)))
      !! "RECONNECT" = None
  ∧ timeoutIds (ws (step throwing_listener_world (60, TransportClose))) = ∅.
Proof. vm_compute. repeat split; reflexivity. Qed.

(* ===================================================================== *)
(** ** requestActiveChannels (C7)                                          *)
(* ===================================================================== *)

Lemma sent_app tr tr' : sent (tr ++ tr') = sent tr ++ sent tr'.
Proof. apply omap_app. Qed.

Lemma sent_isolated_calls {A} (args : A) called logged (ls : list (Listener A)) :
  (∀ n, sent [called n] = []) → (∀ e, sent [logged e] = []) →
  sent (isolated_calls args called logged ls) = [].
Proof.
  intros Hc Hl. unfold isolated_calls.
  induction ls as [| l ls IH]; [reflexivity |].
  cbn [flat_map]. rewrite sent_app, IH, app_nil_r.
  change (?x :: ?t) with ([x] ++ t). rewrite sent_app, Hc.
  destruct (lcall l args); [apply Hl | reflexivity].
Qed.

Lemma set_status_same c :
  ChannelObject.set_status (ChannelObject.status c) c = c.
Proof. destruct c; reflexivity. Qed.

Lemma alter_as_insert (h : gmap Z ChannelObject.t) k c f :
  h !! k = Some c → alter f k h = <[k := f c]> h.
Proof.
  intros H. apply map_eq. intros i. destruct (decide (i = k)) as [-> | Hne].
  - rewrite lookup_alter_eq, lookup_insert_eq, H. reflexivity.
  - rewrite lookup_alter_ne, lookup_insert_ne by congruence. reflexivity.
Qed.


Lemma requestChannel_spec ref c w :
  heap w !! ref = Some c →
  ∃ w', requestChannel ref w = (Ok tt, w')
        ∧ heap w' = <[ref := ChannelObject.set_status REQUESTED c]> (heap w)
        ∧ channels (ws w') = channels (ws w)
        ∧ connector (ws w') = connector (ws w)
        ∧ sent (trace w') = sent (trace w) ++ to_connector (ws w) [channel_request c].
Proof.
  intros Hc. unfold requestChannel, get_channel.
  rewrite run_bind, Hc. rewrite run_bind, sendMessage_run.
  assert (sent (match connector (ws w) with
                | Some _ => [ConnectorSend (channel_request c)]
                | None => []
                end) = to_connector (ws w) [channel_request c]) as Hsend
    by (unfold to_connector; destruct (connector (ws w)); reflexivity).
  unfold Channel.processStatusRequested.
  match goal with |- context [Channel.setStatus ref REQUESTED ?x] =>
    set (w1 := x) end.
  assert (heap w1 !! ref = Some c) as Hc1 by exact Hc.
  destruct (decide (ChannelObject.status c = REQUESTED)) as [E | E].
  - pose proof (Channel_setStatus_same ref c w1 Hc1) as Hsame.
    rewrite E in Hsame. rewrite Hsame.
    exists w1. split; [reflexivity |]. subst w1. cbn [heap ws trace set_ws set_trace
      channels connector set_lastSentMillis set_timeoutIds].
    rewrite <- E, set_status_same, insert_id by exact Hc.
    rewrite sent_app. fold (channel_request c). rewrite Hsend. auto.
  - rewrite (Channel_setStatus_isolated ref c REQUESTED w1 Hc1 E).
    eexists. split; [reflexivity |]. subst w1.
    cbn [heap ws trace set_ws set_trace set_heap channels connector
         set_lastSentMillis set_timeoutIds].
    rewrite (alter_as_insert _ _ c) by exact Hc.
    rewrite !sent_app, sent_isolated_calls by reflexivity.
    fold (channel_request c). rewrite Hsend, app_nil_r. auto.
Qed.

(* ===================================================================== *)
(** * Further properties of the code                                       *)
(* ===================================================================== *)

(** ** What setConnectionState and its listeners change *)

Lemma world_eta w :
  set_trace (trace w ++ [])
    (set_ws (set_connectionStateChangeListeners
               (connectionStateChangeListeners (ws w)) (ws w)) w) = w.
Proof. rewrite app_nil_r. destruct w as [[] ? ? ? ?]; reflexivity. Qed.

Lemma call_run {A} (l : Listener A) (args : A) (e : Effect) w :
  call l args e w
  = (match lcall l args with None => Ok tt | Some x => Throw x end,
     set_trace (trace w ++ [e]) w).
Proof.
  unfold call. rewrite run_bind. cbn [emit].
  destruct (lcall l args); reflexivity.
Qed.

Lemma world_eta_trace w tr :
  set_trace (trace w ++ tr)
    (set_ws (set_connectionStateChangeListeners
               (connectionStateChangeListeners (ws w)) (ws w)) w)
  = set_trace (trace w ++ tr) w.
Proof. destruct w as [[] ? ? ? ?]; reflexivity. Qed.

Lemma for_of_connection_listeners_shape ls s prev w :
  ∃ r ls' tr,
    for_of ls (λ listener, call_connection_listener listener s prev) w
    = (r, set_trace (trace w ++ tr)
            (set_ws (set_connectionStateChangeListeners ls' (ws w)) w))
    ∧ sent tr = [].
Proof.
  revert w. induction ls as [| l ls IH]; intros w.
  - exists (Ok tt), (connectionStateChangeListeners (ws w)), [].
    rewrite world_eta. split; reflexivity.
  - cbn [for_of]. rewrite run_bind.
    destruct l as [u | p]; unfold call_connection_listener at 1.
    + rewrite call_run. destruct (lcall u (s, prev)) as [e |] eqn:Hu.
      * exists (Throw e), (connectionStateChangeListeners (ws w)),
          [ConnectionListenerCalled (lid u) s prev].
        rewrite world_eta_trace. split; reflexivity.
      * match goal with |- context [for_of ls _ ?w1] =>
          destruct (IH w1) as (r & ls' & tr & -> & Htr) end.
        exists r, ls', (ConnectionListenerCalled (lid u) s prev :: tr).
        split; [| exact Htr]. cbn [trace set_trace ws set_ws].
        rewrite <- app_assoc. reflexivity.
    + unfold removeConnectionStateChangeListener. rewrite run_bind.
      cbn [update].
      destruct s; cbn [emit mret SE_ret];
        match goal with |- context [for_of ls _ ?w1] =>
          destruct (IH w1) as (r & ls' & tr & -> & Htr) end.
      * exists r, ls', (PromiseRejected p "Error: Connection failed" :: tr).
        split; [| exact Htr]. cbn [trace set_trace ws set_ws].
        rewrite <- app_assoc. reflexivity.
      * exists r, ls', tr. split; [| exact Htr]. reflexivity.
      * exists r, ls', (PromiseResolved p :: tr).
        split; [| exact Htr]. cbn [trace set_trace ws set_ws].
        rewrite <- app_assoc. reflexivity.
Qed.

(** [setConnectionState] assigns the state, may drop listeners of
    [connect] from the set, and leaves listener calls and promise
    settlements in the trace; it hands nothing to the connector. *)
Lemma setConnectionState_shape s w :
  ∃ r ls tr,
    setConnectionState s w
    = (r, set_trace (trace w ++ tr)
            (set_ws (set_connectionStateChangeListeners ls
                       (set_connectionState s (ws w))) w))
    ∧ sent tr = [].
Proof.
  unfold setConnectionState. rewrite run_bind. cbn [get_this].
  destruct (decide _) as [E | _].
  - exists (Ok tt), (connectionStateChangeListeners (ws w)), [].
    split; [| reflexivity]. rewrite <- E, set_connectionState_id, world_eta.
    reflexivity.
  - rewrite run_bind. cbn [update].
    match goal with |- context [for_of ?ls ?b ?w1] =>
      destruct (for_of_connection_listeners_shape ls s (connectionState (ws w)) w1)
        as (r & ls' & tr & -> & Htr) end.
    exists r, ls', tr. split; [reflexivity | exact Htr].
Qed.

(** ** The end of a channel: close() and CHANNEL_CLOSED *)

Lemma Channel_clear_run this c w :
  heap w !! this = Some c →
  Channel.clear this w
  = (Ok tt,
     set_heap
       (<[this := ChannelObject.set_errorListeners []
                    (ChannelObject.set_statusListeners []
                       (ChannelObject.set_messageListeners [] c))]> (heap w)) w).
Proof.
  intros Hc. unfold Channel.clear. exec. unfold update_channel.
  cbn [heap set_heap]. rewrite (alter_as_insert (heap w) this c) by exact Hc.
  rewrite !alter_insert_eq. reflexivity.
Qed.

(** X1. [close()] on an OPENED channel returns normally: the engine's
    [sendMessage] gets CHANNEL_CANCEL with the channel's id, the three
    listener sets are emptied and the status becomes CLOSED.  The sets are
    emptied before the status changes, so no status listener is told about
    CLOSED: the trace grows by the send alone.  After it, every [send] on
    the channel throws "Channel is not ready". *)
Theorem Channel_close_opened
    (this : Z) (c : ChannelObject.t) (w : World) (message : JsObject)
    (Hc : heap w !! this = Some c) (Hs : ChannelObject.status c = OPENED) :
  Channel.close sendMessage this w
  = (Ok tt,
     set_heap (<[this := closed_and_cleared c]> (heap w))
       (snd (sendMessage (channel_cancel c) w)))
  ∧ trace (snd (Channel.close sendMessage this w))
    = trace w ++ match connector (ws w) with
                 | Some _ => [ConnectorSend (channel_cancel c)]
                 | None => []
                 end
  ∧ Channel.send sendMessage this message (snd (Channel.close sendMessage this w))
    = (Throw "Error: Channel is not ready",
       snd (Channel.close sendMessage this w)).
Proof.
  assert (Channel.close sendMessage this w
          = (Ok tt,
             set_heap (<[this := closed_and_cleared c]> (heap w))
               (snd (sendMessage (channel_cancel c) w)))) as Hclose.
  { unfold Channel.close. rewrite run_bind.
    rewrite (Channel_send_opened sendMessage this c _ w Hc Hs).
    change (obj_literal _) with (channel_cancel c).
    rewrite sendMessage_run. cbn [snd].
    match goal with |- (_ ≫= _) ?x = _ => set (w1 := x) end.
    assert (heap w1 !! this = Some c) as Hc1 by exact Hc.
    rewrite run_bind, (Channel_clear_run this c w1 Hc1).
    match goal with |- context [Channel.setStatus this CLOSED ?x] =>
      set (w2 := x) end.
    assert (heap w2 !! this
            = Some (ChannelObject.set_errorListeners []
                      (ChannelObject.set_statusListeners []
                         (ChannelObject.set_messageListeners [] c)))) as Hc2
      by (subst w2; cbn [heap set_heap]; apply lookup_insert_eq).
    rewrite (Channel_setStatus_isolated this _ CLOSED w2 Hc2)
      by (cbn; rewrite Hs; discriminate).
    subst w2 w1. cbn [isolated_calls flat_map ChannelObject.statusListeners
                       ChannelObject.set_errorListeners
                       ChannelObject.set_statusListeners heap set_heap trace
                       set_trace].
    rewrite alter_insert_eq, app_nil_r. reflexivity. }
  rewrite Hclose. cbn [snd]. split; [reflexivity |]. split.
  - rewrite sendMessage_run. reflexivity.
  - apply (Channel_send_not_opened sendMessage this (closed_and_cleared c)).
    + cbn [heap set_heap]. apply lookup_insert_eq.
    + discriminate.
Qed.

Lemma Channel_close_opened_witness :
  heap sample_world !! 1 = Some (sample_channel OPENED)
  ∧ trace (snd (Channel.close sendMessage 1 sample_world))
    = trace sample_world
      ++ [ConnectorSend (channel_cancel (sample_channel OPENED))].
Proof.
  split; [vm_compute; reflexivity |].
  refine (proj1 (proj2 (Channel_close_opened 1 (sample_channel OPENED)
                          sample_world [] _ _)));
    vm_compute; reflexivity.
Defined.

(** X2. CHANNEL_CLOSED from the server ([processStatusClosed]) on a channel
    that is not yet CLOSED returns normally, calls every status listener
    once with (CLOSED, previous status), logging what a listener throws, and
    only then empties the three listener sets; the status is CLOSED.  On a
    channel that is already CLOSED nobody is called and the sets are
    emptied. *)
Theorem Channel_processStatusClosed_notifies_then_clears
    (this : Z) (c : ChannelObject.t) (w : World)
    (Hc : heap w !! this = Some c) :
  Channel.processStatusClosed this w
  = (Ok tt,
     set_trace
       (trace w ++
        if decide (ChannelObject.status c = CLOSED) then []
        else isolated_calls (CLOSED, ChannelObject.status c)
               (λ l, ChannelStatusListenerCalled (ChannelObject.id c) l CLOSED
                       (ChannelObject.status c))
               (ConsoleError (Channel.console_error_prefix c "status listener"))
               (ChannelObject.statusListeners c))
       (set_heap (<[this := closed_and_cleared c]> (heap w)) w)).
Proof.
  unfold Channel.processStatusClosed. rewrite run_bind.
  destruct (decide (ChannelObject.status c = CLOSED)) as [E | E].
  - pose proof (Channel_setStatus_same this c w Hc) as Hsame.
    rewrite E in Hsame. rewrite Hsame, (Channel_clear_run this c w Hc).
    rewrite app_nil_r.
    assert (closed_and_cleared c
            = ChannelObject.set_errorListeners []
                (ChannelObject.set_statusListeners []
                   (ChannelObject.set_messageListeners [] c))) as ->
      by (destruct c; cbn in *; subst; reflexivity).
    destruct w; reflexivity.
  - rewrite (Channel_setStatus_isolated this c CLOSED w Hc E).
    match goal with |- context [Channel.clear this ?x] => set (w1 := x) end.
    assert (heap w1 !! this = Some (ChannelObject.set_status CLOSED c)) as Hc1.
    { subst w1. cbn [heap set_heap set_trace]. rewrite lookup_alter_eq, Hc.
      reflexivity. }
    rewrite (Channel_clear_run this _ w1 Hc1). subst w1.
    cbn [heap set_heap set_trace]. rewrite (alter_as_insert _ _ c) by exact Hc.
    rewrite insert_insert_eq. reflexivity.
Qed.

Lemma Channel_processStatusClosed_notifies_then_clears_witness :
  heap sample_world !! 1 = Some (sample_channel OPENED)
  ∧ fst (Channel.processStatusClosed 1 sample_world) = Ok tt.
Proof.
  split; [vm_compute; reflexivity |].
  rewrite (Channel_processStatusClosed_notifies_then_clears 1
             (sample_channel OPENED) sample_world);
    [reflexivity | vm_compute; reflexivity].
Defined.

(** ** Error fan-outs *)

(** X3. [publishError] and [Channel.processError] never throw and change
    nothing but the trace: with no error listener the error is logged (by
    the logger, by [console.error]); otherwise every listener is called once
    with the error, and what a listener throws is logged. *)
Theorem error_fan_out_never_throws
    (e : DXLinkError) (this : Z) (c : ChannelObject.t) (w : World)
    (Hc : heap w !! this = Some c) :
  publishError e w
  = (Ok tt,
     set_trace
       (trace w ++
        if decide (errorListeners (ws w) = [])
        then [LoggerError "Unhandled dxLink error" (err_message e)]
        else isolated_calls e (λ l, ErrorListenerCalled l e)
               (LoggerError "Error listener error") (errorListeners (ws w))) w)
  ∧ Channel.processError this e w
    = (Ok tt,
       set_trace
         (trace w ++
          if decide (ChannelObject.errorListeners c = [])
          then [ConsoleError
                  ("Unhandled error in channel#" +:+ pretty (ChannelObject.id c)
                   +:+ ": ") (err_message e)]
          else isolated_calls e
                 (λ l, ChannelErrorListenerCalled (ChannelObject.id c) l e)
                 (ConsoleError (Channel.console_error_prefix c "error listener"))
                 (ChannelObject.errorListeners c)) w).
Proof.
  split.
  - destruct (decide (errorListeners (ws w) = [])) as [E | E].
    + unfold publishError. rewrite run_bind. cbn [get_this]. rewrite E.
      reflexivity.
    + apply publishError_isolated, E.
  - destruct (decide (ChannelObject.errorListeners c = [])) as [E | E].
    + unfold Channel.processError, get_channel. rewrite run_bind, Hc, E.
      reflexivity.
    + apply Channel_processError_isolated; assumption.
Qed.

Lemma error_fan_out_never_throws_witness :
  heap sample_world !! 1 = Some (sample_channel OPENED)
  ∧ fst (Channel.processError 1 {| err_type := "E"; err_message := "m" |}
           sample_world) = Ok tt.
Proof.
  split; [vm_compute; reflexivity |].
  rewrite (proj2 (error_fan_out_never_throws
                    {| err_type := "E"; err_message := "m" |} 1
                    (sample_channel OPENED) sample_world eq_refl)).
  reflexivity.
Defined.

(** ** Sending and the timer registry *)

(** X4. After every [sendMessage] that returns: the message has gone to the
    connector when there is one and nowhere when there is none; the
    KEEPALIVE timer is armed anew at [keepaliveInterval * 1000] ms, every
    other timer of the registry is as it was, [lastSentMillis] is the time
    of the call, and no channel object has changed. *)
Theorem sendMessage_rearms_keepalive
    (message : WireMessage) (key : string) (w : World)
    (Hret : fst (sendMessage message w) = Ok tt) (Hk : key ≠ "KEEPALIVE") :
  trace (snd (sendMessage message w))
  = trace w ++ match connector (ws w) with
               | Some _ => [ConnectorSend message]
               | None => []
               end
  ∧ timeoutIds (ws (snd (sendMessage message w))) !! "KEEPALIVE"
    = Some (scheduled OnKeepalive (keepaliveInterval (config (ws w)) * 1000))
  ∧ timeoutIds (ws (snd (sendMessage message w))) !! key = timeoutIds (ws w) !! key
  ∧ lastSentMillis (ws (snd (sendMessage message w))) = clock w
  ∧ heap (snd (sendMessage message w)) = heap w.
Proof.
  rewrite sendMessage_run. cbn.
  rewrite lookup_insert_eq, lookup_insert_ne by congruence.
  repeat split; reflexivity.
Qed.

Lemma sendMessage_rearms_keepalive_witness :
  fst (sendMessage keepalive_message sample_world) = Ok tt
  ∧ "TIMEOUT" ≠ "KEEPALIVE"
  ∧ lastSentMillis (ws (snd (sendMessage keepalive_message sample_world)))
    = clock sample_world.
Proof.
  split; [vm_compute; reflexivity |]. split; [discriminate |].
  apply (sendMessage_rearms_keepalive keepalive_message "TIMEOUT" sample_world).
  - vm_compute; reflexivity.
  - discriminate.
Defined.

(** X5. The registry holds one timer per key.  [schedule] puts a pending
    timer with the given callback and delay under the key, in place of any
    timer the key had, and leaves the other keys alone; [cancelSchedule]
    removes the key and leaves the other keys alone; on a key that is not
    registered it changes nothing, so cancelling twice is cancelling once. *)
Theorem schedule_replaces_and_cancel_removes
    (key key' : string) (cb : TimerCallback) (t : Z) (w : World)
    (Hk : key' ≠ key) :
  schedule key cb t w
  = (Ok tt,
     set_ws (set_timeoutIds (<[key := scheduled cb t]> (timeoutIds (ws w))) (ws w)) w)
  ∧ timeoutIds (ws (snd (schedule key cb t w))) !! key = Some (scheduled cb t)
  ∧ timeoutIds (ws (snd (schedule key cb t w))) !! key' = timeoutIds (ws w) !! key'
  ∧ timeoutIds (ws (snd (cancelSchedule key w))) !! key = None
  ∧ timeoutIds (ws (snd (cancelSchedule key w))) !! key' = timeoutIds (ws w) !! key'
  ∧ (timeoutIds (ws w) !! key = None → cancelSchedule key w = (Ok tt, w))
  ∧ cancelSchedule key (snd (cancelSchedule key w)) = cancelSchedule key w.
Proof.
  rewrite schedule_run, !cancelSchedule_run. cbn.
  rewrite lookup_insert_eq, lookup_insert_ne, lookup_delete_eq, lookup_delete_ne
    by congruence.
  refine (conj eq_refl (conj eq_refl (conj eq_refl (conj eq_refl
            (conj eq_refl (conj _ _)))))).
  - intros Hn. rewrite (delete_id _ _ Hn), set_timeoutIds_id, set_ws_id.
    reflexivity.
  - rewrite (delete_id (delete key _) key) by apply lookup_delete_eq.
    reflexivity.
Qed.

Lemma schedule_replaces_and_cancel_removes_witness :
  "TIMEOUT" ≠ "KEEPALIVE"
  ∧ timeoutIds (ws (snd (schedule "KEEPALIVE" OnKeepalive 5 sample_world)))
    !! "KEEPALIVE" = Some (scheduled OnKeepalive 5).
Proof.
  split; [discriminate |].
  apply (schedule_replaces_and_cancel_removes "KEEPALIVE" "TIMEOUT" OnKeepalive 5
           sample_world).
  discriminate.
Defined.

(** ** Inbound messages *)

Lemma received_run w :
  received w
  = if clock w - lastSentMillis (ws w) >=? keepaliveInterval (config (ws w)) * 1000
    then
      set_ws
        (set_lastSentMillis (clock w)
           (set_timeoutIds
              (<["KEEPALIVE" :=
                   scheduled OnKeepalive
                     (keepaliveInterval (config (ws w)) * 1000)]>
                 (timeoutIds (ws w)))
              (set_lastReceivedMillis (clock w) (ws w))))
        (set_trace
           (trace w ++ match connector (ws w) with
                       | Some _ => [ConnectorSend keepalive_message]
                       | None => []
                       end) w)
    else set_ws (set_lastReceivedMillis (clock w) (ws w)) w.
Proof.
  unfold received. cbv zeta. destruct (_ >=? _); [| reflexivity].
  rewrite sendMessage_run. reflexivity.
Qed.

(** X6. A message for a channel that the table does not hold is dropped:
    [processMessage] returns normally, logs a warning, and changes nothing
    else beyond what it does for every message, namely setting
    [lastReceivedMillis] to the time of receipt and sending a KEEPALIVE of
    its own when none of the engine's messages went out for
    [keepaliveInterval] seconds.  No channel object changes. *)
Theorem processMessage_unknown_channel
    (message : Message) (w : World)
    (Hch : message_channel message ≠ 0)
    (Hun : message_channel message ∉ channels (ws w)) :
  processMessage message w
  = (Ok tt,
     set_trace
       (trace w
        ++ (if clock w - lastSentMillis (ws w)
               >=? keepaliveInterval (config (ws w)) * 1000
            then match connector (ws w) with
                 | Some _ => [ConnectorSend keepalive_message]
                 | None => []
                 end
            else [])
        ++ [LoggerWarn "Received lifecycle message for unknown channel"
              (message_type message)])
       (received w))
  ∧ lastReceivedMillis (ws (snd (processMessage message w))) = clock w
  ∧ heap (snd (processMessage message w)) = heap w.
Proof.
  assert (processMessage message w
          = (Ok tt,
             set_trace
               (trace (received w)
                ++ [LoggerWarn "Received lifecycle message for unknown channel"
                      (message_type message)]) (received w))) as Hrun.
  { rewrite processMessage_prefix. unfold isConnectionMessage, isChannelMessage.
    rewrite bool_decide_eq_false_2, bool_decide_eq_true_2 by assumption.
    rewrite run_bind. cbn [get_this].
    rewrite bool_decide_eq_false_2; [reflexivity |].
    rewrite received_run. destruct (_ >=? _); exact Hun. }
  rewrite Hrun. cbn [snd]. rewrite received_run.
  destruct (_ >=? _); cbn; rewrite <- ?app_assoc, ?app_nil_r;
    repeat split; reflexivity.
Qed.

Lemma processMessage_unknown_channel_witness :
  message_channel (PAYLOAD "FEED_DATA" 7 []) ≠ 0
  ∧ (message_channel (PAYLOAD "FEED_DATA" 7 []) ∉ channels (ws sample_world))
  ∧ heap (snd (processMessage (PAYLOAD "FEED_DATA" 7 []) sample_world))
    = heap sample_world.
Proof.
  assert (message_channel (PAYLOAD "FEED_DATA" 7 []) ∉ channels (ws sample_world))
    as Hun.
  { vm_compute. intros H. apply list_elem_of_singleton in H. discriminate. }
  split; [discriminate |]. split; [exact Hun |].
  apply (processMessage_unknown_channel (PAYLOAD "FEED_DATA" 7 []) sample_world);
    [discriminate | exact Hun].
Defined.

(** ** requestActiveChannels: the table after a reauthorization *)

Lemma filter_ext_in {A} (P Q : A → Prop) `{!∀ x, Decision (P x)}
    `{!∀ x, Decision (Q x)} (l : list A) :
  (∀ x, x ∈ l → (P x ↔ Q x)) → filter P l = filter Q l.
Proof.
  induction l as [| a l IH]; intros Hext; [reflexivity |].
  rewrite !filter_cons.
  assert (P a ↔ Q a) as Ha by (apply Hext; left).
  rewrite IH by (intros x Hx; apply Hext; right; exact Hx).
  destruct (decide (P a)), (decide (Q a)); tauto.
Qed.

Lemma filter_all {A} (P : A → Prop) `{!∀ x, Decision (P x)} (l : list A) :
  (∀ x, P x) → filter P l = l.
Proof.
  intros Hall. induction l as [| a l IH]; [reflexivity |].
  rewrite filter_cons_True by apply Hall. f_equal. exact IH.
Qed.









(** ** disconnect *)

(** The world that an effective [disconnect] leaves: [r] is its outcome,
    [ls] the connection-state listeners that remain, [tr] what it adds to
    the trace; the auth state is reset only when the method returns. *)
Lemma disconnect_shape w :
  connectionState (ws w) ≠ NOT_CONNECTED →
  ∃ r ls tr,
    disconnect w
    = (r,
       set_trace (trace w ++ tr)
         (set_ws
            ((match r with
              | Ok _ => set_authState UNAUTHORIZED
              | Throw _ => λ this, this
              end)
               (set_connectionStateChangeListeners ls
                  (set_connectionState NOT_CONNECTED
                     (set_reconnectAttempts 0
                        (set_isFirstAuthState true
                           (set_lastSentMillis 0
                              (set_lastReceivedMillis 0
                                 (set_connectionDetails DEFAULT_CONNECTION_DETAILS
                                    (set_timeoutIds ∅
                                       (set_connector None (ws w)))))))))))
            w))
    ∧ sent tr = [].
Proof.
  intros Hs. rewrite (disconnect_run w Hs). rewrite run_bind.
  match goal with |- context [setConnectionState NOT_CONNECTED ?x] =>
    destruct (setConnectionState_shape NOT_CONNECTED x)
      as (r & ls & tr & -> & Htr) end.
  cbn [ws set_ws trace set_trace].
  destruct r as [[] | e].
  - rewrite setAuthState_run. cbn [ws set_ws trace set_trace].
    eexists (Ok tt), ls, _. split.
    + rewrite <- !app_assoc. reflexivity.
    + rewrite !sent_app, Htr, sent_isolated_calls by reflexivity.
      destruct (connector (ws w)); reflexivity.
  - eexists (Throw e), ls, _. split.
    + rewrite <- !app_assoc. reflexivity.
    + rewrite !sent_app, Htr. destruct (connector (ws w)); reflexivity.
Qed.

(** X8. [disconnect()] on an engine that is not NOT_CONNECTED leaves it
    NOT_CONNECTED with no connector and no timer, the reconnect counter at
    0, the time stamps at 0, the connection details at their defaults and
    the first-auth-state flag up; it hands nothing to the connector; the
    auth state is UNAUTHORIZED when the method returns.  The remembered
    token, the channel table and the channel objects are kept.  On an engine
    that is NOT_CONNECTED it does nothing, so a second [disconnect()] is
    always a no-op. *)
Theorem disconnect_tears_down
    (w : World) (Hs : connectionState (ws w) ≠ NOT_CONNECTED) :
  connectionState (ws (snd (disconnect w))) = NOT_CONNECTED
  ∧ connector (ws (snd (disconnect w))) = None
  ∧ timeoutIds (ws (snd (disconnect w))) = ∅
  ∧ reconnectAttempts (ws (snd (disconnect w))) = 0
  ∧ lastReceivedMillis (ws (snd (disconnect w))) = 0
  ∧ lastSentMillis (ws (snd (disconnect w))) = 0
  ∧ connectionDetails (ws (snd (disconnect w))) = DEFAULT_CONNECTION_DETAILS
  ∧ isFirstAuthState (ws (snd (disconnect w))) = true
  ∧ sent (trace (snd (disconnect w))) = sent (trace w)
  ∧ (fst (disconnect w) = Ok tt →
     authState (ws (snd (disconnect w))) = UNAUTHORIZED)
  ∧ lastSettedAuthToken (ws (snd (disconnect w))) = lastSettedAuthToken (ws w)
  ∧ channels (ws (snd (disconnect w))) = channels (ws w)
  ∧ heap (snd (disconnect w)) = heap w
  ∧ disconnect (snd (disconnect w)) = (Ok tt, snd (disconnect w)).
Proof.
  destruct (disconnect_shape w Hs) as (r & ls & tr & Hrun & Htr).
  rewrite Hrun. cbn [fst snd].
  destruct r as [[] | e]; cbn; rewrite ?sent_app, ?Htr, ?app_nil_r;
    (repeat split; try reflexivity; try discriminate);
    apply disconnect_noop; reflexivity.
Qed.

Lemma disconnect_tears_down_witness :
  connectionState (ws sample_world) ≠ NOT_CONNECTED
  ∧ timeoutIds (ws (snd (disconnect sample_world))) = ∅.
Proof.
  split; [vm_compute; discriminate |].
  apply (disconnect_tears_down sample_world). vm_compute; discriminate.
Defined.

(** ** reconnect and the closing of the transport *)

(** The world that an effective [reconnect] leaves; the RECONNECT timer is
    there only when the method returns. *)
Lemma reconnect_shape w :
  connectionState (ws w) ≠ NOT_CONNECTED → connector (ws w) ≠ None →
  ∃ r ls tr,
    reconnect w
    = (r,
       set_trace (trace w ++ ConnectorStop :: tr)
         (set_ws
            ((match r with
              | Ok _ =>
                  set_timeoutIds
                    (<["RECONNECT" :=
                         scheduled OnReconnect
                           ((reconnectAttempts (ws w) + 1) * 1000)]> ∅)
              | Throw _ => λ this, this
              end)
               (set_connectionStateChangeListeners ls
                  (set_connectionState CONNECTING
                     (set_reconnectAttempts (reconnectAttempts (ws w) + 1)
                        (set_isFirstAuthState true
                           (set_lastSentMillis 0
                              (set_lastReceivedMillis 0
                                 (set_connectionDetails DEFAULT_CONNECTION_DETAILS
                                    (set_timeoutIds ∅ (ws w))))))))))
            w))
    ∧ sent tr = [].
Proof.
  intros Hs Hc. rewrite (reconnect_run w Hs Hc). rewrite run_bind.
  match goal with |- context [setConnectionState CONNECTING ?x] =>
    destruct (setConnectionState_shape CONNECTING x)
      as (r & ls & tr & -> & Htr) end.
  cbn [ws set_ws trace set_trace].
  destruct r as [[] | e].
  - exec. rewrite schedule_run. cbn [ws set_ws trace set_trace].
    exists (Ok tt), ls, tr. split; [| exact Htr].
    rewrite <- !app_assoc. reflexivity.
  - exists (Throw e), ls, tr. split; [| exact Htr].
    rewrite <- !app_assoc. reflexivity.
Qed.

(** X9. A [reconnect()] that is not a no-op stops the connector first,
    leaves the engine CONNECTING with the connection details at their
    defaults, the time stamps at 0 and the first-auth-state flag up, and hands
    nothing to the connector.  When it returns, RECONNECT is the only timer of
    the registry; when a connection-state listener throws, the registry is
    empty.  The connector, the remembered token, the auth state, the channel
    table and the channel objects are kept. *)
Theorem reconnect_restarts
    (w : World) (Hs : connectionState (ws w) ≠ NOT_CONNECTED)
    (Hc : connector (ws w) ≠ None) :
  (∃ tr, trace (snd (reconnect w)) = trace w ++ ConnectorStop :: tr ∧ sent tr = [])
  ∧ connectionState (ws (snd (reconnect w))) = CONNECTING
  ∧ connectionDetails (ws (snd (reconnect w))) = DEFAULT_CONNECTION_DETAILS
  ∧ lastReceivedMillis (ws (snd (reconnect w))) = 0
  ∧ lastSentMillis (ws (snd (reconnect w))) = 0
  ∧ isFirstAuthState (ws (snd (reconnect w))) = true
  ∧ timeoutIds (ws (snd (reconnect w)))
    = match fst (reconnect w) with
      | Ok _ =>
          <["RECONNECT" :=
              scheduled OnReconnect ((reconnectAttempts (ws w) + 1) * 1000)]> ∅
      | Throw _ => ∅
      end
  ∧ connector (ws (snd (reconnect w))) = connector (ws w)
  ∧ lastSettedAuthToken (ws (snd (reconnect w))) = lastSettedAuthToken (ws w)
  ∧ authState (ws (snd (reconnect w))) = authState (ws w)
  ∧ channels (ws (snd (reconnect w))) = channels (ws w)
  ∧ heap (snd (reconnect w)) = heap w.
Proof.
  destruct (reconnect_shape w Hs Hc) as (r & ls & tr & Hrun & Htr).
  rewrite Hrun. cbn [fst snd].
  split; [exists tr; split; [reflexivity | exact Htr] |].
  destruct r as [[] | e]; cbn; repeat split; reflexivity.
Qed.

Lemma reconnect_restarts_witness :
  connectionState (ws sample_world) ≠ NOT_CONNECTED
  ∧ connector (ws sample_world) ≠ None
  ∧ connectionState (ws (snd (reconnect sample_world))) = CONNECTING.
Proof.
  split; [vm_compute; discriminate |]. split; [vm_compute; discriminate |].
  apply (reconnect_restarts sample_world); vm_compute; discriminate.
Defined.

(** X10. When the transport closes while the auth state is UNAUTHORIZED,
    the engine forgets the token and disconnects: from a state other than
    NOT_CONNECTED it ends NOT_CONNECTED with no connector and no timer, so no
    reconnect is pending.  With any other auth state it reconnects and keeps
    the token: from a state other than NOT_CONNECTED, with a connector, it
    ends CONNECTING with the reconnect counter incremented. *)
Theorem processTransportClose_disconnects_or_reconnects (w : World) :
  (authState (ws w) = UNAUTHORIZED →
   lastSettedAuthToken (ws (snd (processTransportClose w))) = None
   ∧ (connectionState (ws w) ≠ NOT_CONNECTED →
      connectionState (ws (snd (processTransportClose w))) = NOT_CONNECTED
      ∧ connector (ws (snd (processTransportClose w))) = None
      ∧ timeoutIds (ws (snd (processTransportClose w))) = ∅))
  ∧ (authState (ws w) ≠ UNAUTHORIZED →
     processTransportClose w = reconnect w
     ∧ lastSettedAuthToken (ws (snd (processTransportClose w)))
       = lastSettedAuthToken (ws w)
     ∧ (connectionState (ws w) ≠ NOT_CONNECTED → connector (ws w) ≠ None →
        connectionState (ws (snd (processTransportClose w))) = CONNECTING
        ∧ reconnectAttempts (ws (snd (processTransportClose w)))
          = reconnectAttempts (ws w) + 1)).
Proof.
  split.
  - intros Hu.
    assert (processTransportClose w
            = disconnect (set_ws (set_lastSettedAuthToken None (ws w)) w)) as ->.
    { unfold processTransportClose. rewrite run_bind. cbn [get_this].
      destruct (decide _) as [_ | Hn]; [| contradiction]. reflexivity. }
    set (w0 := set_ws _ w).
    destruct (decide (connectionState (ws w) = NOT_CONNECTED)) as [E | E].
    + rewrite (disconnect_noop w0 E). split; [reflexivity | contradiction].
    + destruct (disconnect_shape w0 E) as (r & ls & tr & -> & _).
      split; [destruct r; reflexivity |]. intros _.
      destruct r; repeat split; reflexivity.
  - intros Ha.
    assert (processTransportClose w = reconnect w) as ->.
    { unfold processTransportClose. rewrite run_bind. cbn [get_this].
      destruct (decide _) as [Hu | _]; [contradiction | reflexivity]. }
    split; [reflexivity |].
    destruct (decide (connectionState (ws w) = NOT_CONNECTED
                      ∨ connector (ws w) = None)) as [Hn | Hn].
    + rewrite (reconnect_noop w Hn). split; [reflexivity | tauto].
    + destruct (reconnect_shape w) as (r & ls & tr & -> & _); [tauto | tauto |].
      destruct r; repeat split; reflexivity.
Qed.

Lemma processTransportClose_disconnects_or_reconnects_witness :
  authState (ws sample_world) ≠ UNAUTHORIZED
  ∧ processTransportClose sample_world = reconnect sample_world.
Proof.
  split; [vm_compute; discriminate |].
  apply (proj2 (processTransportClose_disconnects_or_reconnects sample_world)).
  vm_compute; discriminate.
Defined.

(** ** The timer callbacks *)

Lemma publishError_shape e w :
  publishError e w
  = (Ok tt,
     set_trace
       (trace w ++
        if decide (errorListeners (ws w) = [])
        then [LoggerError "Unhandled dxLink error" (err_message e)]
        else isolated_calls e (λ l, ErrorListenerCalled l e)
               (LoggerError "Error listener error") (errorListeners (ws w))) w).
Proof.
  destruct (decide (errorListeners (ws w) = [])) as [E | E].
  - unfold publishError. rewrite run_bind. cbn [get_this]. rewrite E.
    reflexivity.
  - apply publishError_isolated, E.
Qed.

Lemma sent_publishError e (ls : list DXLinkErrorListener) :
  sent (if decide (ls = [])
        then [LoggerError "Unhandled dxLink error" (err_message e)]
        else isolated_calls e (λ l, ErrorListenerCalled l e)
               (LoggerError "Error listener error") ls) = [].
Proof.
  destruct (decide _); [reflexivity |].
  apply sent_isolated_calls; reflexivity.
Qed.

(** X11. The SETUP_TIMEOUT and AUTH_STATE_TIMEOUT callbacks, on an engine
    that is not NOT_CONNECTED: ERROR with error TIMEOUT and the message
    "No setup message received for <actionTimeout>s" (respectively "No auth
    state message ...") is the one message handed to the connector; the same
    error, its message followed by " from server", is published to the error
    listeners (or logged when there is none); then the engine disconnects: it
    ends NOT_CONNECTED with no connector and no timer. *)
Theorem timeout_callback_reports_and_disconnects
    (w : World) (what : string)
    (Hs : connectionState (ws w) ≠ NOT_CONNECTED) :
  (∃ tr,
     trace (snd (timeout_callback what w))
     = trace w
       ++ match connector (ws w) with
          | Some _ =>
              [ConnectorSend
                 (error_message "TIMEOUT" (timeout_error_message what (ws w)))]
          | None => []
          end
       ++ (let e := {| err_type := "TIMEOUT";
                       err_message :=
                         timeout_error_message what (ws w) +:+ " from server" |} in
           if decide (errorListeners (ws w) = [])
           then [LoggerError "Unhandled dxLink error" (err_message e)]
           else isolated_calls e (λ l, ErrorListenerCalled l e)
                  (LoggerError "Error listener error") (errorListeners (ws w)))
       ++ tr
     ∧ sent tr = [])
  ∧ connectionState (ws (snd (timeout_callback what w))) = NOT_CONNECTED
  ∧ connector (ws (snd (timeout_callback what w))) = None
  ∧ timeoutIds (ws (snd (timeout_callback what w))) = ∅
  ∧ run_callback OnSetupTimeout w = timeout_callback "setup" w
  ∧ run_callback OnAuthStateTimeout w = timeout_callback "auth state" w
  ∧ timeout_error_message "setup" (new_DXLinkWebSocket default_config)
    = "No setup message received for 10s".
Proof.
  unfold timeout_callback. rewrite run_bind. cbn [get_this].
  rewrite run_bind, sendMessage_run, run_bind, publishError_shape.
  match goal with |- context [disconnect ?x] =>
    destruct (disconnect_shape x Hs) as (r & ls & tr & -> & Htr) end.
  cbn [fst snd ws set_ws trace set_trace errorListeners set_lastSentMillis
       set_timeoutIds].
  split.
  - exists tr. split; [| exact Htr]. rewrite <- !app_assoc. reflexivity.
  - destruct r; repeat split; reflexivity.
Qed.

Lemma timeout_callback_reports_and_disconnects_witness :
  connectionState (ws awaiting_setup_world) ≠ NOT_CONNECTED
  ∧ connectionState (ws (snd (timeout_callback "setup" awaiting_setup_world)))
    = NOT_CONNECTED.
Proof.
  split; [vm_compute; discriminate |].
  apply (timeout_callback_reports_and_disconnects awaiting_setup_world "setup").
  vm_compute; discriminate.
Defined.

(** X12. [timeoutCheck] when the server has been silent for at least
    [timeoutMills], on an engine that is not NOT_CONNECTED and has a
    connector: the one message handed to the connector is ERROR with error
    TIMEOUT and the message "No keepalive received for <n>ms", [n] being the
    time since the last received message; then the engine reconnects: the
    connector is stopped, the state is CONNECTING and the reconnect counter
    is incremented. *)
Theorem timeoutCheck_expired_reconnects
    (w : World) (t : Z)
    (Hexp : (t ≤ clock w - lastReceivedMillis (ws w))%Z)
    (Hs : connectionState (ws w) ≠ NOT_CONNECTED)
    (Hc : connector (ws w) ≠ None) :
  (∃ tr,
     trace (snd (timeoutCheck t w))
     = trace w
       ++ ConnectorSend
            (error_message "TIMEOUT"
               ("No keepalive received for "
                +:+ pretty (clock w - lastReceivedMillis (ws w)) +:+ "ms"))
       :: ConnectorStop :: tr
     ∧ sent tr = [])
  ∧ connectionState (ws (snd (timeoutCheck t w))) = CONNECTING
  ∧ reconnectAttempts (ws (snd (timeoutCheck t w))) = reconnectAttempts (ws w) + 1
  ∧ (fst (timeoutCheck t w) = Ok tt →
     timeoutIds (ws (snd (timeoutCheck t w)))
     = <["RECONNECT" :=
           scheduled OnReconnect ((reconnectAttempts (ws w) + 1) * 1000)]> ∅).
Proof.
  unfold timeoutCheck. rewrite run_bind. cbn [Date_now].
  rewrite run_bind. cbn [get_this].
  destruct (Z.geb_spec (clock w - lastReceivedMillis (ws w)) t) as [_ | Hlt];
    [| lia].
  rewrite run_bind, sendMessage_run.
  destruct (connector (ws w)) as [conn |] eqn:Econn; [| contradiction].
  match goal with |- context [reconnect ?x] =>
    destruct (reconnect_shape x) as (r & ls & tr & -> & Htr) end.
  { exact Hs. }
  { cbn. rewrite Econn. discriminate. }
  cbn [fst snd ws set_ws trace set_trace].
  split.
  - exists tr. split; [| exact Htr]. rewrite <- !app_assoc. reflexivity.
  - destruct r; cbn; repeat split; try reflexivity. discriminate.
Qed.

Lemma timeoutCheck_expired_reconnects_witness :
  (60000 ≤ clock (set_clock 70000 sample_world)
           - lastReceivedMillis (ws (set_clock 70000 sample_world)))%Z
  ∧ connectionState (ws (set_clock 70000 sample_world)) ≠ NOT_CONNECTED
  ∧ connector (ws (set_clock 70000 sample_world)) ≠ None
  ∧ connectionState (ws (snd (timeoutCheck 60000 (set_clock 70000 sample_world))))
    = CONNECTING.
Proof.
  split; [vm_compute; discriminate |]. split; [vm_compute; discriminate |].
  split; [vm_compute; discriminate |].
  apply (timeoutCheck_expired_reconnects (set_clock 70000 sample_world) 60000);
    vm_compute; discriminate.
Defined.

(** X13. The KEEPALIVE timer callback sends one KEEPALIVE and leaves the
    KEEPALIVE timer armed again: all in all it does exactly what
    [sendMessage] does with a KEEPALIVE message (the second
    [scheduleKeepalive] of the callback changes nothing).  The RECONNECT
    callback starts the connector when there is one and does nothing
    otherwise. *)
Theorem keepalive_callback_sends_and_rearms (w : World) :
  run_callback OnKeepalive w = sendMessage keepalive_message w
  ∧ timeoutIds (ws (snd (run_callback OnKeepalive w))) !! "KEEPALIVE"
    = Some (scheduled OnKeepalive (keepaliveInterval (config (ws w)) * 1000))
  ∧ run_callback OnReconnect w
    = (Ok tt,
       match connector (ws w) with
       | Some _ => set_trace (trace w ++ [ConnectorStart]) w
       | None => w
       end).
Proof.
  assert (run_callback OnKeepalive w = sendMessage keepalive_message w) as Hk.
  { unfold run_callback. rewrite run_bind, sendMessage_run.
    unfold scheduleKeepalive. rewrite run_bind. cbn [get_this].
    rewrite schedule_run. cbn [ws set_ws timeoutIds set_timeoutIds
                               set_lastSentMillis config].
    rewrite insert_insert_eq. reflexivity. }
  rewrite Hk, sendMessage_run. cbn [snd ws set_ws timeoutIds set_timeoutIds
                                    set_lastSentMillis].
  rewrite lookup_insert_eq. split; [reflexivity |]. split; [reflexivity |].
  unfold run_callback. rewrite run_bind. cbn [get_this].
  destruct (connector (ws w)); reflexivity.
Qed.

(** ** The opening of the transport, setAuthToken and connect *)

Lemma sendAuthMessage_run token w :
  sendAuthMessage token w
  = sendMessage (auth_message token)
      (set_trace
         (trace w ++
          isolated_calls (AUTHORIZING, authState (ws w))
            (λ l, AuthListenerCalled l AUTHORIZING (authState (ws w)))
            (LoggerError "Auth state listener error")
            (authStateChangeListeners (ws w)))
         (set_ws (set_authState AUTHORIZING (ws w)) w)).
Proof.
  unfold sendAuthMessage. rewrite run_bind, setAuthState_run. reflexivity.
Qed.

(** X14. When the transport opens, [processTransportOpen] never throws. It
    schedules SETUP_TIMEOUT and AUTH_STATE_TIMEOUT at [actionTimeout * 1000]
    ms and leaves KEEPALIVE armed at [keepaliveInterval * 1000] ms; it hands
    the connector SETUP (version "<protocolVersion>-<clientVersion>",
    keepaliveTimeout, acceptKeepaliveTimeout) and, when a token is
    remembered, AUTH with that token right after it, and nothing else; with a
    token the auth state becomes AUTHORIZING, without one it stays as it was.
    The connection state and the token do not change. *)
Theorem processTransportOpen_sends_setup_then_auth (w : World) :
  fst (processTransportOpen w) = Ok tt
  ∧ sent (trace (snd (processTransportOpen w)))
    = sent (trace w)
      ++ to_connector (ws w)
           (setup_message (ws w)
            :: match lastSettedAuthToken (ws w) with
               | Some token => [auth_message token]
               | None => []
               end)
  ∧ timeoutIds (ws (snd (processTransportOpen w))) !! "SETUP_TIMEOUT"
    = Some (scheduled OnSetupTimeout (actionTimeout (config (ws w)) * 1000))
  ∧ timeoutIds (ws (snd (processTransportOpen w))) !! "AUTH_STATE_TIMEOUT"
    = Some (scheduled OnAuthStateTimeout (actionTimeout (config (ws w)) * 1000))
  ∧ timeoutIds (ws (snd (processTransportOpen w))) !! "KEEPALIVE"
    = Some (scheduled OnKeepalive (keepaliveInterval (config (ws w)) * 1000))
  ∧ authState (ws (snd (processTransportOpen w)))
    = match lastSettedAuthToken (ws w) with
      | Some _ => AUTHORIZING
      | None => authState (ws w)
      end
  ∧ connectionState (ws (snd (processTransportOpen w))) = connectionState (ws w)
  ∧ lastSettedAuthToken (ws (snd (processTransportOpen w)))
    = lastSettedAuthToken (ws w).
Proof.
  unfold processTransportOpen. rewrite run_bind. cbn [get_this].
  rewrite run_bind, schedule_run, run_bind, sendMessage_run.
  rewrite run_bind, schedule_run, run_bind. cbn [get_this].
  destruct w as [this hp clk tr pr].
  cbn [ws set_ws trace set_trace clock heap promises].
  change (lastSettedAuthToken (set_timeoutIds _ (set_lastSentMillis _ (set_timeoutIds _ (set_timeoutIds _ this)))))
    with (lastSettedAuthToken this).
  unfold to_connector.
  destruct (lastSettedAuthToken this) as [token |] eqn:Htoken.
  - rewrite sendAuthMessage_run, sendMessage_run.
    destruct this; cbn in *.
    repeat match goal with
           | |- context [omap ?f ?x] => change (omap f x) with (sent x)
           | |- context [flat_map ?f ?x] =>
               change (flat_map f x)
                 with (isolated_calls (AUTHORIZING, authState0)
                         (λ l, AuthListenerCalled l AUTHORIZING authState0)
                         (LoggerError "Auth state listener error") x)
           end.
    rewrite !sent_app, sent_isolated_calls by reflexivity.
    rewrite lookup_insert_eq.
    rewrite !(lookup_insert_ne _ "KEEPALIVE"), !lookup_insert_eq by discriminate.
    rewrite !(lookup_insert_ne _ "AUTH_STATE_TIMEOUT"),
      !(lookup_insert_ne _ "KEEPALIVE"), lookup_insert_eq by discriminate.
    destruct connector0; cbn; rewrite ?app_nil_r, <- ?app_assoc;
      repeat split; first [reflexivity | assumption].
  - destruct this; cbn in *.
    change (omap _ ?x) with (sent x). rewrite !sent_app.
    rewrite lookup_insert_eq.
    rewrite !(lookup_insert_ne _ "AUTH_STATE_TIMEOUT"), !lookup_insert_eq
      by discriminate.
    rewrite !(lookup_insert_ne _ "KEEPALIVE"), lookup_insert_eq by discriminate.
    destruct connector0; cbn; rewrite ?app_nil_r;
      repeat split; first [reflexivity | assumption].
Qed.

(** X15. [setAuthToken] never throws and always remembers the token. Only
    when the connection state is CONNECTED does it set the auth state to
    AUTHORIZING and hand the connector an AUTH with the token; in any other
    state nothing is sent and the auth state stays as it was. The connection
    state does not change. *)
Theorem setAuthToken_sends_auth_only_when_connected (token : string) (w : World) :
  fst (setAuthToken token w) = Ok tt
  ∧ lastSettedAuthToken (ws (snd (setAuthToken token w))) = Some token
  ∧ sent (trace (snd (setAuthToken token w)))
    = sent (trace w)
      ++ (if decide (connectionState (ws w) = CONNECTED)
          then to_connector (ws w) [auth_message token] else [])
  ∧ authState (ws (snd (setAuthToken token w)))
    = (if decide (connectionState (ws w) = CONNECTED)
       then AUTHORIZING else authState (ws w))
  ∧ connectionState (ws (snd (setAuthToken token w))) = connectionState (ws w).
Proof.
  unfold setAuthToken. exec.
  destruct w as [this hp clk tr pr].
  cbn [ws set_ws trace set_trace clock heap promises].
  change (connectionState (set_lastSettedAuthToken _ this))
    with (connectionState this).
  unfold to_connector.
  destruct (decide (connectionState this = CONNECTED)) as [Hc | Hc].
  - rewrite sendAuthMessage_run, sendMessage_run.
    destruct this; cbn in *.
    repeat match goal with
           | |- context [omap ?f ?x] => change (omap f x) with (sent x)
           | |- context [flat_map ?f ?x] =>
               change (flat_map f x)
                 with (isolated_calls (AUTHORIZING, authState0)
                         (λ l, AuthListenerCalled l AUTHORIZING authState0)
                         (LoggerError "Auth state listener error") x)
           end.
    rewrite !sent_app, sent_isolated_calls by reflexivity.
    destruct connector0; cbn; rewrite ?app_nil_r;
      repeat split; first [reflexivity | assumption].
  - cbn. rewrite app_nil_r. repeat split; reflexivity.
Qed.

Lemma try_catch_run {W} (body : SE W unit) handler (w : W) :
  try_catch body handler w
  = match body w with
    | (Ok a, w') => (Ok a, w')
    | (Throw e, w') => handler e w'
    end.
Proof. reflexivity. Qed.

(** X16. [connect] never throws: it always returns its promise, whatever the
    listeners called on the way do. Called with the URL the engine is already
    connected or connecting to, it changes nothing and the promise is
    resolved at once. *)
Theorem connect_returns_promise (url : string) (w : World) :
  fst (connect url w) = Ok (promises w)
  ∧ (getUrl <$> connector (ws w) = Some url →
     snd (connect url w)
     = set_trace (trace w ++ [PromiseResolved (promises w)])
         (set_promises (S (promises w)) w)).
Proof.
  unfold connect. rewrite run_bind. cbn [new_promise].
  rewrite run_bind, try_catch_run. split.
  - match goal with
    | |- context [match ?b ?x with _ => _ end] => destruct (b x) as [[[] | e] w']
    end; reflexivity.
  - intros Hurl. rewrite run_bind. cbn [get_this ws set_promises].
    destruct (decide _) as [_ | Hne]; [reflexivity | contradiction].
Qed.

Lemma connect_returns_promise_witness :
  fst (connect "wss://x" sample_world) = Ok (promises sample_world)
  ∧ snd (connect "wss://x" sample_world)
    = set_trace (trace sample_world ++ [PromiseResolved (promises sample_world)])
        (set_promises (S (promises sample_world)) sample_world).
Proof.
  split.
  - exact (proj1 (connect_returns_promise "wss://x" sample_world)).
  - refine (proj2 (connect_returns_promise "wss://x" sample_world) _).
    vm_compute. reflexivity.
Defined.

Lemma for_of_connection_listeners_promises ls s prev n w r w' :
  for_of ls (λ listener, call_connection_listener listener s prev) w = (r, w') →
  for_of ls (λ listener, call_connection_listener listener s prev)
    (set_promises n w)
  = (r, set_promises n w').
Proof.
  revert w. induction ls as [| l ls IH]; intros w.
  { intros [= <- <-]. reflexivity. }
  cbn [for_of]. rewrite !run_bind.
  destruct l as [l | p].
  - change (call_connection_listener (UserListener l) s prev)
      with (call l (s, prev) (ConnectionListenerCalled (lid l) s prev)).
    rewrite !call_run. cbn [trace set_promises].
    destruct (lcall l (s, prev)).
    + intros [= <- <-]. reflexivity.
    + apply (IH (set_trace _ w)).
  - change (call_connection_listener (ConnectListener p) s prev)
      with (removeConnectionStateChangeListener (ConnectListener p);;
            match s with
            | CONNECTED => emit (PromiseResolved p)
            | NOT_CONNECTED => emit (PromiseRejected p "Error: Connection failed")
            | CONNECTING => mret tt
            end : M unit).
    unfold removeConnectionStateChangeListener. rewrite !run_bind.
    cbn [update ws set_promises].
    destruct s; cbn [emit mret SE_ret trace set_ws set_promises];
      match goal with |- for_of _ _ ?x = _ → _ => apply (IH x) end.
Qed.

Lemma setConnectionState_promises s n w :
  setConnectionState s (set_promises n w)
  = (fst (setConnectionState s w), set_promises n (snd (setConnectionState s w))).
Proof.
  destruct (setConnectionState s w) as [r w'] eqn:E. cbn [fst snd].
  revert E. unfold setConnectionState. rewrite !run_bind.
  cbn [get_this ws set_promises].
  destruct (decide _); [intros [= <- <-]; reflexivity |].
  rewrite !run_bind. cbn [update ws set_promises].
  apply (for_of_connection_listeners_promises _ _ _ _ (set_ws _ w)).
Qed.

Lemma connect_fresh_run url w :
  connectionState (ws w) = NOT_CONNECTED →
  getUrl <$> connector (ws w) ≠ Some url →
  ∃ r ls tr,
    fst (setConnectionState CONNECTING w) = r
    ∧ sent tr = []
    ∧ connect url w
      = (Ok (promises w),
         match r with
         | Ok _ =>
             set_promises (S (promises w))
               (set_trace (trace w ++ tr ++ [ConnectorCreated url; ConnectorStart])
                  (set_ws
                     (set_connectionStateChangeListeners
                        (set_add same_cs_listener (ConnectListener (promises w)) ls)
                        (set_connector (Some {| getUrl := url |})
                           (set_connectionState CONNECTING (ws w))))
                     w))
         | Throw e =>
             set_promises (S (promises w))
               (set_trace (trace w ++ tr ++ [PromiseRejected (promises w) e])
                  (set_ws
                     (set_connectionStateChangeListeners ls
                        (set_connectionState CONNECTING (ws w)))
                     w))
         end).
Proof.
  intros Hcs Hurl.
  destruct (setConnectionState_shape CONNECTING w) as (r & ls & tr & E & Hs).
  exists r, ls, tr. split; [rewrite E; reflexivity |]. split; [exact Hs |].
  unfold connect. rewrite run_bind. cbn [new_promise].
  rewrite run_bind, try_catch_run, run_bind. cbn [get_this ws set_promises].
  destruct (decide _) as [? | _]; [contradiction |].
  rewrite run_bind, disconnect_noop by exact Hcs.
  rewrite run_bind, setConnectionState_promises, E. cbn [fst snd].
  destruct r as [[] | e].
  - exec. cbn [mret SE_ret]. unfold addConnectionStateChangeListener.
    cbn [update]. destruct w as [[] ? ? ? ?]. cbn. rewrite <- !app_assoc.
    reflexivity.
  - cbn [emit]. destruct w as [[] ? ? ? ?]. cbn. rewrite <- !app_assoc.
    reflexivity.
Qed.

Lemma set_add_elem (p : nat) (ls : list DXLinkConnectionStateChangeListener) :
  ConnectListener p ∈ set_add same_cs_listener (ConnectListener p) ls.
Proof.
  unfold set_add.
  destruct (existsb _ ls) eqn:E; [| set_solver].
  apply existsb_exists in E as (y & Hy & Hsame).
  destruct y as [l | q]; [discriminate |].
  cbn in Hsame. apply Nat.eqb_eq in Hsame as <-.
  apply list_elem_of_In, Hy.
Qed.

(** X17. A first [connect]: in state NOT_CONNECTED, with no connection to the
    URL yet and connection-state listeners that all return on
    (CONNECTING, NOT_CONNECTED), [connect] moves the engine to CONNECTING,
    creates a connector for the URL and starts it (after the listeners were
    told), registers the listener that will settle the returned promise, and
    sends nothing. *)
Theorem connect_starts_connecting (url : string) (w : World) :
  connectionState (ws w) = NOT_CONNECTED →
  getUrl <$> connector (ws w) ≠ Some url →
  (∀ l, UserListener l ∈ connectionStateChangeListeners (ws w) →
        lcall l (CONNECTING, NOT_CONNECTED) = None) →
  fst (connect url w) = Ok (promises w)
  ∧ connectionState (ws (snd (connect url w))) = CONNECTING
  ∧ connector (ws (snd (connect url w))) = Some {| getUrl := url |}
  ∧ ConnectListener (promises w)
    ∈ connectionStateChangeListeners (ws (snd (connect url w)))
  ∧ (∃ tr, trace (snd (connect url w))
           = trace w ++ tr ++ [ConnectorCreated url; ConnectorStart])
  ∧ sent (trace (snd (connect url w))) = sent (trace w).
Proof.
  intros Hcs Hurl Hret.
  destruct (connect_fresh_run url w Hcs Hurl) as (r & ls & tr & Hr & Hs & E).
  rewrite setConnectionState_returns in Hr
    by (intros l Hl; rewrite Hcs; apply Hret, Hl).
  subst r. rewrite E. cbn.
  refine (conj eq_refl (conj eq_refl (conj eq_refl (conj _ (conj _ _))))).
  - apply set_add_elem.
  - exists tr. reflexivity.
  - change (omap _ ?x) with (sent x). rewrite !sent_app, Hs. cbn.
    rewrite app_nil_r. reflexivity.
Qed.

Lemma connect_starts_connecting_witness :
  let w := initial default_config in
  fst (connect "wss://x" w) = Ok (promises w)
  ∧ connectionState (ws (snd (connect "wss://x" w))) = CONNECTING
  ∧ connector (ws (snd (connect "wss://x" w))) = Some {| getUrl := "wss://x" |}
  ∧ ConnectListener (promises w)
    ∈ connectionStateChangeListeners (ws (snd (connect "wss://x" w)))
  ∧ (∃ tr, trace (snd (connect "wss://x" w))
           = trace w ++ tr ++ [ConnectorCreated "wss://x"; ConnectorStart])
  ∧ sent (trace (snd (connect "wss://x" w))) = sent (trace w).
Proof.
  apply (connect_starts_connecting "wss://x" (initial default_config)).
  - reflexivity.
  - discriminate.
  - intros l Hl. vm_compute in Hl. inversion Hl.
Defined.

(** X18. When a connection-state listener throws while a first [connect]
    announces CONNECTING, the exception does not escape: the returned
    promise is rejected with it, as the last effect of the call. The engine
    is left in state CONNECTING, with no connector created and nothing
    sent. *)
Theorem connect_listener_exception_rejects (url : string) (w : World) (e : Exn) :
  connectionState (ws w) = NOT_CONNECTED →
  getUrl <$> connector (ws w) ≠ Some url →
  fst (setConnectionState CONNECTING w) = Throw e →
  fst (connect url w) = Ok (promises w)
  ∧ (∃ tr, trace (snd (connect url w))
           = trace w ++ tr ++ [PromiseRejected (promises w) e])
  ∧ sent (trace (snd (connect url w))) = sent (trace w)
  ∧ connectionState (ws (snd (connect url w))) = CONNECTING
  ∧ connector (ws (snd (connect url w))) = connector (ws w).
Proof.
  intros Hcs Hurl Hthrow.
  destruct (connect_fresh_run url w Hcs Hurl) as (r & ls & tr & Hr & Hs & E).
  rewrite Hthrow in Hr. subst r. rewrite E. cbn.
  refine (conj eq_refl (conj _ (conj _ (conj eq_refl eq_refl)))).
  - exists tr. reflexivity.
  - change (omap _ ?x) with (sent x). rewrite !sent_app, Hs. cbn.
    rewrite app_nil_r. reflexivity.
Qed.

Lemma connect_listener_exception_rejects_witness :
  let w := run (initial default_config)
             [(0, AddConnectionStateChangeListener
                    (UserListener (thrower 1 "boom")))] in
  fst (connect "wss://x" w) = Ok (promises w)
  ∧ (∃ tr, trace (snd (connect "wss://x" w))
           = trace w ++ tr ++ [PromiseRejected (promises w) "boom"])
  ∧ sent (trace (snd (connect "wss://x" w))) = sent (trace w)
  ∧ connectionState (ws (snd (connect "wss://x" w))) = CONNECTING
  ∧ connector (ws (snd (connect "wss://x" w))) = connector (ws w).
Proof.
  apply (connect_listener_exception_rejects "wss://x"
           (run (initial default_config)
              [(0, AddConnectionStateChangeListener
                     (UserListener (thrower 1 "boom")))]) "boom").
  - reflexivity.
  - discriminate.
  - vm_compute. reflexivity.
Defined.

(** ** The listener of connect *)

(** The fan-out over listeners that all return: the listeners of [connect]
    among them remove themselves one after the other. *)
Lemma for_of_connection_listeners_run ls s prev w :
  (∀ l, UserListener l ∈ ls → lcall l (s, prev) = None) →
  for_of ls (λ listener, call_connection_listener listener s prev) w
  = (Ok tt,
     set_trace (trace w ++ flat_map (listener_effects s prev) ls)
       (set_ws
          (set_connectionStateChangeListeners
             (foldl (λ acc l,
                       if is_user_listener l then acc
                       else set_delete same_cs_listener l acc)
                (connectionStateChangeListeners (ws w)) ls)
             (ws w))
          w)).
Proof.
  revert w. induction ls as [| l ls IH]; intros w Hret.
  { cbn. rewrite world_eta. reflexivity. }
  cbn [for_of]. rewrite run_bind.
  destruct l as [l | p].
  - change (call_connection_listener (UserListener l) s prev)
      with (call l (s, prev) (ConnectionListenerCalled (lid l) s prev)).
    rewrite call_run, (Hret l) by set_solver.
    rewrite IH by (intros; apply Hret; set_solver).
    destruct w as [[] ? ? ? ?]. cbn. rewrite <- app_assoc. reflexivity.
  - change (call_connection_listener (ConnectListener p) s prev)
      with (removeConnectionStateChangeListener (ConnectListener p);;
            match s with
            | CONNECTED => emit (PromiseResolved p)
            | NOT_CONNECTED => emit (PromiseRejected p "Error: Connection failed")
            | CONNECTING => mret tt
            end : M unit).
    unfold removeConnectionStateChangeListener. rewrite run_bind.
    cbn [update].
    destruct s; cbn [emit mret SE_ret];
      (rewrite IH by (intros; apply Hret; set_solver));
      destruct w as [[] ? ? ? ?]; cbn; rewrite <- ?app_assoc, ?app_nil_r;
      reflexivity.
Qed.

Lemma foldl_self_removal (ls acc : list DXLinkConnectionStateChangeListener) :
  foldl (λ acc l,
           if is_user_listener l then acc
           else set_delete same_cs_listener l acc) acc ls
  = filter (λ y, is_user_listener y
                 || negb (existsb (λ l, negb (is_user_listener l)
                                        && same_cs_listener l y) ls) = true)
      acc.
Proof.
  revert acc. induction ls as [| l ls IH]; intros acc.
  { cbn [foldl existsb]. symmetry. apply filter_all. intros y.
    destruct (is_user_listener y); reflexivity. }
  cbn [foldl]. rewrite IH.
  destruct (is_user_listener l) eqn:El.
  - apply filter_ext_in. intros y _. cbn [existsb]. rewrite El. reflexivity.
  - unfold set_delete. rewrite list_filter_filter.
    apply filter_ext_in. intros y _. cbn [existsb]. rewrite El. cbn [negb andb].
    destruct l as [? | p]; [discriminate |].
    destruct y as [? | q]; cbn; [intuition congruence |].
    destruct (p =? q)%nat, (existsb _ ls); cbn; intuition congruence.
Qed.

Lemma self_removal_leaves_user_listeners
    (ls : list DXLinkConnectionStateChangeListener) :
  filter (λ y, is_user_listener y
               || negb (existsb (λ l, negb (is_user_listener l)
                                      && same_cs_listener l y) ls) = true)
    ls
  = filter (λ y, is_user_listener y = true) ls.
Proof.
  apply filter_ext_in. intros y Hy.
  destruct y as [l | p]; cbn [is_user_listener orb]; [tauto |].
  split; [| discriminate]. intros Hk.
  apply negb_true_iff, not_true_iff_false in Hk. exfalso. apply Hk.
  apply existsb_exists. exists (ConnectListener p). split.
  - apply list_elem_of_In, Hy.
  - cbn. apply Nat.eqb_refl.
Qed.

(** X19. A change of the connection state, told to listeners that all
    return, calls them in the order of their registration with the new and
    the previous state. Every listener that [connect] registered for its
    promise resolves the promise when the new state is CONNECTED and rejects
    it with 'Connection failed' when it is NOT_CONNECTED, and in every case
    removes itself; the listeners of the caller stay registered. *)
Theorem state_change_settles_connect_promises
    (s : DXLinkConnectionState) (w : World) :
  connectionState (ws w) ≠ s →
  (∀ l, UserListener l ∈ connectionStateChangeListeners (ws w) →
        lcall l (s, connectionState (ws w)) = None) →
  setConnectionState s w
  = (Ok tt,
     set_trace
       (trace w ++ flat_map (listener_effects s (connectionState (ws w)))
                     (connectionStateChangeListeners (ws w)))
       (set_ws
          (set_connectionStateChangeListeners
             (filter (λ l, is_user_listener l = true)
                (connectionStateChangeListeners (ws w)))
             (set_connectionState s (ws w)))
          w)).
Proof.
  intros Hne Hret. unfold setConnectionState. rewrite run_bind. cbn [get_this].
  destruct (decide _) as [? | _]; [contradiction |].
  rewrite run_bind. cbn [update].
  rewrite for_of_connection_listeners_run by exact Hret.
  cbn [ws set_ws trace].
  change (connectionStateChangeListeners (set_connectionState s (ws w)))
    with (connectionStateChangeListeners (ws w)).
  rewrite foldl_self_removal, self_removal_leaves_user_listeners.
  destruct w as [[] ? ? ? ?]. reflexivity.
Qed.

Lemma state_change_settles_connect_promises_witness :
  setConnectionState CONNECTED awaiting_setup_world
  = (Ok tt,
     set_trace
       (trace awaiting_setup_world
        ++ flat_map (listener_effects CONNECTED
                       (connectionState (ws awaiting_setup_world)))
             (connectionStateChangeListeners (ws awaiting_setup_world)))
       (set_ws
          (set_connectionStateChangeListeners
             (filter (λ l, is_user_listener l = true)
                (connectionStateChangeListeners (ws awaiting_setup_world)))
             (set_connectionState CONNECTED (ws awaiting_setup_world)))
          awaiting_setup_world))
  ∧ connectionStateChangeListeners (ws awaiting_setup_world) = [ConnectListener 0].
Proof.
  split.
  - apply (state_change_settles_connect_promises CONNECTED awaiting_setup_world).
    + discriminate.
    + intros l Hl.
      change (UserListener l ∈ [ConnectListener 0]) in Hl.
      apply list_elem_of_singleton in Hl. discriminate.
  - reflexivity.
Defined.

(* ===================================================================== *)
(** * The channel table in every run                                       *)
(* ===================================================================== *)

Section maintains.
Context (I : World → Prop).

Lemma maintains_ret {A} (a : A) : maintains I (mret a).
Proof. intros w H. exact H. Qed.

Lemma maintains_throw {A} (e : Exn) : maintains I (throw e : M A).
Proof. intros w H. exact H. Qed.

Lemma maintains_bind {A B} (m : M A) (f : A → M B) :
maintains I m → (∀ a, maintains I (f a)) → maintains I (m ≫= f).
Proof.
intros Hm Hf w H. rewrite run_bind. specialize (Hm w H).
destruct (m w) as [[a | e] w']; cbn [snd] in *; [apply Hf |]; assumption.
Qed.

Lemma maintains_try_catch (body : M unit) (handler : Exn → M unit) :
maintains I body → (∀ e, maintains I (handler e)) →
maintains I (try_catch body handler).
Proof.
intros Hm Hf w H. unfold try_catch. specialize (Hm w H).
destruct (body w) as [[a | e] w']; cbn [snd] in *; [| apply Hf]; assumption.
Qed.

Lemma maintains_for_of {A} (xs : list A) (body : A → M unit) :
(∀ x, maintains I (body x)) → maintains I (for_of xs body).
Proof.
intros Hb. induction xs as [| x xs IH]; cbn [for_of].
- apply maintains_ret.
- apply maintains_bind; [apply Hb | intros _; exact IH].
Qed.

Lemma maintains_get_this : maintains I get_this.
Proof. intros w H. exact H. Qed.

Lemma maintains_Date_now : maintains I Date_now.
Proof. intros w H. exact H. Qed.

Lemma maintains_get_channel ref : maintains I (get_channel ref).
Proof. intros w H. unfold get_channel. destruct (heap w !! ref); exact H. Qed.
End maintains.

Lemma table_emit e : maintains table_inv (emit e).
Proof. intros w H. exact H. Qed.

Lemma table_new_promise : maintains table_inv new_promise.
Proof. intros w H. exact H. Qed.

Lemma table_call {A} (l : Listener A) (args : A) (e : Effect) :
  maintains table_inv (call l args e).
Proof.
  unfold call. apply maintains_bind; [apply table_emit | intros _].
  destruct (lcall l args); [apply maintains_throw | apply maintains_ret].
Qed.

(** An assignment to a field of the engine other than the table. *)
Lemma table_update f :
  (∀ this, channels (f this) = channels this) →
  maintains table_inv (update f).
Proof.
  intros Hf w (Hnd & Hin & Hid). unfold table_inv. cbn. rewrite Hf.
  auto.
Qed.

(** An assignment to a field of a channel object other than its id. *)
Lemma table_update_channel ref f :
  (∀ c, ChannelObject.id (f c) = ChannelObject.id c) →
  maintains table_inv (update_channel ref f).
Proof.
  intros Hf w (Hnd & Hin & Hid). unfold table_inv. cbn.
  split; [exact Hnd |]. split.
  - intros k Hk. destruct (decide (k = ref)) as [-> | Hne].
    + rewrite lookup_alter_eq. destruct (Hin ref Hk) as [c ->]. eauto.
    + rewrite lookup_alter_ne by congruence. apply Hin, Hk.
  - intros k c. destruct (decide (k = ref)) as [-> | Hne].
    + rewrite lookup_alter_eq. destruct (heap w !! ref) as [c0 |] eqn:E;
        [| discriminate].
      intros [= <-]. rewrite Hf. apply Hid, E.
    + rewrite lookup_alter_ne by congruence. apply Hid.
Qed.

(** [this.channels.delete(id)] *)
Lemma table_delete (P : Z → Prop) `{!∀ k, Decision (P k)} :
  maintains table_inv
    (update (λ this, set_channels (filter P (channels this)) this)).
Proof.
  intros w (Hnd & Hin & Hid). unfold table_inv. cbn.
  split; [apply NoDup_filter, Hnd |]. split; [| exact Hid].
  intros k Hk. apply list_elem_of_filter in Hk as [_ Hk]. apply Hin, Hk.
Qed.

(** [new Channel(id, ...)] followed by [this.channels.set(id, channel)] *)
Lemma table_set k c :
  ChannelObject.id c = k →
  maintains table_inv
    (allocate k c;;
     update (λ this,
       set_channels (if bool_decide (k ∈ channels this) then channels this
                     else channels this ++ [k]) this)).
Proof.
  intros Hc w (Hnd & Hin & Hid). rewrite run_bind. unfold table_inv. cbn.
  split; [| split].
  - destruct (bool_decide_reflect (k ∈ channels (ws w))) as [Hk | Hk];
      [exact Hnd |].
    apply NoDup_app. split; [exact Hnd |]. split; [| apply NoDup_singleton].
    intros x Hx Hx'. apply list_elem_of_singleton in Hx' as ->. contradiction.
  - intros x Hx. destruct (decide (x = k)) as [-> | Hne].
    + rewrite lookup_insert_eq. eauto.
    + rewrite lookup_insert_ne by congruence. apply Hin.
      destruct (bool_decide (k ∈ channels (ws w))); [exact Hx |].
      apply elem_of_app in Hx as [Hx | Hx]; [exact Hx |].
      apply list_elem_of_singleton in Hx. contradiction.
  - intros x c'. destruct (decide (x = k)) as [-> | Hne].
    + rewrite lookup_insert_eq. intros [= <-]. exact Hc.
    + rewrite lookup_insert_ne by congruence. apply Hid.
Qed.

Create HintDb table discriminated.

Ltac table_step :=
  first
    [ apply maintains_ret | apply maintains_throw | apply maintains_get_this
    | apply maintains_Date_now | apply table_emit | apply table_new_promise
    | apply maintains_get_channel | apply table_call
    | solve [eauto with table]
    | apply table_update; intros ?; reflexivity
    | apply table_update_channel; intros ?; reflexivity
    | apply maintains_bind; [| intros ?]
    | apply maintains_try_catch; [| intros ?]
    | apply maintains_for_of; intros ?
    | match goal with
      | |- maintains _ (if ?c then _ else _) => destruct c
      | |- maintains _ (match ?x with _ => _ end) => destruct x
      end ].

Ltac table_auto := repeat table_step.

Lemma table_cancelSchedule key : maintains table_inv (cancelSchedule key).
Proof. unfold cancelSchedule. table_auto. Qed.
#[export] Hint Resolve table_cancelSchedule : table.

Lemma table_schedule key cb t : maintains table_inv (schedule key cb t).
Proof. unfold schedule. table_auto. Qed.
#[export] Hint Resolve table_schedule : table.

Lemma table_scheduleKeepalive : maintains table_inv scheduleKeepalive.
Proof. unfold scheduleKeepalive. table_auto. Qed.
#[export] Hint Resolve table_scheduleKeepalive : table.

Lemma table_sendMessage m : maintains table_inv (sendMessage m).
Proof. unfold sendMessage. table_auto. Qed.
#[export] Hint Resolve table_sendMessage : table.

Lemma table_cancelAllSchedules : maintains table_inv cancelAllSchedules.
Proof. unfold cancelAllSchedules. table_auto. Qed.
#[export] Hint Resolve table_cancelAllSchedules : table.

Lemma table_listener_sets :
  (∀ l, maintains table_inv (addConnectionStateChangeListener l)) ∧
  (∀ l, maintains table_inv (removeConnectionStateChangeListener l)) ∧
  (∀ l, maintains table_inv (addAuthStateChangeListener l)) ∧
  (∀ l, maintains table_inv (removeAuthStateChangeListener l)) ∧
  (∀ l, maintains table_inv (addErrorListener l)) ∧
  (∀ l, maintains table_inv (removeErrorListener l)).
Proof. repeat apply conj; intros l; apply table_update; intros ?; reflexivity. Qed.

Lemma table_call_connection_listener l new prev :
  maintains table_inv (call_connection_listener l new prev).
Proof.
  unfold call_connection_listener. destruct l as [u | p].
  - apply table_call.
  - apply maintains_bind; [apply table_listener_sets | intros _].
    destruct new; table_auto.
Qed.
#[export] Hint Resolve table_call_connection_listener : table.

Lemma table_setConnectionState s : maintains table_inv (setConnectionState s).
Proof. unfold setConnectionState. table_auto. Qed.
#[export] Hint Resolve table_setConnectionState : table.

Lemma table_setAuthState s : maintains table_inv (setAuthState s).
Proof. unfold setAuthState. table_auto. Qed.
#[export] Hint Resolve table_setAuthState : table.

Lemma table_sendAuthMessage token : maintains table_inv (sendAuthMessage token).
Proof. unfold sendAuthMessage. table_auto. Qed.
#[export] Hint Resolve table_sendAuthMessage : table.

Lemma table_publishError e : maintains table_inv (publishError e).
Proof. unfold publishError. table_auto. Qed.
#[export] Hint Resolve table_publishError : table.

Lemma table_reconnect : maintains table_inv reconnect.
Proof. unfold reconnect. table_auto. Qed.
#[export] Hint Resolve table_reconnect : table.

Lemma table_disconnect : maintains table_inv disconnect.
Proof. unfold disconnect. table_auto. Qed.
#[export] Hint Resolve table_disconnect : table.

Lemma table_connect url : maintains table_inv (connect url).
Proof. unfold connect. table_auto. Qed.
#[export] Hint Resolve table_connect : table.

Lemma table_setAuthToken token : maintains table_inv (setAuthToken token).
Proof. unfold setAuthToken. table_auto. Qed.
#[export] Hint Resolve table_setAuthToken : table.

Lemma table_Channel_clear c : maintains table_inv (Channel.clear c).
Proof. unfold Channel.clear. table_auto. Qed.
#[export] Hint Resolve table_Channel_clear : table.

Lemma table_Channel_setStatus c s : maintains table_inv (Channel.setStatus c s).
Proof. unfold Channel.setStatus. table_auto. Qed.
#[export] Hint Resolve table_Channel_setStatus : table.

Lemma table_Channel_send c m : maintains table_inv (Channel.send sendMessage c m).
Proof. unfold Channel.send. table_auto. Qed.
#[export] Hint Resolve table_Channel_send : table.

Lemma table_Channel_close c : maintains table_inv (Channel.close sendMessage c).
Proof. unfold Channel.close. table_auto. Qed.

Lemma table_Channel_error c e : maintains table_inv (Channel.error sendMessage c e).
Proof. unfold Channel.error. table_auto. Qed.

Lemma table_Channel_processPayloadMessage c m :
  maintains table_inv (Channel.processPayloadMessage c m).
Proof. unfold Channel.processPayloadMessage. table_auto. Qed.

Lemma table_Channel_processStatus c :
  maintains table_inv (Channel.processStatusOpened c) ∧
  maintains table_inv (Channel.processStatusRequested c) ∧
  maintains table_inv (Channel.processStatusClosed c).
Proof.
  unfold Channel.processStatusOpened, Channel.processStatusRequested,
    Channel.processStatusClosed.
  repeat apply conj; table_auto.
Qed.

Lemma table_Channel_processError c e :
  maintains table_inv (Channel.processError c e).
Proof. unfold Channel.processError. table_auto. Qed.

Lemma table_Channel_listener_sets c :
  (∀ l, maintains table_inv (Channel.addMessageListener c l)) ∧
  (∀ l, maintains table_inv (Channel.removeMessageListener c l)) ∧
  (∀ l, maintains table_inv (Channel.addStatusListener c l)) ∧
  (∀ l, maintains table_inv (Channel.removeStatusListener c l)) ∧
  (∀ l, maintains table_inv (Channel.addErrorListener c l)) ∧
  (∀ l, maintains table_inv (Channel.removeErrorListener c l)).
Proof.
  repeat apply conj; intros l; apply table_update_channel; intros ?; reflexivity.
Qed.

Lemma table_requestChannel c : maintains table_inv (requestChannel c).
Proof. unfold requestChannel. table_auto. Qed.
#[export] Hint Resolve table_requestChannel : table.

Lemma table_requestActiveChannels : maintains table_inv requestActiveChannels.
Proof.
  unfold requestActiveChannels.
  apply maintains_bind; [apply maintains_get_this | intros this].
  apply maintains_for_of. intros ref.
  apply maintains_bind; [apply maintains_get_channel | intros channel].
  destruct (decide _); [apply table_delete | apply table_requestChannel].
Qed.
#[export] Hint Resolve table_requestActiveChannels : table.

Lemma maintains_bind_assoc {A B C} (I : World → Prop)
    (m : M A) (f : A → M B) (g : B → M C) :
  maintains I ((m ≫= f) ≫= g) → maintains I (m ≫= λ a, f a ≫= g).
Proof.
  intros H w Hw. specialize (H w Hw). revert H. rewrite !run_bind.
  destruct (m w) as [[a | e] w']; [rewrite run_bind |]; auto.
Qed.

Lemma table_openChannel service parameters :
  maintains table_inv (openChannel service parameters).
Proof.
  unfold openChannel.
  apply maintains_bind; [apply maintains_get_this | intros this].
  apply maintains_bind; [apply table_update; intros ?; reflexivity | intros _].
  apply maintains_bind_assoc.
  apply maintains_bind; [apply table_set; reflexivity | intros _].
  table_auto.
Qed.
#[export] Hint Resolve table_openChannel : table.

Lemma table_processSetupMessage version kt :
  maintains table_inv (processSetupMessage version kt).
Proof. unfold processSetupMessage. table_auto. Qed.
#[export] Hint Resolve table_processSetupMessage : table.

Lemma table_processAuthStateMessage state :
  maintains table_inv (processAuthStateMessage state).
Proof. unfold processAuthStateMessage. table_auto. Qed.
#[export] Hint Resolve table_processAuthStateMessage : table.

Lemma table_processTransportOpen : maintains table_inv processTransportOpen.
Proof. unfold processTransportOpen. table_auto. Qed.
#[export] Hint Resolve table_processTransportOpen : table.

Lemma table_processTransportClose : maintains table_inv processTransportClose.
Proof. unfold processTransportClose. table_auto. Qed.
#[export] Hint Resolve table_processTransportClose : table.

Lemma table_timeoutCheck t : maintains table_inv (timeoutCheck t).
Proof. unfold timeoutCheck. table_auto. Qed.
#[export] Hint Resolve table_timeoutCheck : table.

Lemma table_timeout_callback what : maintains table_inv (timeout_callback what).
Proof. unfold timeout_callback. table_auto. Qed.
#[export] Hint Resolve table_timeout_callback : table.

Lemma table_run_callback cb : maintains table_inv (run_callback cb).
Proof. unfold run_callback. destruct cb; table_auto. Qed.
#[export] Hint Resolve table_run_callback : table.

Lemma table_fire key : maintains table_inv (fire key).
Proof. unfold fire. table_auto. Qed.
#[export] Hint Resolve table_fire : table.

Lemma table_processMessage message :
  maintains table_inv (processMessage message).
Proof.
  unfold processMessage.
  pose proof (table_Channel_processStatus (message_channel message))
    as (Ho & Hr & Hc).
  pose proof (table_Channel_processError (message_channel message)) as He.
  pose proof (table_Channel_processPayloadMessage (message_channel message))
    as Hp.
  table_auto; auto.
Qed.
#[export] Hint Resolve table_processMessage : table.

Lemma table_handle ev : maintains table_inv (handle ev).
Proof.
  destruct ev; cbn [handle];
    try solve [table_auto
              | apply table_listener_sets
              | apply table_Channel_listener_sets
              | apply table_Channel_close
              | apply table_Channel_error ].
Qed.

(** In every run of an engine the keys of the channel table are distinct
    and each maps to the channel object of that id. *)
Lemma table_inv_run config evs : table_inv (run (initial config) evs).
Proof.
  induction evs as [| ev evs IH] using rev_ind.
  - split; [apply NoDup_nil_2 |]. split.
    + intros k Hk. inversion Hk.
    + intros k c Hk. cbn in Hk. rewrite lookup_empty in Hk. discriminate.
  - unfold run. rewrite fold_left_app. cbn [fold_left].
    apply (table_handle (snd ev) (set_clock (fst ev) _)). exact IH.
Qed.

Lemma table_ok_run config evs : table_ok (run (initial config) evs).
Proof.
  destruct (table_inv_run config evs) as (Hnd & Hin & Hid).
  split; [exact Hnd |]. intros k Hk. destruct (Hin k Hk) as [c Hc].
  exists c. split; [exact Hc | apply Hid, Hc].
Qed.

(** X22. In every run of an engine, whatever the calls, connector callbacks
    and timers, the keys of the channel table are distinct, every key has
    its channel object, and every channel object is stored under its own
    id: the table maps each key once to the channel of that id. *)
Theorem channel_table_in_every_run
    (config : DXLinkWebSocketConfig) (evs : list (Z * Event)) :
  NoDup (channels (ws (run (initial config) evs)))
  ∧ (∀ k, k ∈ channels (ws (run (initial config) evs)) →
          ∃ c, heap (run (initial config) evs) !! k = Some c
               ∧ ChannelObject.id c = k)
  ∧ (∀ k c, heap (run (initial config) evs) !! k = Some c →
            ChannelObject.id c = k).
Proof.
  destruct (table_inv_run config evs) as (Hnd & Hin & Hid).
  split; [exact Hnd |]. split; [| exact Hid].
  intros k Hk. destruct (Hin k Hk) as [c Hc].
  exists c. split; [exact Hc | apply Hid, Hc].
Qed.

Lemma requestChannel_globalChannelId ref c w :
  heap w !! ref = Some c →
  globalChannelId (ws (snd (requestChannel ref w))) = globalChannelId (ws w).
Proof.
  intros Hc. unfold requestChannel, get_channel.
  rewrite run_bind, Hc. rewrite run_bind, sendMessage_run.
  unfold Channel.processStatusRequested.
  match goal with |- context [Channel.setStatus ref REQUESTED ?x] =>
    set (w1 := x) end.
  assert (heap w1 !! ref = Some c) as Hc1 by exact Hc.
  destruct (decide (ChannelObject.status c = REQUESTED)) as [E | E].
  - pose proof (Channel_setStatus_same ref c w1 Hc1) as Hsame.
    rewrite E in Hsame. rewrite Hsame. reflexivity.
  - rewrite (Channel_setStatus_isolated ref c REQUESTED w1 Hc1 E). reflexivity.
Qed.

(** X21. [openChannel], whenever it returns: it returns the id it took from
    [globalChannelId], which has grown by 2; the new channel object, with
    this id, the service and the parameters, status REQUESTED and no
    listener, is stored under the id, every other object being as before;
    the id is in the table, at the end when it was not there.  When the
    engine is CONNECTED and AUTHORIZED the CHANNEL_REQUEST of the channel is
    the one message handed to the connector; otherwise nothing is sent. *)
Theorem openChannel_registers_and_requests
    (service : string) (parameters : JsObject) (w : World) (k : Z)
    (Hret : fst (openChannel service parameters w) = Ok k) :
  k = globalChannelId (ws w)
  ∧ globalChannelId (ws (snd (openChannel service parameters w))) = k + 2
  ∧ heap (snd (openChannel service parameters w))
    = <[k := ChannelObject.new k service parameters]> (heap w)
  ∧ channels (ws (snd (openChannel service parameters w)))
    = (if bool_decide (k ∈ channels (ws w)) then channels (ws w)
       else channels (ws w) ++ [k])
  ∧ sent (trace (snd (openChannel service parameters w)))
    = sent (trace w)
      ++ (if decide (connectionState (ws w) = CONNECTED
                     ∧ authState (ws w) = AUTHORIZED)
          then to_connector (ws w)
                 [channel_request (ChannelObject.new k service parameters)]
          else []).
Proof.
  revert Hret. unfold openChannel. exec.
  cbn [ws set_ws heap set_heap connectionState authState set_channels
       set_globalChannelId].
  set (k0 := globalChannelId (ws w)).
  set (c := ChannelObject.new k0 service parameters).
  destruct (decide (connectionState (ws w) = CONNECTED
                    ∧ authState (ws w) = AUTHORIZED)) as [Ha | Ha].
  - match goal with |- context [requestChannel k0 ?x] => set (w1 := x) end.
    assert (heap w1 !! k0 = Some c) as Hc1
      by (subst w1; cbn; apply lookup_insert_eq).
    pose proof (requestChannel_globalChannelId k0 c w1 Hc1) as Hg.
    destruct (requestChannel_spec k0 c w1 Hc1) as (w2 & E & Hh & Hch & _ & Hsent).
    rewrite E in Hg |- *. cbn [mret SE_ret fst snd] in *. intros [= <-].
    refine (conj eq_refl (conj _ (conj _ (conj _ _)))).
    + rewrite Hg. reflexivity.
    + rewrite Hh. subst w1. cbn. rewrite insert_insert_eq. reflexivity.
    + rewrite Hch. reflexivity.
    + rewrite Hsent. reflexivity.
  - cbn [mret SE_ret fst snd]. intros [= <-].
    cbn. rewrite app_nil_r. repeat split; reflexivity.
Qed.

Lemma openChannel_registers_and_requests_witness :
  fst (openChannel "FEED" [] sample_world) = Ok 3
  ∧ sent (trace (snd (openChannel "FEED" [] sample_world)))
    = sent (trace sample_world)
      ++ [[("type", VStr "CHANNEL_REQUEST"); ("channel", VNum 3);
           ("service", VStr "FEED"); ("parameters", VObj [])]].
Proof.
  assert (fst (openChannel "FEED" [] sample_world) = Ok 3) as Hret
    by (vm_compute; reflexivity).
  split; [exact Hret |].
  destruct (openChannel_registers_and_requests "FEED" [] sample_world 3 Hret)
    as (_ & _ & _ & _ & ->).
  vm_compute. reflexivity.
Defined.
